(** * MagicCut: the video processing pipeline and its status fan-out

    A shallow embedding of [server/videoProcessor.ts] (probe, scene
    detection, per-scene extraction, progress callbacks), of the in-memory
    repository [MemStorage] and of the two routes of [server/routes.ts] that
    start a run and report its status, followed by the properties of the
    pipeline that the design document states.

    Conventions.
    - A text is the sequence of its UTF-8 bytes.
    - Indices, identifiers and percentages are JavaScript numbers holding
      integers; they are embedded as [Z].  The times of the pipeline
      (timestamps, durations) come from [Math.floor(parseFloat(text) * 1000)]
      and are integers, [NaN] or an infinity: they are embedded as
      [Js.number], with integer arithmetic (exact below 2^53) on the finite
      ones.  The places where the source goes through fractional binary64
      values are treated explicitly: the conversion of a text ([Js.ms_of],
      computed with the IEEE-754 operations of [SpecFloat]) and the per-clip
      percentage ([VideoProcessor.clipProgress], with [clipProgress_f64]
      next to it).
    - A promise settles as a value of [Settled].
    - The child processes ([ffprobe], [ffmpeg]), Node's [path] functions and
      what ECMAScript leaves to the engine are the fields of a [Host]
      record. *)

From Stdlib Require Import ZArith QArith Lia SpecFloat Ascii String.
From stdpp Require Import base option list sorting strings pretty gmap.

Local Open Scope string_scope.
Local Open Scope Z_scope.

(* ===================================================================== *)
(** * JavaScript built-ins used by the server *)
(* ===================================================================== *)

Module Js.

(** binary64: 53 bits of precision, exponents below 1024 *)
Definition f64_div : spec_float -> spec_float -> spec_float := SFdiv 53 1024.
Definition f64_mul : spec_float -> spec_float -> spec_float := SFmul 53 1024.

(** the double nearest to the integer [z]/1 (exact below 2^53) *)
Definition f64_of_Z (z : Z) : spec_float :=
  match z with
  | Z0 => S754_zero false
  | Zpos p => f64_div (S754_finite false p 0) (S754_finite false 1 0)
  | Zneg p => f64_div (S754_finite true p 0) (S754_finite false 1 0)
  end.

(** A number as the pipeline holds them: an integer, [NaN], [Infinity] or
    [-Infinity]. *)
Inductive number : Type :=
| Fin (z : Z)
| NaN
| Inf (negative : bool).

(** A number that may have a fractional part: the time of a thumbnail. *)
Inductive real : Type :=
| Rat (q : Q)
| RNaN
| RInf (negative : bool).

#[global] Instance number_eq_dec : EqDecision number.
Proof. solve_decision. Defined.

Definition is_nan (x : number) : bool :=
  match x with NaN => true | _ => false end.

Definition is_fin (x : number) : bool :=
  match x with Fin _ => true | _ => false end.

(** [Math.floor] of a double *)
Definition math_floor (x : spec_float) : number :=
  match x with
  | S754_zero _ => Fin 0
  | S754_finite s m e => Fin (Z.shiftl (if s then Z.neg m else Z.pos m) e)
  | S754_infinity s => Inf s
  | S754_nan => NaN
  end.

(** [a - b] *)
Definition sub (a b : number) : number :=
  match a, b with
  | Fin x, Fin y => Fin (x - y)
  | NaN, _ | _, NaN => NaN
  | Inf s, Fin _ => Inf s
  | Fin _, Inf t => Inf (negb t)
  | Inf s, Inf t => if Bool.eqb s t then NaN else Inf s
  end.

(** [a < b]: false as soon as one side is [NaN] *)
Definition ltb (a b : number) : bool :=
  match a, b with
  | Fin x, Fin y => x <? y
  | NaN, _ | _, NaN => false
  | Inf s, Fin _ => s
  | Fin _, Inf t => negb t
  | Inf s, Inf t => s && negb t
  end.

Definition lt (a b : number) : Prop := ltb a b = true.

(** The order of the numbers; [NaN] is below nothing and above nothing. *)
Definition le (a b : number) : Prop :=
  match a, b with
  | Fin x, Fin y => x <= y
  | NaN, _ | _, NaN => False
  | Inf s, Fin _ => s = true
  | Fin _, Inf t => t = false
  | Inf s, Inf t => s = true \/ t = false
  end.

(** [Math.floor(x / d)] for an integer [d] above 0 *)
Definition floor_div (x : number) (d : Z) : number :=
  match x with
  | Fin z => Fin (z / d)
  | NaN => NaN
  | Inf s => Inf s
  end.

(** [x % d] for an integer [d] above 0: the sign of [x], [NaN] for the
    infinities *)
Definition rem (x : number) (d : Z) : number :=
  match x with
  | Fin z => Fin (Z.rem z d)
  | _ => NaN
  end.

(** [String(x)] *)
Definition to_string (x : number) : string :=
  match x with
  | Fin z => pretty z
  | NaN => "NaN"
  | Inf false => "Infinity"
  | Inf true => "-Infinity"
  end.

(** [JSON.stringify] prints [NaN] and the infinities as [null]; this is
    what [JSON.parse] then returns for a number, [None] being [null]. *)
Definition json (x : number) : option Z :=
  match x with
  | Fin z => Some z
  | _ => None
  end.

(** [SortCompare] for the comparison function [(a, b) => a - b]: whether
    [a] has to come before [b].  A difference that is [NaN] counts as 0. *)
Definition comes_before (a b : number) : bool := ltb (sub a b) (Fin 0).

(** [sort((a, b) => a - b)] on an array without [NaN], where the comparison
    is consistent: by insertion, equal elements keeping their order. *)
Fixpoint insert_sorted (x : number) (sorted : list number) : list number :=
  match sorted with
  | [] => [x]
  | y :: rest =>
      if comes_before y x then y :: insert_sorted x rest else x :: sorted
  end.

Definition sort_ascending (l : list number) : list number :=
  foldr insert_sorted [] l.

Definition is_digit (c : ascii) : bool :=
  let n := Z.of_N (N_of_ascii c) in (48 <=? n) && (n <=? 57).

Definition digit_value (c : ascii) : Z := Z.of_N (N_of_ascii c) - 48.

Definition is_dot (c : ascii) : bool := Ascii.eqb c ".".

(** longest prefix of decimal digits, and what follows it *)
Fixpoint span_digits (s : string) : string * string :=
  match s with
  | String c rest =>
      if is_digit c
      then let '(ds, tl) := span_digits rest in (String c ds, tl)
      else (EmptyString, s)
  | EmptyString => (EmptyString, EmptyString)
  end.

Fixpoint digits_to_Z_aux (acc : Z) (s : string) : Z :=
  match s with
  | String c rest => digits_to_Z_aux (10 * acc + digit_value c) rest
  | EmptyString => acc
  end.

Definition digits_to_Z (s : string) : Z := digits_to_Z_aux 0 s.

(** The white space that [parseInt] and [parseFloat] skip: TAB, LF, VT, FF,
    CR and the space, *)
Definition is_space (c : ascii) : bool :=
  let n := N_of_ascii c in
  (N.eqb n 32 || (N.leb 9 n && N.leb n 13))%bool.

Definition byte_is (c : ascii) (n : N) : bool := N.eqb (N_of_ascii c) n.

(** and, in the UTF-8 bytes of a text, U+00A0, U+1680, U+2000 to U+200A,
    U+2028, U+2029, U+202F, U+205F, U+3000 and U+FEFF. *)
Fixpoint skip_spaces (s : string) : string :=
  match s with
  | String c rest =>
      if is_space c then skip_spaces rest
      else
        match rest with
        | String d rest2 =>
            if byte_is c 194 && byte_is d 160 then skip_spaces rest2
            else
              match rest2 with
              | String e rest3 =>
                  let n := N_of_ascii e in
                  if (byte_is c 225 && byte_is d 154 && byte_is e 128)
                     || (byte_is c 226 && byte_is d 128
                         && ((N.leb 128 n && N.leb n 138)
                             || N.eqb n 168 || N.eqb n 169 || N.eqb n 175))
                     || (byte_is c 226 && byte_is d 129 && byte_is e 159)
                     || (byte_is c 227 && byte_is d 128 && byte_is e 128)
                     || (byte_is c 239 && byte_is d 187 && byte_is e 191)
                  then skip_spaces rest3
                  else s
              | EmptyString => s
              end
        | EmptyString => s
        end
  | EmptyString => s
  end.

(** an optional sign *)
Definition split_sign (s : string) : bool * string :=
  match s with
  | String "-" r => (true, r)
  | String "+" r => (false, r)
  | _ => (false, s)
  end.

(** [parseInt(s, 10)]: leading white space, an optional sign, then the
    longest run of digits; [None] is NaN.  (Exact for results below 2^53.) *)
Definition parseInt (s : string) : option Z :=
  let body := skip_spaces s in
  let '(neg, ds) :=
    match body with
    | String "-" r => (true, r)
    | String "+" r => (false, r)
    | _ => (false, body)
    end in
  match fst (span_digits ds) with
  | EmptyString => None
  | digits => Some (if neg : bool then - digits_to_Z digits else digits_to_Z digits)
  end.

Fixpoint strip_prefix (p s : string) : option string :=
  match p, s with
  | EmptyString, _ => Some s
  | String a p', String b s' => if Ascii.eqb a b then strip_prefix p' s' else None
  | String _ _, EmptyString => None
  end.

(** the double nearest to m * 10^k (round to nearest, ties to even), with
    the sign [neg] *)
Definition f64_of_scaled (neg : bool) (m : Z) (k : Z) : spec_float :=
  match m with
  | Zpos p =>
      if 0 <=? k
      then f64_div (S754_finite neg (p * Z.to_pos (10 ^ k)) 0) (S754_finite false 1 0)
      else f64_div (S754_finite neg p 0) (S754_finite false (Z.to_pos (10 ^ (- k))) 0)
  | _ => S754_zero neg
  end.

(** the exponent part [e digits], [e+digits] or [e-digits] at the head of
    [s]; 0 when there is none *)
Definition exponent (s : string) : Z :=
  match s with
  | String c r =>
      if Ascii.eqb c "e" || Ascii.eqb c "E" then
        let '(neg, ds) := split_sign r in
        match fst (span_digits ds) with
        | EmptyString => 0
        | digits => if neg : bool then - digits_to_Z digits else digits_to_Z digits
        end
      else 0
  | EmptyString => 0
  end.

(** [parseFloat(s)]: after the leading white space, the longest prefix that
    is a decimal literal: a sign, then [Infinity], or digits with an
    optional fraction, or a fraction alone, and an optional exponent.  The
    result is [NaN] when there is no such prefix. *)
Definition parseFloat (s : string) : spec_float :=
  let '(neg, u) := split_sign (skip_spaces s) in
  match strip_prefix "Infinity" u with
  | Some _ => S754_infinity neg
  | None =>
      let '(ip, r1) := span_digits u in
      let '(fp, r2) :=
        match r1 with
        | String c r => if is_dot c then span_digits r else (EmptyString, r1)
        | EmptyString => (EmptyString, r1)
        end in
      match ip, fp with
      | EmptyString, EmptyString => S754_nan
      | _, _ =>
          f64_of_scaled neg (digits_to_Z (ip +:+ fp))
                        (exponent r2 - Z.of_nat (String.length fp))
      end
  end.

(** [Math.floor(parseFloat(s) * 1000)]: seconds in a text, as milliseconds *)
Definition ms_of (s : string) : number :=
  math_floor (f64_mul (parseFloat s) (S754_finite false 1000 0)).

(** [s.split('\n')] and friends *)
Fixpoint split_on (sep : ascii) (s : string) : list string :=
  match s with
  | EmptyString => [EmptyString]
  | String c rest =>
      let r := split_on sep rest in
      if Ascii.eqb c sep then EmptyString :: r
      else match r with
           | cur :: more => String c cur :: more
           | [] => [String c EmptyString]
           end
  end.

(** a double that is not below zero, or not a number *)
Definition nonneg_float (x : spec_float) : Prop :=
  match x with
  | S754_finite s _ _ => s = false
  | S754_infinity s => s = false
  | _ => True
  end.

(** a number that is not below zero, or not a number *)
Definition nonneg (x : number) : Prop :=
  match x with
  | Fin z => 0 <= z
  | NaN => True
  | Inf s => s = false
  end.

(** [s.padStart(2, '0')] *)
Definition padStart2 (s : string) : string :=
  if (String.length s <? 2)%nat then "0" +:+ s else s.

(** [String(n).padStart(2, '0')] for an integer [n] *)
Definition pad2 (n : Z) : string := padStart2 (pretty n).

(** and for any number *)
Definition pad2_number (x : number) : string := padStart2 (to_string x).

End Js.

(* ===================================================================== *)
(** * shared/schema.ts: the records that cross module boundaries *)
(* ===================================================================== *)

(** A row of [videos].  [duration] holds what the route stores there, the
    formatted text of [formatDuration]; the time stamp column is left out. *)
Record Video := mkVideo {
  video_id : Z;
  video_filename : string;
  video_originalFilename : string;
  video_filePath : string;
  video_fileSize : Z;
  video_duration : option string;
  video_format : option string;
  video_resolution : option string;
  video_processingStatus : string
}.

Record InsertVideo := mkInsertVideo {
  iv_filename : string;
  iv_originalFilename : string;
  iv_filePath : string;
  iv_fileSize : Z;
  iv_processingStatus : string
}.

(** The fields of [Partial<Video>] that the server ever sets. *)
Record VideoPatch := mkVideoPatch {
  patch_duration : option string;
  patch_format : option string;
  patch_resolution : option string;
  patch_processingStatus : option string
}.

Record InsertClip := mkInsertClip {
  ic_videoId : Z;
  ic_filename : string;
  ic_filePath : string;
  ic_thumbnailPath : string;
  ic_startTime : Js.number;
  ic_endTime : Js.number;
  ic_duration : Js.number;
  ic_sceneIndex : Z
}.

Record Clip := mkClip {
  clip_id : Z;
  clip_videoId : Z;
  clip_filename : string;
  clip_filePath : string;
  clip_thumbnailPath : string;
  clip_startTime : Js.number;
  clip_endTime : Js.number;
  clip_duration : Js.number;
  clip_sceneIndex : Z
}.

(** [videoInfoSchema] *)
Record VideoInfo := mkVideoInfo {
  vi_id : Z;
  vi_filename : string;
  vi_originalFilename : string;
  vi_fileSize : Z;
  vi_duration : option string;
  vi_format : option string;
  vi_resolution : option string;
  vi_processingStatus : string;
  vi_sceneCount : option Z
}.

(** [clipSchema] *)
Record ClipInfo := mkClipInfo {
  ci_id : Z;
  ci_videoId : Z;
  ci_sceneIndex : Z;
  ci_startTime : Js.number;
  ci_endTime : Js.number;
  ci_duration : Js.number;
  ci_timestamp : string;
  ci_url : string;
  ci_thumbnailUrl : string
}.

(** [processingStatusSchema]: every field but [status] is optional *)
Record ProcessingStatus := mkStatus {
  ps_videoId : option Z;
  ps_status : string;
  ps_progress : option Z;
  ps_stage : option string;
  ps_error : option string;
  ps_clips : option (list ClipInfo);
  ps_videoInfo : option VideoInfo
}.

(** A thrown [Error], by its message, or a value. *)
Definition Exn (A : Type) : Type := string + A.

Definition throw {A} (message : string) : Exn A := inl message.
Definition ret {A} (a : A) : Exn A := inr a.

(* ===================================================================== *)
(** * server/storage.ts: MemStorage *)
(* ===================================================================== *)

Module MemStorage.

(** The two maps the pipeline uses and their id counters.  [clips] keeps the
    insertion order of the JavaScript [Map], which [getClipsByVideo]
    observes through [values()]; a clip is looked up by its [clip_id]. *)
Record t := mk {
  videos : gmap Z Video;
  clips : list Clip;
  videoId : Z;
  clipId : Z
}.

Definition empty : t := {| videos := ∅; clips := []; videoId := 1; clipId := 1 |}.

Definition createVideo (insertVideo : InsertVideo) (st : t) : Video * t :=
  let id := videoId st in
  let video :=
    {| video_id := id;
       video_filename := iv_filename insertVideo;
       video_originalFilename := iv_originalFilename insertVideo;
       video_filePath := iv_filePath insertVideo;
       video_fileSize := iv_fileSize insertVideo;
       video_duration := None;
       video_format := None;
       video_resolution := None;
       video_processingStatus := iv_processingStatus insertVideo |} in
  (video, {| videos := <[id := video]> (videos st); clips := clips st;
             videoId := id + 1; clipId := clipId st |}).

Definition getVideo (id : Z) (st : t) : option Video := videos st !! id.

(** [{ ...video, ...data }] *)
Definition apply_patch (video : Video) (data : VideoPatch) : Video :=
  {| video_id := video_id video;
     video_filename := video_filename video;
     video_originalFilename := video_originalFilename video;
     video_filePath := video_filePath video;
     video_fileSize := video_fileSize video;
     video_duration :=
       match patch_duration data with Some d => Some d | None => video_duration video end;
     video_format :=
       match patch_format data with Some f => Some f | None => video_format video end;
     video_resolution :=
       match patch_resolution data with Some r => Some r | None => video_resolution video end;
     video_processingStatus :=
       match patch_processingStatus data with
       | Some s => s
       | None => video_processingStatus video
       end |}.

Definition not_found (id : Z) : string :=
  "Video with ID " +:+ pretty id +:+ " not found".

Definition updateVideo (id : Z) (data : VideoPatch) (st : t) : Exn (Video * t) :=
  match videos st !! id with
  | None => throw (not_found id)
  | Some video =>
      let updatedVideo := apply_patch video data in
      ret (updatedVideo,
           {| videos := <[id := updatedVideo]> (videos st); clips := clips st;
              videoId := videoId st; clipId := clipId st |})
  end.

Definition updateVideoStatus (id : Z) (status : string) (st : t) : Exn (Video * t) :=
  updateVideo id
    {| patch_duration := None; patch_format := None; patch_resolution := None;
       patch_processingStatus := Some status |} st.

Definition getVideoInfo (id : Z) (st : t) : Exn VideoInfo :=
  match videos st !! id with
  | None => throw (not_found id)
  | Some video =>
      ret {| vi_id := video_id video;
             vi_filename := video_filename video;
             vi_originalFilename := video_originalFilename video;
             vi_fileSize := video_fileSize video;
             vi_duration := video_duration video;
             vi_format := video_format video;
             vi_resolution := video_resolution video;
             vi_processingStatus := video_processingStatus video;
             vi_sceneCount := None |}
  end.

Definition createClip (insertClip : InsertClip) (st : t) : Clip * t :=
  let id := clipId st in
  let clip :=
    {| clip_id := id;
       clip_videoId := ic_videoId insertClip;
       clip_filename := ic_filename insertClip;
       clip_filePath := ic_filePath insertClip;
       clip_thumbnailPath := ic_thumbnailPath insertClip;
       clip_startTime := ic_startTime insertClip;
       clip_endTime := ic_endTime insertClip;
       clip_duration := ic_duration insertClip;
       clip_sceneIndex := ic_sceneIndex insertClip |} in
  (clip, {| videos := videos st; clips := clips st ++ [clip];
            videoId := videoId st; clipId := id + 1 |}).

Definition getClip (id : Z) (st : t) : option Clip :=
  List.find (fun c => clip_id c =? id) (clips st).

(** [sort((a, b) => a.sceneIndex - b.sceneIndex)].  [Array.prototype.sort]
    is stable: clips with the same scene index keep their order. *)
Fixpoint insert_by_sceneIndex (c : Clip) (sorted : list Clip) : list Clip :=
  match sorted with
  | [] => [c]
  | d :: rest =>
      if clip_sceneIndex c <=? clip_sceneIndex d then c :: sorted
      else d :: insert_by_sceneIndex c rest
  end.

Definition sort_by_sceneIndex (l : list Clip) : list Clip :=
  foldr insert_by_sceneIndex [] l.

(** [Array.from(this.clips.values()).filter(...).sort(...)] *)
Definition getClipsByVideo (vid : Z) (st : t) : list Clip :=
  sort_by_sceneIndex (List.filter (fun c => clip_videoId c =? vid) (clips st)).

End MemStorage.

(* ===================================================================== *)
(** * server/videoProcessor.ts *)
(* ===================================================================== *)

Module VideoProcessor.

(** [const SCENE_THRESHOLD = 0.4] *)
Definition SCENE_THRESHOLD : Q := 4 # 10.

(** How a promise settles. *)
Inductive Settled (A : Type) : Type :=
| Resolved (value : A)
| Rejected (message : string).
Arguments Resolved {A} value.
Arguments Rejected {A} message.

(** What [exec] hands to its callback. *)
Inductive ExecOutcome : Type :=
| ExecError (message : string)
| ExecDone (stdout stderr : string).

(** What [getVideoInfo] reads in the report of [ffprobe]: the texts of
    [info.streams[0].width] and [.height] as a template prints them, the
    string [info.streams[0].codec_name] and the text that [parseFloat] makes
    of [info.format.duration]. *)
Record ProbeReport := mkProbeReport {
  rp_width : string;
  rp_height : string;
  rp_codec : string;
  rp_duration : string
}.

(** [{ duration, format, resolution }] of [getVideoInfo] *)
Record MediaInfo := mkMediaInfo {
  mi_duration : Js.number;
  mi_format : string;
  mi_resolution : string
}.

(** The machine the server runs on: the child processes it spawns, keyed by
    the values interpolated into their command lines, Node's [path], and
    the engine where ECMAScript or Unicode decide. *)
Record Host := mkHost {
  (** [ffprobe -v error -select_streams v:0 -show_entries ... -of json file] *)
  ffprobe : string -> ExecOutcome;
  (** [JSON.parse(stdout)] and the four reads of [getVideoInfo]; [None] when
      one of them throws (no JSON, no [streams[0]], no [format], a
      [codec_name] that is not a string) *)
  read_report : string -> option ProbeReport;
  (** [String.prototype.toUpperCase] *)
  toUpperCase : string -> string;
  (** [ffmpeg -i file -vf select='gt(scene,threshold)',showinfo -f null -] *)
  ffmpeg_scene : string -> Q -> ExecOutcome;
  (** the order in which [Array.prototype.sort] leaves an array for which
      the comparison function is not consistent *)
  array_sort : list Js.number -> list Js.number;
  (** [ffmpeg -ss start -i input -t duration ... output]: the message of the
      [exec] error, if any *)
  ffmpeg_clip : string -> string -> Js.number -> Js.number -> option string;
  (** [ffmpeg -ss time -i input -vframes 1 -q:v 2 output] *)
  ffmpeg_frame : string -> string -> Js.real -> option string;
  path_parse_name : string -> string;
  path_join : string -> string -> string;
  path_basename : string -> string
}.

Record ProcessOptions := mkOptions {
  outputDir : string;
  thumbnailDir : string;
  threshold : option Q
}.

Record ClipResult := mkClipResult {
  cr_filePath : string;
  cr_thumbnailPath : string;
  cr_startTime : Js.number;
  cr_endTime : Js.number
}.

Record ProcessResults := mkResults {
  pr_clips : list ClipResult;
  pr_duration : Js.number;
  pr_format : string;
  pr_resolution : string
}.

(** One invocation of a callback of [ProcessOptions]. *)
Inductive Callback : Type :=
| OnProgress (progress : Z) (stage : string)
| OnComplete (results : ProcessResults)
| OnError (message : string).

Definition getVideoInfo (h : Host) (filePath : string) : Exn MediaInfo :=
  match ffprobe h filePath with
  | ExecError message => throw ("Failed to get video info: " +:+ message)
  | ExecDone stdout _ =>
      match read_report h stdout with
      | None => throw "Failed to parse video information"
      | Some info =>
          ret {| mi_duration := Js.ms_of (rp_duration info);
                 mi_format := toUpperCase h (rp_codec info);
                 mi_resolution := rp_width info +:+ " × " +:+ rp_height info |}
      end
  end.

Definition is_capture_char (c : ascii) : bool := Js.is_digit c || Js.is_dot c.

(** the greedy run [[\d.]+] at the head of [s] *)
Fixpoint capture (s : string) : string :=
  match s with
  | String c rest => if is_capture_char c then String c (capture rest) else EmptyString
  | EmptyString => EmptyString
  end.

(** [line.match(/pts_time:([\d.]+)/)]: the capture group of the leftmost
    match, if any.  (The [includes('pts_time:')] test and the
    [matches && matches[1]] test hold exactly when this is [Some].) *)
Fixpoint match_pts_time (line : string) : option string :=
  match line with
  | EmptyString => None
  | String _ rest =>
      match Js.strip_prefix "pts_time:" line with
      | Some tl =>
          match capture tl with
          | EmptyString => match_pts_time rest
          | cap => Some cap
          end
      | None => match_pts_time rest
      end
  end.

(** The loop over [lines]: the values pushed after the initial [0], in
    order.  A captured text that is no number, such as ["."], pushes
    [NaN]. *)
Fixpoint pushed_timestamps (lines : list string) : list Js.number :=
  match lines with
  | [] => []
  | line :: more =>
      match match_pts_time line with
      | Some cap => Js.ms_of cap :: pushed_timestamps more
      | None => pushed_timestamps more
      end
  end.

Definition newline : ascii := ascii_of_N 10.

(** [scenes.sort((a, b) => a - b)].  The comparison is consistent unless
    the array holds [NaN], whose difference with anything is [NaN]; then the
    order is the engine's, and still a rearrangement of the array (an
    answer of the host that is none leaves the array as it is). *)
Definition sort_scenes (h : Host) (scenes : list Js.number) : list Js.number :=
  if existsb Js.is_nan scenes then
    let sorted := array_sort h scenes in
    if decide (sorted ≡ₚ scenes) then sorted else scenes
  else Js.sort_ascending scenes.

Definition detectScenes (h : Host) (filePath : string) (threshold : Q)
  : Settled (list Js.number) :=
  match ffmpeg_scene h filePath threshold with
  | ExecError message => Rejected ("Failed to detect scenes: " +:+ message)
  | ExecDone _ stderr =>
      let lines := Js.split_on newline stderr in
      Resolved (sort_scenes h (Js.Fin 0 :: pushed_timestamps lines))
  end.

Definition extractClip (h : Host) (inputPath outputPath : string)
    (startTime endTime : Js.number) : Exn unit :=
  match ffmpeg_clip h inputPath outputPath startTime endTime with
  | Some message => throw ("Failed to extract clip: " +:+ message)
  | None => ret tt
  end.

Definition generateThumbnail (h : Host) (inputPath outputPath : string)
    (timeMs : Js.real) : Exn unit :=
  match ffmpeg_frame h inputPath outputPath timeMs with
  | Some message => throw ("Failed to generate thumbnail: " +:+ message)
  | None => ret tt
  end.

(** [startTime + Math.min(1000, duration / 2)] on integers *)
Definition thumbnailTime (startTime duration : Z) : Q :=
  let half := (duration # 2)%Q in
  (inject_Z startTime + (if Qle_bool (1000 # 1) half then 1000 # 1 else half))%Q.

(** and on any two numbers: [Math.min] is [NaN] for [NaN], 1000 for
    [Infinity] and [-Infinity] for [-Infinity] *)
Definition thumbnailMoment (startTime duration : Js.number) : Js.real :=
  match startTime, duration with
  | Js.NaN, _ | _, Js.NaN => Js.RNaN
  | Js.Fin s, Js.Fin d => Js.Rat (thumbnailTime s d)
  | Js.Fin s, Js.Inf false => Js.Rat (inject_Z s + (1000 # 1))%Q
  | Js.Fin _, Js.Inf true => Js.RInf true
  | Js.Inf s, Js.Fin _ => Js.RInf s
  | Js.Inf s, Js.Inf false => Js.RInf s
  | Js.Inf s, Js.Inf true => if s then Js.RInf true else Js.RNaN
  end.

(** [30 + Math.floor(((i + 1) / totalScenes) * 60)].  The quotient and the
    product are binary64 operations, spelled out in [clipProgress_f64]; the
    floor of their result is the integer quotient used here
    ([clipProgress_f64_agrees] compares the two for up to 128 boundaries). *)
Definition clipProgress (i totalScenes : Z) : Z := 30 + (60 * (i + 1)) / totalScenes.

Definition clipProgress_f64 (i totalScenes : Z) : option Z :=
  match Js.math_floor
          (Js.f64_mul (Js.f64_div (Js.f64_of_Z (i + 1)) (Js.f64_of_Z totalScenes))
                      (Js.f64_of_Z 60)) with
  | Js.Fin q => Some (30 + q)
  | _ => None
  end.

Definition clipStage (i totalScenes : Z) : string :=
  "Extracting clip " +:+ pretty (i + 1) +:+ " of " +:+ pretty totalScenes +:+ "...".

(** The [for] loop of step 3 from index [i] on, [scenes] being the boundaries
    [scenes[i..]] still to visit and [clipResults] the clips pushed so far.
    Returns the [onProgress] calls made, in order, and either the message of
    the error thrown or the final [clipResults]. *)
Fixpoint extractLoop (h : Host) (video : Video) (options : ProcessOptions)
    (duration : Js.number) (totalScenes : Z) (i : Z) (scenes : list Js.number)
    (clipResults : list ClipResult) : list Callback * Exn (list ClipResult) :=
  match scenes with
  | [] => ([], ret clipResults)
  | scene :: rest =>
      let nextScene := match rest with next :: _ => next | [] => duration end in
      let startTime := scene in
      let endTime := nextScene in
      let duration_i := Js.sub endTime startTime in
      if Js.ltb duration_i (Js.Fin 500) then
        (* continue *)
        extractLoop h video options duration totalScenes (i + 1) rest clipResults
      else
        let name := path_parse_name h (video_filename video) in
        let clipFilename := name +:+ "_scene_" +:+ pretty (i + 1) +:+ ".mp4" in
        let clipPath := path_join h (outputDir options) clipFilename in
        let thumbnailFilename := name +:+ "_scene_" +:+ pretty (i + 1) +:+ ".jpg" in
        let thumbnailPath := path_join h (thumbnailDir options) thumbnailFilename in
        match extractClip h (video_filePath video) clipPath startTime endTime with
        | inl e => ([], throw e)
        | inr _ =>
            match generateThumbnail h (video_filePath video) thumbnailPath
                    (thumbnailMoment startTime duration_i) with
            | inl e => ([], throw e)
            | inr _ =>
                let clip := {| cr_filePath := clipPath; cr_thumbnailPath := thumbnailPath;
                               cr_startTime := startTime; cr_endTime := endTime |} in
                let '(calls, outcome) :=
                  extractLoop h video options duration totalScenes (i + 1) rest
                              (clipResults ++ [clip])%list in
                (OnProgress (clipProgress i totalScenes) (clipStage i totalScenes) :: calls,
                 outcome)
            end
        end
  end.

(** [options.threshold || SCENE_THRESHOLD] *)
Definition effective_threshold (options : ProcessOptions) : Q :=
  match threshold options with
  | Some t => if Qeq_bool t 0 then SCENE_THRESHOLD else t
  | None => SCENE_THRESHOLD
  end.

(** [processVideo] runs up to its first [await] inside the caller: *)
Definition processVideo_sync : list Callback := [OnProgress 5 "Analyzing video..."].

(** and the rest once [getVideoInfo] has settled.  The result lists the
    callback invocations of the run from there on, in order; every thrown
    error reaches the [catch] and becomes the final [OnError]. *)
Definition processVideo_async (h : Host) (video : Video) (options : ProcessOptions)
  : list Callback :=
  match getVideoInfo h (video_filePath video) with
  | inl e => [OnError e]
  | inr videoInfo =>
      let detecting := OnProgress 15 "Detecting scenes..." in
      match detectScenes h (video_filePath video) (effective_threshold options) with
      | Rejected e => [detecting; OnError e]
      | Resolved scenes =>
          if (length scenes =? 0)%nat then
            [detecting; OnError "No scenes detected in the video"]
          else
            let totalScenes := Z.of_nat (length scenes) in
            let '(calls, outcome) :=
              extractLoop h video options (mi_duration videoInfo) totalScenes 0 scenes [] in
            match outcome with
            | inl e =>
                ([detecting; OnProgress 30 "Extracting clips..."] ++ calls ++
                 [OnError e])%list
            | inr clipResults =>
                ([detecting; OnProgress 30 "Extracting clips..."] ++ calls ++
                 [OnProgress 100 "Processing complete";
                  OnComplete {| pr_clips := clipResults;
                                pr_duration := mi_duration videoInfo;
                                pr_format := mi_format videoInfo;
                                pr_resolution := mi_resolution videoInfo |}])%list
            end
      end
  end.

Definition processVideo (h : Host) (video : Video) (options : ProcessOptions)
  : list Callback :=
  (processVideo_sync ++ processVideo_async h video options)%list.

End VideoProcessor.

(* ===================================================================== *)
(** * server/routes.ts *)
(* ===================================================================== *)

Module Routes.
Import VideoProcessor.

(** The object that [JSON.stringify({ videoId, ...status })] serialises: the
    keys of [status] with a value, and [videoId]. *)
Record Payload := mkPayload {
  p_videoId : Z;
  p_status : string;
  p_progress : option Z;
  p_stage : option string;
  p_error : option string;
  p_clips : option (list ClipInfo);
  p_videoInfo : option VideoInfo
}.

(** A member of [wss.clients]: its [readyState] (0 connecting, 1 open,
    2 closing, 3 closed) and the messages sent down the socket so far, oldest
    first.  [watching] is the browser's side of the connection, the
    [uploadedVideoId] of the page that opened it; the server never reads it. *)
Record WsClient := mkClient {
  readyState : Z;
  inbox : list Payload;
  watching : option Z
}.

Definition OPEN : Z := 1.

(** [{ videoId, ...status }]: a [videoId] key of [status] would win *)
Definition payload_of (videoId : Z) (status : ProcessingStatus) : Payload :=
  {| p_videoId := match ps_videoId status with Some v => v | None => videoId end;
     p_status := ps_status status;
     p_progress := ps_progress status;
     p_stage := ps_stage status;
     p_error := ps_error status;
     p_clips := ps_clips status;
     p_videoInfo := ps_videoInfo status |}.

Definition send (client : WsClient) (message : Payload) : WsClient :=
  {| readyState := readyState client;
     inbox := (inbox client ++ [message])%list;
     watching := watching client |}.

(** [wss.clients.forEach(...)] *)
Fixpoint broadcastStatus (videoId : Z) (status : ProcessingStatus)
    (clients : list WsClient) : list WsClient :=
  match clients with
  | [] => []
  | client :: others =>
      (if readyState client =? 1 then send client (payload_of videoId status)
       else client) :: broadcastStatus videoId status others
  end.

(** The test of the page's [onmessage] handler:
    [data && data.videoId && data.videoId === uploadedVideoId]. *)
Definition page_accepts (client : WsClient) (data : Payload) : bool :=
  match watching client with
  | Some uploadedVideoId =>
      negb (p_videoId data =? 0) && (p_videoId data =? uploadedVideoId)
  | None => false
  end.

Definition formatDuration (ms : Js.number) : string :=
  let totalSeconds := Js.floor_div ms 1000 in
  let hours := Js.floor_div totalSeconds 3600 in
  let minutes := Js.floor_div (Js.rem totalSeconds 3600) 60 in
  let seconds := Js.rem totalSeconds 60 in
  if Js.ltb (Js.Fin 0) hours then
    Js.pad2_number hours +:+ ":" +:+ Js.pad2_number minutes +:+ ":"
    +:+ Js.pad2_number seconds
  else
    Js.pad2_number minutes +:+ ":" +:+ Js.pad2_number seconds.

Definition formatTimestamp (startMs endMs : Js.number) : string :=
  formatDuration startMs +:+ " - " +:+ formatDuration endMs.

Definition clipInfo_of (clip : Clip) : ClipInfo :=
  {| ci_id := clip_id clip;
     ci_videoId := clip_videoId clip;
     ci_sceneIndex := clip_sceneIndex clip;
     ci_startTime := clip_startTime clip;
     ci_endTime := clip_endTime clip;
     ci_duration := clip_duration clip;
     ci_timestamp := formatTimestamp (clip_startTime clip) (clip_endTime clip);
     ci_url := "/api/clips/" +:+ pretty (clip_id clip) +:+ "/stream";
     ci_thumbnailUrl := "/api/clips/" +:+ pretty (clip_id clip) +:+ "/thumbnail" |}.

(** A call of [processVideo] that the server has made: the callbacks it has
    invoked so far and those still to come. *)
Record Run := mkRun {
  run_videoId : Z;
  fired : list Callback;
  pending : list Callback
}.

Record Server := mkServer {
  storage : MemStorage.t;
  clients : list WsClient;
  runs : list Run
}.

Definition with_storage (st : MemStorage.t) (s : Server) : Server :=
  {| storage := st; clients := clients s; runs := runs s |}.

Definition broadcast (videoId : Z) (status : ProcessingStatus) (s : Server) : Server :=
  {| storage := storage s;
     clients := broadcastStatus videoId status (clients s);
     runs := runs s |}.

Definition processing_status (progress : Z) (stage : string) : ProcessingStatus :=
  {| ps_videoId := None; ps_status := "processing"; ps_progress := Some progress;
     ps_stage := Some stage; ps_error := None; ps_clips := None; ps_videoInfo := None |}.

Definition error_status (message : string) : ProcessingStatus :=
  {| ps_videoId := None; ps_status := "error"; ps_progress := None;
     ps_stage := None; ps_error := Some message; ps_clips := None; ps_videoInfo := None |}.

Definition completed_status (clips : list ClipInfo) (videoInfo : VideoInfo)
  : ProcessingStatus :=
  {| ps_videoId := None; ps_status := "completed"; ps_progress := Some 100;
     ps_stage := None; ps_error := None; ps_clips := Some clips;
     ps_videoInfo := Some videoInfo |}.

(** [{ ...videoInfo, sceneCount }] *)
Definition with_sceneCount (videoInfo : VideoInfo) (n : Z) : VideoInfo :=
  {| vi_id := vi_id videoInfo;
     vi_filename := vi_filename videoInfo;
     vi_originalFilename := vi_originalFilename videoInfo;
     vi_fileSize := vi_fileSize videoInfo;
     vi_duration := vi_duration videoInfo;
     vi_format := vi_format videoInfo;
     vi_resolution := vi_resolution videoInfo;
     vi_processingStatus := vi_processingStatus videoInfo;
     vi_sceneCount := Some n |}.

(** [onProgress] *)
Definition onProgress (videoId : Z) (progress : Z) (stage : string) (s : Server)
  : Server :=
  broadcast videoId (processing_status progress stage) s.

(** The [for] loop of [onComplete] from index [i] on: saves each clip with
    [sceneIndex: i] and pushes its description. *)
Fixpoint saveClips (h : Host) (videoId : Z) (i : Z) (results : list ClipResult)
    (st : MemStorage.t) (clips : list ClipInfo) : MemStorage.t * list ClipInfo :=
  match results with
  | [] => (st, clips)
  | clip :: rest =>
      let clipData :=
        {| ic_videoId := videoId;
           ic_filename := path_basename h (cr_filePath clip);
           ic_filePath := cr_filePath clip;
           ic_thumbnailPath := cr_thumbnailPath clip;
           ic_startTime := cr_startTime clip;
           ic_endTime := cr_endTime clip;
           ic_duration := Js.sub (cr_endTime clip) (cr_startTime clip);
           ic_sceneIndex := i |} in
      let '(savedClip, st') := MemStorage.createClip clipData st in
      saveClips h videoId (i + 1) rest st' (clips ++ [clipInfo_of savedClip])%list
  end.

(** The [catch] of [onComplete]: the storage it leaves and the status it
    broadcasts.  When [updateVideoStatus] throws in turn the promise is
    rejected and nothing is sent. *)
Definition onComplete_catch (videoId : Z) (st : MemStorage.t)
  : MemStorage.t * option ProcessingStatus :=
  match MemStorage.updateVideoStatus videoId "error" st with
  | inr (_, st') => (st', Some (error_status "Failed to save clip data"))
  | inl _ => (st, None)
  end.

(** The body of [onComplete]: the storage it leaves and the status it
    broadcasts. *)
Definition onComplete_body (h : Host) (videoId : Z) (results : ProcessResults)
    (st : MemStorage.t) : MemStorage.t * option ProcessingStatus :=
  let '(st1, clips) := saveClips h videoId 0 (pr_clips results) st [] in
  match MemStorage.updateVideo videoId
          {| patch_duration := Some (formatDuration (pr_duration results));
             patch_format := Some (pr_format results);
             patch_resolution := Some (pr_resolution results);
             patch_processingStatus := Some "completed" |} st1 with
  | inl _ => onComplete_catch videoId st1
  | inr (_, st2) =>
      match MemStorage.getVideoInfo videoId st2 with
      | inl _ => onComplete_catch videoId st2
      | inr videoInfo =>
          (st2, Some (completed_status clips
                        (with_sceneCount videoInfo (Z.of_nat (length clips)))))
      end
  end.

Definition onComplete (h : Host) (videoId : Z) (results : ProcessResults) (s : Server)
  : Server :=
  let '(st', sent) := onComplete_body h videoId results (storage s) in
  match sent with
  | Some status => broadcast videoId status (with_storage st' s)
  | None => with_storage st' s
  end.

(** [onError] *)
Definition onError (videoId : Z) (message : string) (s : Server) : Server :=
  match MemStorage.updateVideoStatus videoId "error" (storage s) with
  | inr (_, st') => broadcast videoId (error_status message) (with_storage st' s)
  | inl _ => s
  end.

Definition fire (h : Host) (videoId : Z) (call : Callback) (s : Server) : Server :=
  match call with
  | OnProgress progress stage => onProgress videoId progress stage s
  | OnComplete results => onComplete h videoId results s
  | OnError message => onError videoId message s
  end.

Fixpoint fire_all (h : Host) (videoId : Z) (calls : list Callback) (s : Server)
  : Server :=
  match calls with
  | [] => s
  | call :: more => fire_all h videoId more (fire h videoId call s)
  end.

Record StatusResponse := mkStatusResponse {
  sr_status : string;
  sr_progress : Z;
  sr_clips : list ClipInfo;
  sr_videoInfo : VideoInfo
}.

Inductive Response : Type :=
| Message (code : Z) (message : string)
| StatusBody (body : StatusResponse).

(** Where the clips and thumbnails go: [clipsDir], [thumbnailsDir]. *)
Record Dirs := mkDirs {
  clipsDir : string;
  thumbnailsDir : string
}.

(** [POST /api/videos/:id/process].  The route does not wait for
    [processVideo]: it answers once the run has made its first call, and the
    other calls of the run are left pending. *)
Definition handle_process (h : Host) (d : Dirs) (idParam : string) (s : Server)
  : Response * Server :=
  match Js.parseInt idParam with
  | None => (Message 400 "Invalid video ID", s)
  | Some videoId =>
      match MemStorage.getVideo videoId (storage s) with
      | None => (Message 404 "Video not found", s)
      | Some video =>
          match MemStorage.updateVideoStatus videoId "processing" (storage s) with
          | inl _ => (Message 500 "Error starting processing", s)
          | inr (_, st') =>
              let options := {| outputDir := clipsDir d; thumbnailDir := thumbnailsDir d;
                                threshold := None |} in
              let later := processVideo_async h video options in
              let s1 := fire_all h videoId processVideo_sync (with_storage st' s) in
              (Message 200 "Processing started",
               {| storage := storage s1;
                  clients := clients s1;
                  runs := (runs s1 ++
                           [{| run_videoId := videoId;
                               fired := processVideo_sync;
                               pending := later |}])%list |})
          end
      end
  end.

(** [GET /api/videos/:id/status] *)
Definition handle_status (idParam : string) (s : Server) : Response :=
  match Js.parseInt idParam with
  | None => Message 400 "Invalid video ID"
  | Some videoId =>
      match MemStorage.getVideo videoId (storage s) with
      | None => Message 404 "Video not found"
      | Some video =>
          let clips := MemStorage.getClipsByVideo videoId (storage s) in
          let formattedClips := List.map clipInfo_of clips in
          match MemStorage.getVideoInfo videoId (storage s) with
          | inl _ => Message 500 "Error getting status"
          | inr videoInfo =>
              StatusBody
                {| sr_status := video_processingStatus video;
                   sr_progress :=
                     if String.eqb (video_processingStatus video) "completed"
                     then 100 else 0;
                   sr_clips := formattedClips;
                   sr_videoInfo := with_sceneCount videoInfo (Z.of_nat (length clips)) |}
          end
      end
  end.

(** The next callback of the [k]-th run fires. *)
Definition advance (h : Host) (k : nat) (s : Server) : Server :=
  match runs s !! k with
  | Some r =>
      match pending r with
      | call :: more =>
          let s' := fire h (run_videoId r) call s in
          {| storage := storage s';
             clients := clients s';
             runs := <[k := {| run_videoId := run_videoId r;
                               fired := (fired r ++ [call])%list;
                               pending := more |}]> (runs s') |}
      | [] => s
      end
  | None => s
  end.

(** What can happen to the server, one event at a time. *)
Inductive Event : Type :=
| Upload (filename originalname path : string) (size : Z)
| Connect (watching : option Z)
| Close (k : nat)
| Process (idParam : string)
| Advance (k : nat).

Definition close (client : WsClient) : WsClient :=
  {| readyState := 2; inbox := inbox client; watching := watching client |}.

Definition apply_event (h : Host) (d : Dirs) (e : Event) (s : Server) : Server :=
  match e with
  | Upload filename originalname path size =>
      let videoData :=
        {| iv_filename := filename; iv_originalFilename := originalname;
           iv_filePath := path; iv_fileSize := size; iv_processingStatus := "pending" |} in
      with_storage (snd (MemStorage.createVideo videoData (storage s))) s
  | Connect w =>
      {| storage := storage s;
         clients := (clients s ++ [{| readyState := OPEN; inbox := []; watching := w |}])%list;
         runs := runs s |}
  | Close k =>
      {| storage := storage s;
         clients := match clients s !! k with
                    | Some c => <[k := close c]> (clients s)
                    | None => clients s
                    end;
         runs := runs s |}
  | Process idParam => snd (handle_process h d idParam s)
  | Advance k => advance h k s
  end.

Fixpoint apply_events (h : Host) (d : Dirs) (es : list Event) (s : Server) : Server :=
  match es with
  | [] => s
  | e :: more => apply_events h d more (apply_event h d e s)
  end.

Definition initial : Server :=
  {| storage := MemStorage.empty; clients := []; runs := [] |}.

(** A run is over once its last callback has fired. *)
Definition active (r : Run) : bool :=
  match pending r with
  | [] => false
  | _ :: _ => true
  end.

Definition active_runs (videoId : Z) (s : Server) : list Run :=
  List.filter (fun r => (run_videoId r =? videoId) && active r) (runs s).

End Routes.

(* ===================================================================== *)
(** * The vocabulary of the design document *)
(* ===================================================================== *)

Module Design.
Import VideoProcessor Routes.

(** The phases a progress event can belong to.  The code has no phase field;
    an event carries a stage label, and the phase is read off the label. *)
Inductive Phase : Type := Probing | Detecting | Extracting | Completed.

Definition phase_rank (p : Phase) : Z :=
  match p with
  | Probing => 1
  | Detecting => 2
  | Extracting => 3
  | Completed => 4
  end.

Definition phase_le (p q : Phase) : Prop := phase_rank p <= phase_rank q.

Definition phase_of_stage (stage : string) : option Phase :=
  if String.eqb stage "Analyzing video..." then Some Probing
  else if String.eqb stage "Detecting scenes..." then Some Detecting
  else if String.prefix "Extracting clip" stage then Some Extracting
  else if String.eqb stage "Processing complete" then Some Completed
  else None.

(** The progress events of a run: its [onProgress] calls, in order. *)
Fixpoint progress_events (calls : list Callback) : list (Z * string) :=
  match calls with
  | [] => []
  | OnProgress progress stage :: more => (progress, stage) :: progress_events more
  | _ :: more => progress_events more
  end.

Definition percentages (calls : list Callback) : list Z :=
  List.map fst (progress_events calls).

Definition stages (calls : list Callback) : list string :=
  List.map snd (progress_events calls).

(** The label of the event that follows the extraction of one clip, as
    against the label ["Extracting clips..."] that opens the phase. *)
Definition is_clip_stage (stage : string) : bool := String.prefix "Extracting clip " stage.

Definition per_candidate_events (calls : list Callback) : list (Z * string) :=
  List.filter (fun e => is_clip_stage (snd e)) (progress_events calls).

(** The result handed to [onComplete], if the run got there: [onComplete]
    is the last call of a run that completes, [onError] of one that fails. *)
Definition completion (calls : list Callback) : option ProcessResults :=
  match last calls with
  | Some (OnComplete results) => Some results
  | _ => None
  end.

Definition failure (calls : list Callback) : option string :=
  match last calls with
  | Some (OnError message) => Some message
  | _ => None
  end.

(** Candidate scenes: each boundary with the next one, the last with the
    probed duration. *)
Fixpoint candidates {A : Type} (duration : A) (scenes : list A) : list (A * A) :=
  match scenes with
  | [] => []
  | scene :: rest =>
      (scene, match rest with next :: _ => next | [] => duration end)
        :: candidates duration rest
  end.

Definition candidate_duration (c : Js.number * Js.number) : Js.number :=
  Js.sub (snd c) (fst c).

(** The minimum-duration rule: a candidate under 500 ms is discarded, the
    others are retained (a duration that is [NaN] is not under 500). *)
Definition discarded (c : Js.number * Js.number) : bool :=
  Js.ltb (candidate_duration c) (Js.Fin 500).
Definition retained (c : Js.number * Js.number) : bool := negb (discarded c).

(** The raw indices ([i], [i+1], ...) of the retained candidates. *)
Fixpoint retained_indices (i : Z) (cs : list (Js.number * Js.number)) : list Z :=
  match cs with
  | [] => []
  | c :: rest =>
      if retained c then i :: retained_indices (i + 1) rest
      else retained_indices (i + 1) rest
  end.

Definition time_range (c : ClipResult) : Js.number * Js.number :=
  (cr_startTime c, cr_endTime c).

Definition clip_range (c : ClipInfo) : Js.number * Js.number :=
  (ci_startTime c, ci_endTime c).

(** A range of time between two finite instants. *)
Definition finite_range (c : Z * Z) : Js.number * Js.number :=
  (Js.Fin (fst c), Js.Fin (snd c)).

(** The progress event that follows the extraction of candidate [i] of [n]. *)
Definition clip_event (n i : Z) : Z * string := (clipProgress i n, clipStage i n).

(** The progress events of a run that completes on [scenes]. *)
Definition schedule (duration : Js.number) (scenes : list Js.number)
  : list (Z * string) :=
  let n := Z.of_nat (length scenes) in
  ([(5, "Analyzing video..."); (15, "Detecting scenes..."); (30, "Extracting clips...")]
   ++ List.map (clip_event n) (retained_indices 0 (candidates duration scenes))
   ++ [(100, "Processing complete")])%list.

(** The phases of a schedule: probing, detecting, extracting throughout the
    loop, completed. *)
Definition schedule_phases (duration : Js.number) (scenes : list Js.number)
  : list Phase :=
  ([Probing; Detecting; Extracting]
   ++ List.map (fun _ => Extracting) (retained_indices 0 (candidates duration scenes))
   ++ [Completed])%list.

(** What a run has reported last. *)
Definition current_progress (r : Run) : option Z := last (percentages (fired r)).
Definition current_stage (r : Run) : option string := last (stages (fired r)).

Definition strictly_increasing (l : list Js.number) : Prop := Sorted Js.lt l.

(** All the pairs [0 <= i < n <= bound], for the comparison of
    [clipProgress] with its binary64 evaluation. *)
Definition index_pairs (bound : Z) : list (Z * Z) :=
  n ← seqZ 1 bound; i ← seqZ 0 n; [(i, n)].

Definition clipProgress_agrees (p : Z * Z) : bool :=
  match clipProgress_f64 (fst p) (snd p) with
  | Some q => q =? clipProgress (fst p) (snd p)
  | None => false
  end.

End Design.

(* ===================================================================== *)
(** * Concrete machines and requests *)
(* ===================================================================== *)

Module Scenario.
Import VideoProcessor Routes.

Definition nl : string := String newline EmptyString.

(** A [showinfo] line of ffmpeg's log for a frame shown at [t] seconds. *)
Definition showinfo (t : string) : string :=
  "[Parsed_showinfo_1 @ 0x5581] n:   0 pts:  60060 pts_time:" +:+ t +:+
  " duration:   1001 fmt:yuv420p".

Fixpoint log_of (times : list string) : string :=
  match times with
  | [] => "frame=  300 fps=0.0 q=-0.0 Lsize=N/A time=00:00:10.00 speed= 150x"
  | t :: more => showinfo t +:+ nl +:+ log_of more
  end.

(** [path.parse(f).name] for a plain file name: without its last extension *)
Fixpoint drop_extension (f : string) : string * bool :=
  match f with
  | EmptyString => (EmptyString, false)
  | String c rest =>
      let '(kept, found) := drop_extension rest in
      if found : bool then (String c kept, true)
      else if Js.is_dot c then (EmptyString, true)
      else (String c kept, false)
  end.

(** [path.basename(p)]: what follows the last slash *)
Fixpoint basename_from (current p : string) : string :=
  match p with
  | EmptyString => current
  | String c rest =>
      if Ascii.eqb c "/" then basename_from rest rest
      else basename_from current rest
  end.

(** What follows the first occurrence of [marker] in [s]. *)
Fixpoint text_after (marker s : string) : option string :=
  match Js.strip_prefix marker s with
  | Some tl => Some tl
  | None =>
      match s with
      | String _ rest => text_after marker rest
      | EmptyString => None
      end
  end.

(** The head of [s] up to the first of the bytes [stops]. *)
Fixpoint upto (stops : list ascii) (s : string) : string :=
  match s with
  | String c rest =>
      if existsb (Ascii.eqb c) stops then EmptyString else String c (upto stops rest)
  | EmptyString => EmptyString
  end.

Definition quote : ascii := ascii_of_N 34.
Definition dq : string := String quote EmptyString.

(** The report that [ffprobe -of json] prints for a 1280 x 720 H.264 stream
    of [duration] seconds. *)
Definition report (duration : string) : string :=
  "{" +:+ dq +:+ "streams" +:+ dq +:+ ":[{" +:+ dq +:+ "codec_name" +:+ dq +:+ ":"
  +:+ dq +:+ "h264" +:+ dq +:+ "," +:+ dq +:+ "width" +:+ dq +:+ ":1280,"
  +:+ dq +:+ "height" +:+ dq +:+ ":720}]," +:+ dq +:+ "format" +:+ dq +:+ ":{"
  +:+ dq +:+ "duration" +:+ dq +:+ ":" +:+ dq +:+ duration +:+ dq +:+ "}}".

(** Reading such a report: the number after a key, the string after a key. *)
Definition number_field (key s : string) : option string :=
  match text_after (dq +:+ key +:+ dq +:+ ":") s with
  | Some tl => Some (upto ["," ; "}"]%char tl)
  | None => None
  end.

Definition string_field (key s : string) : option string :=
  match text_after (dq +:+ key +:+ dq +:+ ":" +:+ dq) s with
  | Some tl => Some (upto [quote] tl)
  | None => None
  end.

Definition read_report (stdout : string) : option ProbeReport :=
  match number_field "width" stdout, number_field "height" stdout,
        string_field "codec_name" stdout, string_field "duration" stdout with
  | Some w, Some h, Some codec, Some duration =>
      Some {| rp_width := w; rp_height := h; rp_codec := codec; rp_duration := duration |}
  | _, _, _, _ => None
  end.

(** [toUpperCase] on a text of ASCII letters *)
Fixpoint upper (s : string) : string :=
  match s with
  | String c rest =>
      let n := N_of_ascii c in
      String (if (N.leb 97 n && N.leb n 122)%bool then ascii_of_N (n - 32) else c)
             (upper rest)
  | EmptyString => EmptyString
  end.

(** A machine on which every tool succeeds: [ffprobe] reports [duration]
    seconds and the scene scan logs the frames at [times]; its engine sorts
    by insertion. *)
Definition host (duration : string) (times : list string) : Host :=
  {| ffprobe := fun _ => ExecDone (report duration) "";
     VideoProcessor.read_report := read_report;
     toUpperCase := upper;
     ffmpeg_scene := fun _ _ => ExecDone "" (log_of times);
     array_sort := Js.sort_ascending;
     ffmpeg_clip := fun _ _ _ _ => None;
     ffmpeg_frame := fun _ _ _ => None;
     path_parse_name := fun f => fst (drop_extension f);
     path_join := fun dir f => dir +:+ "/" +:+ f;
     path_basename := fun p => basename_from p p |}.

Definition dirs : Dirs := {| clipsDir := "uploads/clips"; thumbnailsDir := "uploads/thumbnails" |}.

Definition options : ProcessOptions :=
  {| outputDir := "uploads/clips"; thumbnailDir := "uploads/thumbnails"; threshold := None |}.

Definition video : Video :=
  {| video_id := 1;
     video_filename := "a1b2.mp4";
     video_originalFilename := "holiday.mp4";
     video_filePath := "uploads/a1b2.mp4";
     video_fileSize := 1048576;
     video_duration := None;
     video_format := None;
     video_resolution := None;
     video_processingStatus := "pending" |}.

Definition upload : Event := Upload "a1b2.mp4" "holiday.mp4" "uploads/a1b2.mp4" 1048576.

(** The scenario of the design document: 10 s of video, cuts at 2 s, 2.3 s
    and 7 s. *)
Definition host_cuts : Host := host "10.000000" ["2"; "2.3"; "7"].

(** A source in which the scan finds no cut at all. *)
Definition host_no_cut : Host := host "10.000000" [].

(** Two cuts reported within the same millisecond. *)
Definition host_twins : Host := host "10.000000" ["2.0001"; "2.0004"].

Definition info : MediaInfo :=
  {| mi_duration := Js.Fin 10000; mi_format := "H264"; mi_resolution := "1280 × 720" |}.

(** The clip cut from raw candidate [i] (counted from 1) of [video]. *)
Definition clip_of (i : string) (startTime endTime : Z) : ClipResult :=
  {| cr_filePath := "uploads/clips/a1b2_scene_" +:+ i +:+ ".mp4";
     cr_thumbnailPath := "uploads/thumbnails/a1b2_scene_" +:+ i +:+ ".jpg";
     cr_startTime := Js.Fin startTime;
     cr_endTime := Js.Fin endTime |}.

Definition results_of (clips : list ClipResult) : ProcessResults :=
  {| pr_clips := clips; pr_duration := Js.Fin 10000; pr_format := "H264";
     pr_resolution := "1280 × 720" |}.

(** What [processVideo] does on [host_cuts]: *)
Definition run_cuts : list Callback :=
  [OnProgress 5 "Analyzing video...";
   OnProgress 15 "Detecting scenes...";
   OnProgress 30 "Extracting clips...";
   OnProgress 45 "Extracting clip 1 of 4...";
   OnProgress 75 "Extracting clip 3 of 4...";
   OnProgress 90 "Extracting clip 4 of 4...";
   OnProgress 100 "Processing complete";
   OnComplete (results_of [clip_of "1" 0 2000; clip_of "3" 2300 7000;
                           clip_of "4" 7000 10000])].

(** and on [host_no_cut]: *)
Definition run_no_cut : list Callback :=
  [OnProgress 5 "Analyzing video...";
   OnProgress 15 "Detecting scenes...";
   OnProgress 30 "Extracting clips...";
   OnProgress 90 "Extracting clip 1 of 1...";
   OnProgress 100 "Processing complete";
   OnComplete (results_of [clip_of "1" 0 10000])].

(** The store once [video] has been uploaded. *)
Definition store : MemStorage.t :=
  snd (MemStorage.createVideo
         {| iv_filename := "a1b2.mp4"; iv_originalFilename := "holiday.mp4";
            iv_filePath := "uploads/a1b2.mp4"; iv_fileSize := 1048576;
            iv_processingStatus := "pending" |}
         MemStorage.empty).

(** The server after a list of events, on [host_cuts]. *)
Definition after (events : list Event) : Server :=
  apply_events host_cuts dirs events initial.

(** One video uploaded, one page connected and watching it, processing
    requested once; *)
Definition started : Server := after [upload; Connect (Some 1); Process "1"].

(** the run advanced up to the start of extraction; *)
Definition extracting : Server :=
  after [upload; Connect (Some 1); Process "1"; Advance 0; Advance 0].

(** or processing requested a second time instead. *)
Definition started_twice : Server :=
  after [upload; Connect (Some 1); Process "1"; Process "1"].

(** What [processVideo] still has to do once [run_cuts] has made its first,
    synchronous call. *)
Definition later_cuts : list Callback := tail run_cuts.

(** Two pages: one open and watching video 2, one closing. *)
Definition two_pages : list WsClient :=
  [{| readyState := 1; inbox := []; watching := Some 2 |};
   {| readyState := 2; inbox := []; watching := Some 1 |}].

End Scenario.

(* ===================================================================== *)
(** * server/routes.ts: serving the clips *)
(* ===================================================================== *)

Module ClipRoutes.
Import VideoProcessor Routes.

(** What the clip routes ask of the file system and of Node's [path]. *)
Record Disk := mkDisk {
  existsSync : string -> bool;
  path_extname : string -> string
}.

Inductive Reply : Type :=
| Refuse (code : Z) (message : string)
| SendFile (path : string)
| Download (path name : string).

(** [GET /api/clips/:id/thumbnail] *)
Definition handle_thumbnail (disk : Disk) (idParam : string) (s : Server) : Reply :=
  match Js.parseInt idParam with
  | None => Refuse 400 "Invalid clip ID"
  | Some clipId =>
      match MemStorage.getClip clipId (storage s) with
      | None => Refuse 404 "Clip not found"
      | Some clip =>
          let thumbnailPath := clip_thumbnailPath clip in
          if existsSync disk thumbnailPath then SendFile thumbnailPath
          else Refuse 404 "Thumbnail not found"
      end
  end.

(** [${originalName}_scene_${clip.sceneIndex + 1}${extension}] *)
Definition downloadName (h : Host) (disk : Disk) (video : Video) (clip : Clip) : string :=
  let originalName := path_parse_name h (video_originalFilename video) in
  let extension := path_extname disk (clip_filename clip) in
  originalName +:+ "_scene_" +:+ pretty (clip_sceneIndex clip + 1) +:+ extension.

(** [GET /api/clips/:id/download] *)
Definition handle_download (h : Host) (disk : Disk) (idParam : string) (s : Server)
  : Reply :=
  match Js.parseInt idParam with
  | None => Refuse 400 "Invalid clip ID"
  | Some clipId =>
      match MemStorage.getClip clipId (storage s) with
      | None => Refuse 404 "Clip not found"
      | Some clip =>
          let filePath := clip_filePath clip in
          if existsSync disk filePath then
            match MemStorage.getVideo (clip_videoId clip) (storage s) with
            | None => Refuse 404 "Video not found"
            | Some video => Download filePath (downloadName h disk video clip)
            end
          else Refuse 404 "Clip file not found"
      end
  end.

(** [POST /api/videos/upload], once multer has stored the file (or found
    none): the reply, [inl] a refusal or [inr] the new video's
    [{ id, filename, originalFilename }]. *)
Record UploadedFile := mkFile {
  file_filename : string;
  file_originalname : string;
  file_path : string;
  file_size : Z
}.

Definition handle_upload (file : option UploadedFile) (s : Server)
  : (Z * string + Z * string * string) * Server :=
  match file with
  | None => (inl (400, "No file uploaded"), s)
  | Some f =>
      let videoData :=
        {| iv_filename := file_filename f; iv_originalFilename := file_originalname f;
           iv_filePath := file_path f; iv_fileSize := file_size f;
           iv_processingStatus := "pending" |} in
      let '(newVideo, st') := MemStorage.createVideo videoData (storage s) in
      (inr (video_id newVideo, video_filename newVideo, video_originalFilename newVideo),
       with_storage st' s)
  end.

(** [GET /api/videos/:id/download-clips]: the refusal, or the name of the
    attachment and the entries handed to the archive, each a file with the
    name it gets, in order. *)
Definition handle_download_clips (h : Host) (disk : Disk) (idParam : string) (s : Server)
  : Z * string + string * list (string * string) :=
  match Js.parseInt idParam with
  | None => inl (400, "Invalid video ID")
  | Some videoId =>
      match MemStorage.getVideo videoId (storage s) with
      | None => inl (404, "Video not found")
      | Some video =>
          let clips := MemStorage.getClipsByVideo videoId (storage s) in
          if (length clips =? 0)%nat then inl (404, "No clips found for this video")
          else
            inr (path_parse_name h (video_originalFilename video) +:+ "_scenes.zip",
                 List.map (fun clip =>
                             (clip_filePath clip, downloadName h disk video clip))
                          clips)
      end
  end.

End ClipRoutes.

(* ===================================================================== *)
(** * client: the page that watches a video *)
(* ===================================================================== *)

Module Page.
Import Routes.

(** [formatDuration] of ClipsPreviewCard: minutes and seconds, whatever the
    length *)
Definition formatDuration (ms : Z) : string :=
  let totalSeconds := ms / 1000 in
  let minutes := totalSeconds / 60 in
  let seconds := Z.rem totalSeconds 60 in
  Js.pad2 minutes +:+ ":" +:+ Js.pad2 seconds.

(** A clip as the page reads it from a message: [JSON.stringify] has
    printed its numbers, and a [NaN] or an infinity as [null] ([None]). *)
Record ReceivedClip := mkReceivedClip {
  rc_id : Z;
  rc_videoId : Z;
  rc_sceneIndex : Z;
  rc_startTime : option Z;
  rc_endTime : option Z;
  rc_duration : option Z;
  rc_timestamp : string;
  rc_url : string;
  rc_thumbnailUrl : string
}.

Definition received (c : ClipInfo) : ReceivedClip :=
  {| rc_id := ci_id c;
     rc_videoId := ci_videoId c;
     rc_sceneIndex := ci_sceneIndex c;
     rc_startTime := Js.json (ci_startTime c);
     rc_endTime := Js.json (ci_endTime c);
     rc_duration := Js.json (ci_duration c);
     rc_timestamp := ci_timestamp c;
     rc_url := ci_url c;
     rc_thumbnailUrl := ci_thumbnailUrl c |}.

(** The state of Home that the socket feeds: [processingStatus], [clips] and
    [videoInfo]. *)
Record State := mkState {
  pg_status : string;
  pg_progress : Z;
  pg_stage : string;
  pg_error : option string;
  pg_clips : list ReceivedClip;
  pg_videoInfo : option VideoInfo
}.

(** [useState] initial values *)
Definition initial : State :=
  {| pg_status := "pending"; pg_progress := 0; pg_stage := "idle"; pg_error := None;
     pg_clips := []; pg_videoInfo := None |}.

(** [a || b] on strings: the empty string is falsy *)
Definition or_else (a : option string) (b : string) : string :=
  match a with
  | Some (String c rest) => String c rest
  | _ => b
  end.

(** The body of [ws.onmessage] for a page whose [uploadedVideoId] is
    [watching client]; [data] is the object that the server has sent, which
    the page reads back with [JSON.parse]. *)
Definition onmessage (client : WsClient) (data : Payload) (st : State) : State :=
  if page_accepts client data then
    {| pg_status := or_else (Some (p_status data)) (pg_status st);
       pg_progress := match p_progress data with Some p => p | None => pg_progress st end;
       pg_stage := or_else (p_stage data) (pg_stage st);
       pg_error := p_error data;
       pg_clips := match p_clips data with
                   | Some (c :: more) => List.map received (c :: more)
                   | _ => pg_clips st
                   end;
       pg_videoInfo := match p_videoInfo data with
                       | Some v => Some v
                       | None => pg_videoInfo st
                       end |}
  else st.

(** The messages of the socket, handled in the order of arrival. *)
Definition receive (client : WsClient) (messages : list Payload) (st : State) : State :=
  fold_left (fun acc data => onmessage client data acc) messages st.

End Page.

(* ===================================================================== *)
(** * Invariants of the store and of the server *)
(* ===================================================================== *)

Module Invariant.
Import VideoProcessor Routes.

(** A store as [MemStorage] builds it: every video sits under its own id,
    ids come from the counters (which start at 1), and the clips appear in
    the order of their ids. *)
Definition store_wf (st : MemStorage.t) : Prop :=
  (forall id v, MemStorage.videos st !! id = Some v ->
                video_id v = id /\ 1 <= id < MemStorage.videoId st)
  /\ 1 <= MemStorage.videoId st
  /\ 1 <= MemStorage.clipId st
  /\ Forall (fun c => 1 <= clip_id c < MemStorage.clipId st) (MemStorage.clips st)
  /\ StronglySorted Z.lt (List.map clip_id (MemStorage.clips st)).

(** What an update never touches. *)
Definition same_file (v v' : Video) : Prop :=
  video_id v' = video_id v
  /\ video_filename v' = video_filename v
  /\ video_originalFilename v' = video_originalFilename v
  /\ video_filePath v' = video_filePath v
  /\ video_fileSize v' = video_fileSize v.

(** The options with which the process route calls [processVideo]. *)
Definition route_options (d : Dirs) : ProcessOptions :=
  {| outputDir := clipsDir d; thumbnailDir := thumbnailsDir d; threshold := None |}.

(** A run of the server replays a call of [processVideo] on a stored video. *)
Definition run_ok (h : Host) (d : Dirs) (st : MemStorage.t) (r : Run) : Prop :=
  is_Some (MemStorage.videos st !! run_videoId r)
  /\ exists video,
       video_id video = run_videoId r
       /\ processVideo h video (route_options d) = (fired r ++ pending r)%list.

Definition server_ok (h : Host) (d : Dirs) (s : Server) : Prop :=
  store_wf (storage s)
  /\ Forall (run_ok h d (storage s)) (runs s)
  /\ Forall (fun c => is_Some (MemStorage.videos (storage s) !! clip_videoId c))
            (MemStorage.clips (storage s)).

Definition progress_call (e : Z * string) : Callback := OnProgress (fst e) (snd e).

Definition progress_payloads (videoId : Z) (events : list (Z * string)) : list Payload :=
  List.map (fun e => payload_of videoId (processing_status (fst e) (snd e))) events.

(** What a socket holds once [messages] have been broadcast. *)
Definition deliver (messages : list Payload) (client : WsClient) : WsClient :=
  if readyState client =? 1 then
    {| readyState := readyState client;
       inbox := (inbox client ++ messages)%list;
       watching := watching client |}
  else client.

(** The patch with which [onComplete] closes a run. *)
Definition completed_patch (results : ProcessResults) : VideoPatch :=
  {| patch_duration := Some (formatDuration (pr_duration results));
     patch_format := Some (pr_format results);
     patch_resolution := Some (pr_resolution results);
     patch_processingStatus := Some "completed" |}.

Definition status_patch (status : string) : VideoPatch :=
  {| patch_duration := None; patch_format := None; patch_resolution := None;
     patch_processingStatus := Some status |}.

Definition by_sceneIndex (a b : Clip) : Prop := clip_sceneIndex a <= clip_sceneIndex b.

(** Clips that follow one another without overlap. *)
Definition before (a b : Z * Z) : Prop := snd a <= fst b.

End Invariant.

(* ===================================================================== *)
(** * More machines and runs *)
(* ===================================================================== *)

Module Cases.
Import VideoProcessor Routes.

(** As [Scenario.host_cuts], but ffmpeg fails on the clip that starts at
    2300 ms. *)
Definition host_clip_fails : Host :=
  {| ffprobe := ffprobe Scenario.host_cuts;
     ffmpeg_scene := ffmpeg_scene Scenario.host_cuts;
     read_report := read_report Scenario.host_cuts;
     toUpperCase := toUpperCase Scenario.host_cuts;
     array_sort := array_sort Scenario.host_cuts;
     ffmpeg_clip := fun _ _ startTime _ =>
       match startTime with
       | Js.Fin 2300 => Some "Command failed: ffmpeg"
       | _ => None
       end;
     ffmpeg_frame := ffmpeg_frame Scenario.host_cuts;
     path_parse_name := path_parse_name Scenario.host_cuts;
     path_join := path_join Scenario.host_cuts;
     path_basename := path_basename Scenario.host_cuts |}.

(** What [processVideo] does there: the first clip is extracted, the second
    candidate is skipped, the third fails. *)
Definition run_clip_fails : list Callback :=
  [OnProgress 5 "Analyzing video...";
   OnProgress 15 "Detecting scenes...";
   OnProgress 30 "Extracting clips...";
   OnProgress 45 "Extracting clip 1 of 4...";
   OnError "Failed to extract clip: Command failed: ffmpeg"].

(** The events that lead to a server having run video 1 to its end on
    [Scenario.host_cuts]. *)
Definition whole_run : list Event :=
  [Scenario.upload; Connect (Some 1); Process "1";
   Advance 0; Advance 0; Advance 0; Advance 0; Advance 0; Advance 0; Advance 0].

Definition finished : Server := Scenario.after whole_run.

(** The three clips that this run stores. *)
Definition stored_clip (id sceneIndex : Z) (raw : string) (startTime endTime : Z) : Clip :=
  {| clip_id := id;
     clip_videoId := 1;
     clip_filename := "a1b2_scene_" +:+ raw +:+ ".mp4";
     clip_filePath := "uploads/clips/a1b2_scene_" +:+ raw +:+ ".mp4";
     clip_thumbnailPath := "uploads/thumbnails/a1b2_scene_" +:+ raw +:+ ".jpg";
     clip_startTime := Js.Fin startTime;
     clip_endTime := Js.Fin endTime;
     clip_duration := Js.Fin (endTime - startTime);
     clip_sceneIndex := sceneIndex |}.

Definition stored_clips : list Clip :=
  [stored_clip 1 0 "1" 0 2000; stored_clip 2 1 "3" 2300 7000;
   stored_clip 3 2 "4" 7000 10000].

(** A disk on which every file exists; [path.extname] of a name with one
    dot. *)
Fixpoint extname (f : string) : string :=
  match f with
  | EmptyString => EmptyString
  | String c rest => if Js.is_dot c then f else extname rest
  end.

Definition disk : ClipRoutes.Disk :=
  {| ClipRoutes.existsSync := fun _ => true; ClipRoutes.path_extname := extname |}.

End Cases.

(* ===================================================================== *)
(** * Properties *)
(* ===================================================================== *)

Import VideoProcessor Routes Design ClipRoutes Invariant.

(** ** Numbers: the timestamps read from the log are never negative *)

Section Binary64.

Lemma binary_round_aux_nonneg mx ex lx :
  Js.nonneg_float (binary_round_aux 53 1024 false mx ex lx).
Proof.
  unfold binary_round_aux.
  destruct (shr_fexp 53 1024 mx ex lx) as [mrs e'].
  destruct (shr_fexp 53 1024 _ e' loc_Exact) as [mrs' e''].
  destruct (shr_m mrs'); simpl; trivial.
  destruct (_ <=? _); simpl; trivial.
Qed.

Lemma f64_div_nonneg mx ex my ey :
  Js.nonneg_float (Js.f64_div (S754_finite false mx ex) (S754_finite false my ey)).
Proof.
  unfold Js.f64_div, SFdiv.
  destruct (SFdiv_core_binary 53 1024 _ _ _ _) as [[mz ez] lz].
  apply binary_round_aux_nonneg.
Qed.

Lemma f64_of_scaled_nonneg m k : Js.nonneg_float (Js.f64_of_scaled false m k).
Proof.
  unfold Js.f64_of_scaled. destruct m; simpl; trivial.
  destruct (0 <=? k); apply f64_div_nonneg.
Qed.

Lemma f64_mul_nonneg x m e :
  Js.nonneg_float x -> Js.nonneg_float (Js.f64_mul x (S754_finite false m e)).
Proof.
  destruct x as [s | s | | s mx ex]; simpl; trivial.
  - intros ->. reflexivity.
  - intros ->. apply binary_round_aux_nonneg.
Qed.

Lemma math_floor_nonneg x : Js.nonneg_float x -> Js.nonneg (Js.math_floor x).
Proof.
  destruct x as [s | s | | s m e]; simpl; intros Hs; trivial.
  - lia.
  - subst s. apply Z.shiftl_nonneg. lia.
Qed.

End Binary64.

(** ** Scene detection: reading the log *)

Lemma strip_prefix_app p s tl : Js.strip_prefix p s = Some tl -> s = p +:+ tl.
Proof.
  revert s. induction p as [| a p IH]; intros s; simpl.
  - intros [= <-]. reflexivity.
  - destruct s as [| b s]; [discriminate |].
    destruct (Ascii.eqb_spec a b) as [<- | _]; [| discriminate].
    intros Htl. rewrite (IH s Htl). reflexivity.
Qed.

Lemma capture_split s :
  exists post,
    s = capture s +:+ post
    /\ match post with
       | String c _ => is_capture_char c = false
       | EmptyString => True
       end.
Proof.
  induction s as [| c s (post & Hs & Hpost)]; cbn [capture].
  - exists EmptyString. auto.
  - destruct (is_capture_char c) eqn:Hc.
    + exists post. split; [| exact Hpost]. rewrite Hs at 1. reflexivity.
    + exists (String c s). auto.
Qed.

Lemma capture_chars s :
  Forall (fun c => is_capture_char c = true) (list_ascii_of_string (capture s)).
Proof.
  induction s as [| c s IH]; cbn [capture]; [constructor |].
  destruct (is_capture_char c) eqn:Hc; cbn [list_ascii_of_string];
    [constructor; assumption | constructor].
Qed.

(** A captured text begins with a digit or a dot: *)
Lemma match_pts_time_head line cap :
  match_pts_time line = Some cap ->
  exists c rest, cap = String c rest /\ is_capture_char c = true.
Proof.
  induction line as [| a rest IH]; [discriminate |].
  cbn [match_pts_time].
  destruct (Js.strip_prefix "pts_time:" (String a rest)) as [tl |]; [| exact IH].
  pose proof (capture_chars tl) as Hchars.
  destruct (capture tl) as [| c cap']; [exact IH |].
  intros [= <-]. apply Forall_inv in Hchars. eauto.
Qed.

(** so [parseFloat] finds no white space and no sign in it, *)
Lemma capture_head_plain c rest :
  is_capture_char c = true ->
  Js.split_sign (Js.skip_spaces (String c rest)) = (false, String c rest)
  /\ Js.strip_prefix "Infinity" (String c rest) = None.
Proof.
  destruct c as [[] [] [] [] [] [] [] []]; intros H; try discriminate H;
    (split; [| reflexivity]);
    (destruct rest as [| d [| e rest3]]; reflexivity).
Qed.

(** and what it reads there is not below zero. *)
Lemma ms_of_capture_nonneg line cap :
  match_pts_time line = Some cap -> Js.nonneg (Js.ms_of cap).
Proof.
  intros (c & rest & -> & Hc)%match_pts_time_head.
  apply math_floor_nonneg, f64_mul_nonneg. unfold Js.parseFloat.
  destruct (capture_head_plain c rest Hc) as [-> ->].
  destruct (Js.span_digits (String c rest)) as [ip r1].
  destruct (match r1 with
            | String c0 r => if Js.is_dot c0 then Js.span_digits r else (EmptyString, r1)
            | EmptyString => (EmptyString, r1)
            end) as [fp r2].
  destruct ip, fp; simpl; trivial; apply f64_of_scaled_nonneg.
Qed.

Lemma pushed_timestamps_nonneg lines : Forall Js.nonneg (pushed_timestamps lines).
Proof.
  induction lines as [| line more IH]; simpl; [constructor |].
  destruct (match_pts_time line) as [cap |] eqn:Hcap; [| exact IH].
  constructor; [eapply ms_of_capture_nonneg, Hcap | exact IH].
Qed.

(** ** Scene detection: sorting the boundaries *)

Lemma insert_sorted_perm x l : Js.insert_sorted x l ≡ₚ x :: l.
Proof.
  induction l as [| y l IH]; simpl; [reflexivity |].
  destruct (Js.comes_before y x); [| reflexivity].
  rewrite IH. apply Permutation_swap.
Qed.

Lemma sort_ascending_perm l : Js.sort_ascending l ≡ₚ l.
Proof.
  induction l as [| x l IH]; simpl; [reflexivity |].
  rewrite insert_sorted_perm, IH. reflexivity.
Qed.

(** Whatever the engine, sorting rearranges the array. *)
Lemma sort_scenes_perm h l : sort_scenes h l ≡ₚ l.
Proof.
  unfold sort_scenes. destruct (existsb Js.is_nan l).
  - destruct (decide (array_sort h l ≡ₚ l)) as [Hperm |]; [exact Hperm | reflexivity].
  - apply sort_ascending_perm.
Qed.

Lemma comes_before_false_le x y :
  Js.is_nan x = false -> Js.is_nan y = false ->
  Js.comes_before y x = false -> Js.le x y.
Proof.
  unfold Js.comes_before.
  destruct x as [a | | [|]], y as [b | | [|]]; simpl; try discriminate; auto.
  intros _ _ H. apply Z.ltb_ge in H. lia.
Qed.

Lemma comes_before_true_le x y :
  Js.comes_before y x = true -> Js.le y x.
Proof.
  unfold Js.comes_before.
  destruct x as [a | | [|]], y as [b | | [|]]; simpl; try discriminate; auto.
  intros H. apply Z.ltb_lt in H. lia.
Qed.

Lemma le_trans x y z : Js.le x y -> Js.le y z -> Js.le x z.
Proof.
  destruct x as [a | | [|]], y as [b | | [|]], z as [c | | [|]]; simpl;
    try tauto; try discriminate; try lia; intuition discriminate.
Qed.

Lemma insert_sorted_sorted x l :
  Js.is_nan x = false -> Forall (fun y => Js.is_nan y = false) l ->
  StronglySorted Js.le l -> StronglySorted Js.le (Js.insert_sorted x l).
Proof.
  intros Hx Hl Hsorted.
  induction Hsorted as [| y l Hsorted IH Hy]; simpl; [repeat constructor |].
  apply Forall_cons in Hl as [Hynan Hl].
  destruct (Js.comes_before y x) eqn:Hcmp.
  - constructor; [apply IH, Hl |].
    rewrite insert_sorted_perm. constructor; [| exact Hy].
    apply comes_before_true_le, Hcmp.
  - pose proof (comes_before_false_le x y Hx Hynan Hcmp) as Hle.
    constructor; [constructor; assumption |].
    constructor; [exact Hle |].
    eapply Forall_impl; [exact Hy |]. intros z. apply le_trans, Hle.
Qed.

(** Without [NaN] the comparison is consistent and the array comes out in
    ascending order. *)
Lemma sort_ascending_sorted l :
  Forall (fun y => Js.is_nan y = false) l -> StronglySorted Js.le (Js.sort_ascending l).
Proof.
  induction 1 as [| x l Hx Hl IH]; simpl; [constructor |].
  apply insert_sorted_sorted; [exact Hx | | exact IH].
  fold (Js.sort_ascending l). rewrite sort_ascending_perm. exact Hl.
Qed.

Lemma not_nan_elem (l : list Js.number) :
  Js.NaN ∉ l <-> Forall (fun y => Js.is_nan y = false) l.
Proof.
  rewrite Forall_forall. split.
  - intros Hnot y Hy. destruct y; try reflexivity. contradiction.
  - intros Hall Hin. specialize (Hall _ Hin). discriminate.
Qed.

Lemma existsb_is_nan (l : list Js.number) :
  existsb Js.is_nan l = false <-> Js.NaN ∉ l.
Proof.
  rewrite not_nan_elem. induction l as [| x l IH]; simpl.
  - split; [constructor | reflexivity].
  - rewrite orb_false_iff, IH, Forall_cons. reflexivity.
Qed.

(** The array that [detectScenes] resolves with rearranges [0] and the
    pushed timestamps. *)
Lemma detectScenes_resolved h filePath thr scenes :
  detectScenes h filePath thr = Resolved scenes ->
  exists out err,
    ffmpeg_scene h filePath thr = ExecDone out err
    /\ scenes = sort_scenes h (Js.Fin 0 :: pushed_timestamps (Js.split_on newline err)).
Proof.
  unfold detectScenes. destruct (ffmpeg_scene h filePath thr) as [msg | out err];
    [discriminate |].
  intros [= <-]. eauto.
Qed.

(** It is never empty: the guard [scenes.length === 0] of [processVideo]
    cannot fire. *)
Lemma detectScenes_nonempty h filePath thr scenes :
  detectScenes h filePath thr = Resolved scenes -> scenes <> [].
Proof.
  intros (out & err & _ & ->)%detectScenes_resolved Hnil.
  pose proof (sort_scenes_perm h (Js.Fin 0 :: pushed_timestamps (Js.split_on newline err)))
    as Hperm.
  rewrite Hnil in Hperm. apply Permutation_nil_l in Hperm. discriminate.
Qed.

Lemma sorted_head_zero (l pushed : list Js.number) :
  StronglySorted Js.le l -> l ≡ₚ Js.Fin 0 :: pushed -> Forall Js.nonneg pushed ->
  head l = Some (Js.Fin 0).
Proof.
  intros Hs Hperm Hpos.
  destruct l as [| x l'].
  - apply Permutation_nil_l in Hperm. discriminate.
  - simpl. f_equal.
    apply StronglySorted_inv in Hs as [_ Hle].
    assert (Hx : Js.nonneg x).
    { assert (x ∈ Js.Fin 0 :: pushed) as [-> | Hin]%elem_of_cons
        by (rewrite <- Hperm; apply elem_of_cons; auto).
      - simpl. lia.
      - rewrite Forall_forall in Hpos. auto. }
    assert (H0 : Js.Fin 0 ∈ x :: l') by (rewrite Hperm; apply elem_of_cons; auto).
    apply elem_of_cons in H0 as [<- | Hin]; [reflexivity |].
    rewrite Forall_forall in Hle. specialize (Hle _ Hin).
    destruct x as [z | | [|]]; simpl in *; try discriminate; try contradiction.
    f_equal. lia.
Qed.

(** An ascending array of two or more numbers holds no [NaN]: [NaN] is
    neither below nor above its neighbour. *)
Lemma sorted_without_nan (l : list Js.number) :
  Sorted Js.le l -> (2 <= length l)%nat -> Js.NaN ∉ l.
Proof.
  induction 1 as [| x l Hsorted IH Hrel]; [simpl; lia |].
  destruct l as [| y l]; [simpl; lia |].
  intros _ Hin. apply HdRel_inv in Hrel.
  apply elem_of_cons in Hin as [<- | Hin]; [exact Hrel |].
  destruct l as [| z l].
  - apply list_elem_of_singleton in Hin as <-. destruct x; exact Hrel.
  - apply IH; [simpl; lia | exact Hin].
Qed.

(** C8 (as the code has it).  Whenever ffmpeg exits without an error,
    [detectScenes] resolves, with an array that rearranges the boundary 0
    and the timestamps read from the log, one for each line that has one.
    When that array holds no [NaN] it is in ascending order and starts with
    the boundary 0; when it holds one it is not in ascending order,
    whatever the engine does.  (Equal neighbours are not excluded: see
    [detectScenes_not_strict]; an array that stays as the log has it: see
    [detectScenes_nan_unsorted].) *)
Theorem detectScenes_sorted_from_zero h filePath thr out err :
  ffmpeg_scene h filePath thr = ExecDone out err ->
  exists scenes,
    detectScenes h filePath thr = Resolved scenes
    /\ scenes ≡ₚ Js.Fin 0 :: pushed_timestamps (Js.split_on newline err)
    /\ (Js.NaN ∉ scenes -> Sorted Js.le scenes /\ head scenes = Some (Js.Fin 0))
    /\ (Js.NaN ∈ scenes -> ~ Sorted Js.le scenes).
Proof.
  intros Hscan. unfold detectScenes. rewrite Hscan.
  set (pushed := pushed_timestamps (Js.split_on newline err)).
  eexists. split; [reflexivity |]. split; [apply sort_scenes_perm |].
  split.
  2: { intros Hin Hsorted.
       apply (sorted_without_nan _ Hsorted); [| exact Hin].
       rewrite (sort_scenes_perm h) in Hin |- *.
       apply elem_of_cons in Hin as [Hin | Hin]; [discriminate Hin |].
       destruct pushed; [inversion Hin | simpl; lia]. }
  intros Hnan.
  assert (Hnone : Js.NaN ∉ Js.Fin 0 :: pushed)
    by (rewrite <- (sort_scenes_perm h); exact Hnan).
  assert (Hs : StronglySorted Js.le (sort_scenes h (Js.Fin 0 :: pushed))).
  { unfold sort_scenes. rewrite (proj2 (existsb_is_nan _) Hnone).
    apply sort_ascending_sorted, not_nan_elem, Hnone. }
  split; [apply StronglySorted_Sorted, Hs |].
  eapply sorted_head_zero; [exact Hs | apply sort_scenes_perm |].
  apply pushed_timestamps_nonneg.
Qed.

Lemma detectScenes_sorted_from_zero_witness :
  exists scenes,
    detectScenes Scenario.host_cuts "uploads/a1b2.mp4" SCENE_THRESHOLD = Resolved scenes
    /\ scenes ≡ₚ Js.Fin 0 :: pushed_timestamps
                               (Js.split_on newline (Scenario.log_of ["2"; "2.3"; "7"]))
    /\ Sorted Js.le scenes /\ head scenes = Some (Js.Fin 0).
Proof.
  destruct (detectScenes_sorted_from_zero Scenario.host_cuts "uploads/a1b2.mp4"
              SCENE_THRESHOLD "" (Scenario.log_of ["2"; "2.3"; "7"]))
    as (scenes & Hresolved & Hperm & Hsorted & _); [reflexivity |].
  exists scenes. split; [exact Hresolved |]. split; [exact Hperm |].
  apply Hsorted. vm_compute in Hresolved. injection Hresolved as <-.
  intros Hin. repeat (apply elem_of_cons in Hin as [Hin | Hin]; [discriminate Hin |]).
  inversion Hin.
Defined.

Lemma detectScenes_cuts :
  detectScenes Scenario.host_cuts "uploads/a1b2.mp4" SCENE_THRESHOLD
  = Resolved [Js.Fin 0; Js.Fin 2000; Js.Fin 2300; Js.Fin 7000].
Proof. vm_compute. reflexivity. Qed.

(** C8 as stated fails: two cuts that the log reports within one
    millisecond (at 2.0001 s and 2.0004 s) both become the boundary 2000, and
    the resolved array [0; 2000; 2000] is not strictly increasing. *)
Lemma detectScenes_not_strict :
  ~ (forall h filePath thr scenes,
       detectScenes h filePath thr = Resolved scenes ->
       strictly_increasing scenes /\ head scenes = Some (Js.Fin 0)).
Proof.
  intros Hclaim.
  destruct (Hclaim Scenario.host_twins "uploads/a1b2.mp4" SCENE_THRESHOLD
              [Js.Fin 0; Js.Fin 2000; Js.Fin 2000])
    as [Hstrict _]; [vm_compute; reflexivity |].
  unfold strictly_increasing in Hstrict.
  apply Sorted_inv in Hstrict as [Htail _].
  apply Sorted_inv in Htail as [_ Hrel].
  apply HdRel_inv in Hrel. discriminate Hrel.
Qed.

(** Nor is the array always sorted: a log line that reads [pts_time:.]
    pushes [NaN], and on an engine that sorts by insertion the boundaries
    5 s, NaN, 2 s stay as the log has them. *)
Lemma detectScenes_nan_unsorted :
  detectScenes (Scenario.host "10.000000" ["5"; "."; "2"]) "uploads/a1b2.mp4"
    SCENE_THRESHOLD
  = Resolved [Js.Fin 0; Js.Fin 5000; Js.NaN; Js.Fin 2000]
  /\ ~ Sorted Js.le [Js.Fin 0; Js.Fin 5000; Js.NaN; Js.Fin 2000].
Proof.
  split; [vm_compute; reflexivity |].
  intros Hsorted.
  apply Sorted_inv in Hsorted as [Htail _].
  apply Sorted_inv in Htail as [_ Hrel].
  apply HdRel_inv in Hrel. exact Hrel.
Qed.

(** ** The extraction loop *)

Section ExtractLoop.

Variables (h : Host) (video : Video) (options : ProcessOptions).
Variables (duration : Js.number) (totalScenes : Z).

Let loop := extractLoop h video options duration totalScenes.

Lemma progress_events_app (a b : list Callback) :
  progress_events (a ++ b) = (progress_events a ++ progress_events b)%list.
Proof.
  induction a as [| c a IH]; simpl; [reflexivity |].
  destruct c; simpl; rewrite IH; reflexivity.
Qed.

(** The loop reports after the retained candidates only, in the order of
    their raw indices, and stops reporting at the first failed extraction. *)
Lemma extractLoop_progress_prefix scenes i acc :
  progress_events (fst (loop i scenes acc))
    `prefix_of` List.map (clip_event totalScenes)
                  (retained_indices i (candidates duration scenes)).
Proof.
  subst loop. revert i acc.
  induction scenes as [| scene rest IH]; intros i acc; simpl.
  - apply prefix_nil.
  - unfold retained, discarded, candidate_duration; simpl.
    destruct (Js.ltb (Js.sub (match rest with [] => duration | next :: _ => next end) scene)
                     (Js.Fin 500)); simpl.
    + apply IH.
    +
      destruct (extractClip _ _ _ _ _) as [e |]; [apply prefix_nil |].
      destruct (generateThumbnail _ _ _ _) as [e |]; [apply prefix_nil |].
      destruct (extractLoop _ _ _ _ _ (i + 1) rest _) as [calls outcome] eqn:Hrec.
      simpl. apply prefix_cons.
      match type of Hrec with
      | extractLoop _ _ _ _ _ _ _ ?acc' = _ => specialize (IH (i + 1) acc')
      end.
      rewrite Hrec in IH. exact IH.
Qed.

(** When no extraction fails it reports after every retained candidate, and
    the clips it returns are the retained candidates, in order. *)
Lemma extractLoop_complete scenes i acc clipResults :
  snd (loop i scenes acc) = inr clipResults ->
  progress_events (fst (loop i scenes acc))
    = List.map (clip_event totalScenes) (retained_indices i (candidates duration scenes))
  /\ fst (loop i scenes acc)
    = List.map (fun j => OnProgress (clipProgress j totalScenes) (clipStage j totalScenes))
        (retained_indices i (candidates duration scenes))
  /\ List.map time_range clipResults
    = (List.map time_range acc ++ List.filter retained (candidates duration scenes))%list.
Proof.
  subst loop. revert i acc.
  induction scenes as [| scene rest IH]; intros i acc; simpl.
  - intros [= <-]. rewrite app_nil_r. auto.
  - unfold retained, discarded, candidate_duration; simpl.
    destruct (Js.ltb (Js.sub (match rest with [] => duration | next :: _ => next end) scene)
                     (Js.Fin 500)); simpl.
    + apply IH.
    +
      destruct (extractClip _ _ _ _ _) as [e |]; [discriminate |].
      destruct (generateThumbnail _ _ _ _) as [e |]; [discriminate |].
      destruct (extractLoop _ _ _ _ _ (i + 1) rest _) as [calls outcome] eqn:Hrec.
      simpl. intros ->.
      match type of Hrec with
      | extractLoop _ _ _ _ _ _ _ ?acc' = _ => specialize (IH (i + 1) acc')
      end.
      rewrite Hrec in IH. destruct (IH eq_refl) as (Hev & Hcalls & Hclips).
      simpl in Hev, Hcalls. rewrite Hev, Hcalls, Hclips.
      rewrite map_app, <- app_assoc. auto.
Qed.

(** With tools that never fail the loop runs to its end. *)
Lemma extractLoop_succeeds scenes i acc :
  (forall input output startTime endTime,
      ffmpeg_clip h input output startTime endTime = None) ->
  (forall input output t, ffmpeg_frame h input output t = None) ->
  exists clipResults, snd (loop i scenes acc) = inr clipResults.
Proof.
  intros Hclip Hframe. subst loop. revert i acc.
  induction scenes as [| scene rest IH]; intros i acc; simpl.
  - eauto.
  - destruct (Js.ltb _ _); [apply IH |].
    unfold extractClip, generateThumbnail. rewrite Hclip, Hframe. simpl.
    match goal with
    | |- context [extractLoop _ _ _ _ _ (i + 1) rest ?acc'] =>
        destruct (IH (i + 1) acc') as [clips Hclips];
        destruct (extractLoop h video options duration totalScenes (i + 1) rest acc')
          as [calls outcome]
    end.
    simpl in *. eauto.
Qed.

End ExtractLoop.

(** ** The schedule of progress events *)

Lemma clipProgress_bounds n i : 0 <= i < n -> 30 <= clipProgress i n <= 90.
Proof.
  intros Hi. unfold clipProgress.
  assert (0 <= 60 * (i + 1) / n) by (apply Z.div_pos; lia).
  assert (60 * (i + 1) / n <= 60) by (apply Z.div_le_upper_bound; nia).
  lia.
Qed.

Lemma clipProgress_mono n i j : 0 < n -> i < j -> clipProgress i n <= clipProgress j n.
Proof.
  intros Hn Hij. unfold clipProgress.
  apply Z.add_le_mono_l, Z.div_le_mono; lia.
Qed.

Lemma candidates_length {A} (duration : A) (scenes : list A) :
  length (candidates duration scenes) = length scenes.
Proof. induction scenes as [| s rest IH]; simpl; congruence. Qed.

Lemma retained_indices_range i cs :
  Forall (fun j => i <= j < i + Z.of_nat (length cs)) (retained_indices i cs).
Proof.
  revert i. induction cs as [| c rest IH]; intros i; simpl; [constructor |].
  assert (Htl : Forall (fun j => i <= j < i + Z.of_nat (S (length rest)))
                       (retained_indices (i + 1) rest)).
  { eapply Forall_impl; [apply IH |]. simpl. intros j Hj. lia. }
  destruct (retained c); [constructor; [lia | exact Htl] | exact Htl].
Qed.

Lemma retained_indices_sorted i cs : StronglySorted Z.lt (retained_indices i cs).
Proof.
  revert i. induction cs as [| c rest IH]; intros i; simpl; [constructor |].
  destruct (retained c); [| apply IH].
  constructor; [apply IH |].
  eapply Forall_impl; [apply (retained_indices_range (i + 1) rest) |].
  simpl. intros j Hj. lia.
Qed.

Lemma retained_indices_length i cs :
  length (retained_indices i cs) = length (List.filter retained cs).
Proof.
  revert i. induction cs as [| c rest IH]; intros i; simpl; [reflexivity |].
  destruct (retained c); simpl; rewrite IH; reflexivity.
Qed.

Lemma phase_of_clipStage i n : phase_of_stage (clipStage i n) = Some Extracting.
Proof. reflexivity. Qed.

Lemma is_clip_stage_clipStage i n : is_clip_stage (clipStage i n) = true.
Proof.
  unfold is_clip_stage, clipStage. simpl.
  destruct (pretty (i + 1) +:+ _); reflexivity.
Qed.

Lemma StronglySorted_prefix {A} (R : relation A) (l1 l2 : list A) :
  l1 `prefix_of` l2 -> StronglySorted R l2 -> StronglySorted R l1.
Proof. intros [k ->]. apply StronglySorted_app_1_l. Qed.

(** The percentages of a schedule never decrease. *)
Lemma schedule_percentages_sorted duration scenes :
  scenes <> [] -> StronglySorted Z.le (List.map fst (schedule duration scenes)).
Proof.
  intros Hne. unfold schedule.
  set (n := Z.of_nat (length scenes)).
  set (js := retained_indices 0 (candidates duration scenes)).
  assert (Hn : 0 < n) by (subst n; destruct scenes; [congruence | simpl; lia]).
  assert (Hrange : Forall (fun j => 0 <= j < n) js).
  { subst js n. rewrite <- (candidates_length duration scenes).
    apply (retained_indices_range 0). }
  assert (Hmid : Forall (fun p => 30 <= p <= 90) (List.map (fun i => clipProgress i n) js)).
  { apply Forall_fmap. eapply Forall_impl; [exact Hrange |].
    intros j Hj. simpl. apply clipProgress_bounds; exact Hj. }
  assert (Hsorted : StronglySorted Z.le (List.map (fun i => clipProgress i n) js)).
  { apply StronglySorted_fmap with (R1 := Z.lt);
      [intros; apply clipProgress_mono; assumption | apply retained_indices_sorted]. }
  rewrite !map_app, map_map. simpl.
  rewrite Forall_forall in Hmid.
  repeat (apply SSorted_cons;
          [| apply Forall_forall; intros p Hp;
             repeat (apply elem_of_cons in Hp as [-> | Hp]; [lia |]);
             apply elem_of_app in Hp as [Hp | Hp];
             [apply Hmid in Hp; lia
             | apply list_elem_of_singleton in Hp as ->; lia ]]).
  apply StronglySorted_app_2; [| exact Hsorted | repeat constructor].
  intros p q Hp ->%list_elem_of_singleton. apply Hmid in Hp. lia.
Qed.

Lemma schedule_stage_phases duration scenes :
  List.map phase_of_stage (List.map snd (schedule duration scenes))
    = List.map Some (schedule_phases duration scenes).
Proof.
  unfold schedule, schedule_phases.
  rewrite !map_app, !map_map. simpl. do 3 f_equal.
Qed.

Lemma schedule_phases_sorted duration scenes :
  StronglySorted phase_le (schedule_phases duration scenes).
Proof.
  unfold schedule_phases.
  set (js := retained_indices 0 (candidates duration scenes)).
  assert (Hmid : forall p, p ∈ List.map (fun _ : Z => Extracting) js -> p = Extracting).
  { intros p (j & -> & _)%list_elem_of_fmap. reflexivity. }
  assert (Hloop : StronglySorted phase_le (List.map (fun _ : Z => Extracting) js)).
  { induction js as [| j js IH]; simpl; constructor.
    - apply IH. intros p Hp. apply Hmid. simpl. apply elem_of_cons. auto.
    - apply Forall_forall. intros p (k & -> & _)%list_elem_of_fmap.
      unfold phase_le. simpl. lia. }
  repeat (apply SSorted_cons;
          [| apply Forall_forall; intros p Hp;
             repeat (apply elem_of_cons in Hp as [-> | Hp]; [unfold phase_le; simpl; lia |]);
             apply elem_of_app in Hp as [Hp | Hp];
             [apply Hmid in Hp as ->; unfold phase_le; simpl; lia
             | apply list_elem_of_singleton in Hp as ->; unfold phase_le; simpl; lia ]]).
  apply StronglySorted_app_2; [| exact Hloop | repeat constructor].
  intros p q Hp ->%list_elem_of_singleton. apply Hmid in Hp as ->.
  unfold phase_le. simpl. lia.
Qed.

(** ** Runs of [processVideo] *)

Lemma completion_snoc calls call :
  completion (calls ++ [call]) = match call with OnComplete r => Some r | _ => None end.
Proof. unfold completion. rewrite last_snoc. reflexivity. Qed.

(** Once the boundaries are known, the progress events of a run are an
    initial segment of their schedule. *)
Lemma processVideo_progress_prefix_resolved h video options info scenes calls :
  getVideoInfo h (video_filePath video) = inr info ->
  detectScenes h (video_filePath video) (effective_threshold options) = Resolved scenes ->
  processVideo h video options = calls ->
  progress_events calls `prefix_of` schedule (mi_duration info) scenes.
Proof.
  intros Hprobe Hdetect.
  unfold processVideo, processVideo_async, processVideo_sync.
  rewrite Hprobe, Hdetect.
  pose proof (detectScenes_nonempty _ _ _ _ Hdetect) as Hne.
  destruct scenes as [| s0 rest]; [congruence |].
  set (scenes := s0 :: rest) in *.
  change (length scenes =? 0)%nat with false. cbv iota.
  pose proof (extractLoop_progress_prefix h video options (mi_duration info)
                (Z.of_nat (length scenes)) scenes 0 []) as Hpre.
  pose proof (extractLoop_complete h video options (mi_duration info)
                (Z.of_nat (length scenes)) scenes 0 []) as Hall.
  destruct (extractLoop h video options _ _ 0 scenes []) as [loop_calls outcome].
  simpl in Hpre, Hall. intros Hcalls.
  destruct outcome as [e | clipResults]; subst calls; simpl;
    rewrite progress_events_app; unfold schedule; simpl;
    do 3 apply prefix_cons.
  - simpl. rewrite app_nil_r. apply prefix_app_r, Hpre.
  - destruct (Hall clipResults eq_refl) as (-> & _ & _). simpl. reflexivity.
Qed.

(** Whatever the tools do, the progress events of a run are an initial
    segment of a schedule. *)
Lemma processVideo_progress_prefix h video options calls :
  processVideo h video options = calls ->
  exists duration scenes,
    scenes <> [] /\ progress_events calls `prefix_of` schedule duration scenes.
Proof.
  intros Hrun.
  destruct (getVideoInfo h (video_filePath video)) as [e | info] eqn:Hprobe.
  { exists (Js.Fin 0), [Js.Fin 0]. split; [discriminate |]. revert Hrun.
    unfold processVideo, processVideo_async. rewrite Hprobe. intros <-.
    simpl. apply prefix_cons, prefix_nil. }
  destruct (detectScenes h (video_filePath video) (effective_threshold options))
    as [scenes | e] eqn:Hdetect.
  - exists (mi_duration info), scenes.
    split; [eapply detectScenes_nonempty; eassumption |].
    eapply processVideo_progress_prefix_resolved; eassumption.
  - exists (Js.Fin 0), [Js.Fin 0]. split; [discriminate |]. revert Hrun.
    unfold processVideo, processVideo_async. rewrite Hprobe, Hdetect. intros <-.
    simpl. apply prefix_cons, prefix_cons, prefix_nil.
Qed.

(** A run that completes has gone through the whole schedule, and hands over
    the retained candidates as its clips. *)
Lemma processVideo_completed h video options info scenes calls results :
  getVideoInfo h (video_filePath video) = inr info ->
  detectScenes h (video_filePath video) (effective_threshold options) = Resolved scenes ->
  processVideo h video options = calls ->
  completion calls = Some results ->
  progress_events calls = schedule (mi_duration info) scenes
  /\ List.map time_range (pr_clips results)
     = List.filter retained (candidates (mi_duration info) scenes)
  /\ pr_duration results = mi_duration info.
Proof.
  intros Hprobe Hdetect.
  unfold processVideo, processVideo_async, processVideo_sync.
  rewrite Hprobe, Hdetect.
  pose proof (detectScenes_nonempty _ _ _ _ Hdetect) as Hne.
  destruct scenes as [| s0 rest]; [congruence |].
  set (scenes := s0 :: rest) in *.
  change (length scenes =? 0)%nat with false. cbv iota.
  pose proof (extractLoop_complete h video options (mi_duration info)
                (Z.of_nat (length scenes)) scenes 0 []) as Hall.
  destruct (extractLoop h video options _ _ 0 scenes []) as [loop_calls outcome].
  simpl in Hall.
  destruct outcome as [e | clipResults]; intros <-.
  - match goal with
    | |- completion ?l = _ -> _ =>
        replace l with
          (([OnProgress 5 "Analyzing video..."; OnProgress 15 "Detecting scenes...";
             OnProgress 30 "Extracting clips..."] ++ loop_calls)%list ++ [OnError e])%list
          by (simpl; rewrite <- ?app_assoc; reflexivity)
    end.
    rewrite completion_snoc. discriminate.
  - destruct (Hall clipResults eq_refl) as (Hev & _ & Hclips).
    match goal with
    | |- completion ?l = _ -> _ =>
        replace l with
          (([OnProgress 5 "Analyzing video..."; OnProgress 15 "Detecting scenes...";
             OnProgress 30 "Extracting clips..."] ++ loop_calls ++
            [OnProgress 100 "Processing complete"])%list ++
           [OnComplete {| pr_clips := clipResults; pr_duration := mi_duration info;
                          pr_format := mi_format info;
                          pr_resolution := mi_resolution info |}])%list
          by (simpl; rewrite <- !app_assoc; reflexivity)
    end.
    rewrite completion_snoc. intros [= <-]. simpl.
    rewrite !progress_events_app, Hev. simpl. rewrite app_nil_r.
    split; [reflexivity | split; [exact Hclips | reflexivity]].
Qed.

Lemma run_cuts_correct :
  processVideo Scenario.host_cuts Scenario.video Scenario.options = Scenario.run_cuts.
Proof. vm_compute. reflexivity. Qed.

Lemma run_no_cut_correct :
  processVideo Scenario.host_no_cut Scenario.video Scenario.options
    = Scenario.run_no_cut.
Proof. vm_compute. reflexivity. Qed.

(** C7.  In every run of [processVideo] the percentages of the successive
    progress events never decrease, and the phases of the successive events
    never go back: every later event belongs to the same or to a later
    phase than every earlier one. *)
Theorem progress_monotone_and_phase_ordered h video options calls :
  processVideo h video options = calls ->
  StronglySorted Z.le (percentages calls)
  /\ exists phases,
       List.map phase_of_stage (stages calls) = List.map Some phases
       /\ StronglySorted phase_le phases.
Proof.
  intros (duration & scenes & Hne & [rest Hsched])%processVideo_progress_prefix.
  split.
  - eapply StronglySorted_app_1_l with (l2 := List.map fst rest).
    unfold percentages. rewrite <- map_app, <- Hsched.
    apply schedule_percentages_sorted, Hne.
  - pose proof (schedule_stage_phases duration scenes) as Hph.
    rewrite Hsched, !map_app in Hph. symmetry in Hph.
    apply fmap_app_inv in Hph as (ps1 & ps2 & Hps1 & _ & Hsplit).
    exists ps1. split; [exact Hps1 |].
    pose proof (schedule_phases_sorted duration scenes) as Hsorted.
    rewrite Hsplit in Hsorted. eapply StronglySorted_app_1_l, Hsorted.
Qed.

Lemma progress_monotone_and_phase_ordered_witness :
  StronglySorted Z.le (percentages Scenario.run_cuts)
  /\ exists phases,
       List.map phase_of_stage (stages Scenario.run_cuts) = List.map Some phases
       /\ StronglySorted phase_le phases.
Proof.
  apply (progress_monotone_and_phase_ordered
           Scenario.host_cuts Scenario.video Scenario.options).
  vm_compute. reflexivity.
Defined.

Lemma percentages_schedule duration scenes :
  List.map fst (schedule duration scenes)
  = ([5; 15; 30]
     ++ List.map (fun i => 30 + 60 * (i + 1) / Z.of_nat (length scenes))
                 (retained_indices 0 (candidates duration scenes))
     ++ [100])%list.
Proof. unfold schedule. rewrite !map_app, map_map. reflexivity. Qed.

(** C3 (as the code has it).  The percentages of a run are 5, 15 and 30 on
    entering the three phases; then, after the extraction of the retained
    candidate at raw position [i+1] of [n], the percentage
    [30 + floor (60 (i+1) / n)], which is 90 at most: the loop shares out 60
    points, not 70; and 100 once, at completion.  A run that fails stops
    somewhere along this list. *)
Theorem progress_follows_schedule h video options info scenes calls :
  getVideoInfo h (video_filePath video) = inr info ->
  detectScenes h (video_filePath video) (effective_threshold options) = Resolved scenes ->
  processVideo h video options = calls ->
  let n := Z.of_nat (length scenes) in
  let kept := retained_indices 0 (candidates (mi_duration info) scenes) in
  let full := ([5; 15; 30] ++ List.map (fun i => 30 + 60 * (i + 1) / n) kept ++ [100])%list in
  percentages calls `prefix_of` full
  /\ (is_Some (completion calls) -> percentages calls = full)
  /\ Forall (fun i => 30 + 60 * (i + 1) / n <= 90) kept.
Proof.
  intros Hprobe Hdetect Hrun n kept full.
  assert (Hfull : full = List.map fst (schedule (mi_duration info) scenes))
    by (symmetry; apply percentages_schedule).
  split; [| split].
  - destruct (processVideo_progress_prefix_resolved _ _ _ _ _ _ Hprobe Hdetect Hrun)
      as [rest Hsched].
    exists (List.map fst rest). rewrite Hfull, Hsched, map_app. reflexivity.
  - intros [results Hdone].
    destruct (processVideo_completed _ _ _ _ _ _ _ Hprobe Hdetect Hrun Hdone) as (Hev & _).
    unfold percentages. rewrite Hev, Hfull. reflexivity.
  - eapply Forall_impl.
    + subst kept. apply (retained_indices_range 0).
    + intros i Hi. simpl in Hi. rewrite candidates_length in Hi.
      apply (clipProgress_bounds n i). subst n. lia.
Qed.

Lemma progress_follows_schedule_witness :
  percentages Scenario.run_cuts `prefix_of` [5; 15; 30; 45; 75; 90; 100]
  /\ (is_Some (completion Scenario.run_cuts) ->
      percentages Scenario.run_cuts = [5; 15; 30; 45; 75; 90; 100])
  /\ Forall (fun i => 30 + 60 * (i + 1) / 4 <= 90) [0; 2; 3].
Proof.
  apply (progress_follows_schedule Scenario.host_cuts Scenario.video Scenario.options
           Scenario.info [Js.Fin 0; Js.Fin 2000; Js.Fin 2300; Js.Fin 7000] Scenario.run_cuts);
    vm_compute; reflexivity.
Defined.

(** C3 as stated fails.  On a source without any cut the only candidate is
    the whole video; after it (candidate 1 of 1) the run reports 90, where a
    share of 70 points would give 30 + (1/1)*70 = 100.  The bounds below
    read the claimed value up to rounding. *)
Lemma progress_share_is_not_70 :
  ~ (forall h video options calls k n p,
       processVideo h video options = calls ->
       In (OnProgress p ("Extracting clip " +:+ pretty k +:+ " of " +:+ pretty n +:+ "..."))
          calls ->
       30 + 70 * k / n <= p <= 30 + (70 * k + n - 1) / n).
Proof.
  intros Hclaim.
  specialize (Hclaim Scenario.host_no_cut Scenario.video Scenario.options
                Scenario.run_no_cut 1 1 90 run_no_cut_correct).
  assert (Hin : In (OnProgress 90 "Extracting clip 1 of 1...") Scenario.run_no_cut)
    by (simpl; tauto).
  apply Hclaim in Hin. vm_compute in Hin. destruct Hin as [Hlow _]. apply Hlow. reflexivity.
Qed.

Lemma per_candidate_events_schedule duration scenes :
  List.filter (fun e => is_clip_stage (snd e)) (schedule duration scenes)
  = List.map (clip_event (Z.of_nat (length scenes)))
      (retained_indices 0 (candidates duration scenes)).
Proof.
  unfold schedule. simpl. rewrite List.filter_app. simpl. rewrite app_nil_r.
  induction (retained_indices 0 (candidates duration scenes)) as [| i js IH];
    [reflexivity |].
  cbn [List.map List.filter]. unfold clip_event at 1. cbn [snd].
  rewrite is_clip_stage_clipStage, IH. reflexivity.
Qed.

(** C4 (as the code has it).  In a run that completes, the loop emits one
    progress event per retained candidate and none for a discarded one (the
    [continue] skips the report): their number is the number of retained
    candidates, which is the number of clips handed to [onComplete]. *)
Theorem progress_event_per_retained_candidate h video options info scenes calls results :
  getVideoInfo h (video_filePath video) = inr info ->
  detectScenes h (video_filePath video) (effective_threshold options) = Resolved scenes ->
  processVideo h video options = calls ->
  completion calls = Some results ->
  let cs := candidates (mi_duration info) scenes in
  length (per_candidate_events calls) = length (List.filter retained cs)
  /\ length (pr_clips results) = length (List.filter retained cs)
  /\ List.map fst (per_candidate_events calls)
     = List.map (fun i => clipProgress i (Z.of_nat (length scenes))) (retained_indices 0 cs).
Proof.
  intros Hprobe Hdetect Hrun Hdone cs.
  destruct (processVideo_completed _ _ _ _ _ _ _ Hprobe Hdetect Hrun Hdone)
    as (Hev & Hclips & _).
  unfold per_candidate_events. rewrite Hev, per_candidate_events_schedule.
  fold cs. rewrite length_map, retained_indices_length, map_map.
  split; [reflexivity | split; [| reflexivity]].
  rewrite <- (length_map time_range), Hclips. reflexivity.
Qed.

Lemma progress_event_per_retained_candidate_witness :
  length (per_candidate_events Scenario.run_cuts) = 3%nat
  /\ length (pr_clips (Scenario.results_of
               [Scenario.clip_of "1" 0 2000; Scenario.clip_of "3" 2300 7000;
                Scenario.clip_of "4" 7000 10000])) = 3%nat
  /\ List.map fst (per_candidate_events Scenario.run_cuts) = [45; 75; 90].
Proof.
  apply (progress_event_per_retained_candidate
           Scenario.host_cuts Scenario.video Scenario.options
           Scenario.info [Js.Fin 0; Js.Fin 2000; Js.Fin 2300; Js.Fin 7000] Scenario.run_cuts);
    vm_compute; reflexivity.
Defined.

(** C4 as stated fails.  With boundaries 0, 2000, 2300, 7000 in 10 s of
    video, one candidate is discarded (300 ms) and three are retained; the
    loop emits three events, not four. *)
Lemma discarded_candidate_is_not_reported :
  ~ (forall h video options info scenes calls results,
       getVideoInfo h (video_filePath video) = inr info ->
       detectScenes h (video_filePath video) (effective_threshold options)
         = Resolved scenes ->
       processVideo h video options = calls ->
       completion calls = Some results ->
       let cs := candidates (mi_duration info) scenes in
       length (per_candidate_events calls)
       = (length (List.filter discarded cs) + length (List.filter retained cs))%nat).
Proof.
  intros Hclaim.
  specialize (Hclaim Scenario.host_cuts Scenario.video Scenario.options
                Scenario.info [Js.Fin 0; Js.Fin 2000; Js.Fin 2300; Js.Fin 7000] Scenario.run_cuts
                (Scenario.results_of
                   [Scenario.clip_of "1" 0 2000; Scenario.clip_of "3" 2300 7000;
                    Scenario.clip_of "4" 7000 10000])
                eq_refl eq_refl run_cuts_correct eq_refl).
  vm_compute in Hclaim. discriminate.
Qed.

(** ** Completion: saving the clips *)

Lemma saveClips_videos h vid i results st acc :
  MemStorage.videos (fst (saveClips h vid i results st acc)) = MemStorage.videos st.
Proof.
  revert i st acc. induction results as [| clip rest IH]; intros i st acc; simpl;
    [reflexivity |].
  rewrite IH. reflexivity.
Qed.

(** [onComplete] numbers the clips it is handed 0, 1, 2, ... and keeps their
    time ranges. *)
Lemma saveClips_clips h vid i results st acc :
  List.map ci_sceneIndex (snd (saveClips h vid i results st acc))
    = (List.map ci_sceneIndex acc ++ seqZ i (Z.of_nat (length results)))%list
  /\ List.map clip_range (snd (saveClips h vid i results st acc))
    = (List.map clip_range acc ++ List.map time_range results)%list.
Proof.
  revert i st acc. induction results as [| clip rest IH]; intros i st acc.
  - simpl. rewrite !app_nil_r. auto.
  - cbn [saveClips MemStorage.createClip].
    match goal with
    | |- context [saveClips h vid (i + 1) rest ?st' ?acc'] =>
        destruct (IH (i + 1) st' acc') as [Hidx Hrange]
    end.
    rewrite Hidx, Hrange, !map_app, <- !app_assoc. simpl.
    rewrite (seqZ_cons i) by lia.
    replace (Z.pred (Z.of_nat (S (length rest)))) with (Z.of_nat (length rest)) by lia.
    replace (Z.succ i) with (i + 1) by lia.
    split; reflexivity.
Qed.

(** The video being in the store, as the route has checked, [onComplete]
    broadcasts the completed status with the clips it has saved. *)
Lemma onComplete_body_completed h vid results st stored :
  MemStorage.getVideo vid st = Some stored ->
  exists st' videoInfo,
    onComplete_body h vid results st
    = (st', Some (completed_status (snd (saveClips h vid 0 (pr_clips results) st []))
                                   videoInfo)).
Proof.
  unfold MemStorage.getVideo, onComplete_body. intros Hstored.
  pose proof (saveClips_videos h vid 0 (pr_clips results) st []) as Hvideos.
  destruct (saveClips h vid 0 (pr_clips results) st []) as [st1 clips].
  simpl in Hvideos. unfold MemStorage.updateVideo.
  rewrite Hvideos, Hstored. simpl.
  unfold MemStorage.getVideoInfo. simpl. rewrite lookup_insert_eq. simpl.
  eauto.
Qed.

(** With tools that never fail, a run whose boundaries are known completes. *)
Lemma processVideo_completes h video options info scenes :
  getVideoInfo h (video_filePath video) = inr info ->
  detectScenes h (video_filePath video) (effective_threshold options) = Resolved scenes ->
  (forall input output startTime endTime,
      ffmpeg_clip h input output startTime endTime = None) ->
  (forall input output t, ffmpeg_frame h input output t = None) ->
  exists calls results,
    processVideo h video options = calls /\ completion calls = Some results.
Proof.
  intros Hprobe Hdetect Hclip Hframe.
  unfold processVideo, processVideo_async. rewrite Hprobe, Hdetect.
  pose proof (detectScenes_nonempty _ _ _ _ Hdetect) as Hne.
  destruct scenes as [| s0 rest]; [congruence |].
  set (scenes := s0 :: rest) in *.
  change (length scenes =? 0)%nat with false. cbv iota.
  destruct (extractLoop_succeeds h video options (mi_duration info)
              (Z.of_nat (length scenes)) scenes 0 [] Hclip Hframe) as [clips Hclips].
  destruct (extractLoop h video options _ _ 0 scenes []) as [loop_calls outcome].
  simpl in Hclips. subst outcome.
  eexists _, _. split; [reflexivity |].
  unfold processVideo_sync.
  match goal with
  | |- completion ?l = _ =>
      replace l with
        (([OnProgress 5 "Analyzing video..."; OnProgress 15 "Detecting scenes...";
           OnProgress 30 "Extracting clips..."] ++ loop_calls ++
          [OnProgress 100 "Processing complete"])%list ++
         [OnComplete {| pr_clips := clips; pr_duration := mi_duration info;
                        pr_format := mi_format info;
                        pr_resolution := mi_resolution info |}])%list
        by (simpl; rewrite <- !app_assoc; reflexivity)
  end.
  rewrite completion_snoc. reflexivity.
Qed.

(** C5.  Whatever boundaries were detected, when a run completes and its
    video is in the store, the clips of the completed status carry the scene
    indices 0, 1, ..., r-1, where r is the number of retained candidates:
    the candidates discarded for being under 500 ms leave no gap. *)
Theorem scene_indices_contiguous h video options info scenes calls results vid st stored :
  getVideoInfo h (video_filePath video) = inr info ->
  detectScenes h (video_filePath video) (effective_threshold options) = Resolved scenes ->
  processVideo h video options = calls ->
  completion calls = Some results ->
  MemStorage.getVideo vid st = Some stored ->
  exists st' clips videoInfo,
    onComplete_body h vid results st = (st', Some (completed_status clips videoInfo))
    /\ List.map ci_sceneIndex clips
       = seqZ 0 (Z.of_nat (length (List.filter retained
                                     (candidates (mi_duration info) scenes)))).
Proof.
  intros Hprobe Hdetect Hrun Hdone Hstored.
  destruct (processVideo_completed _ _ _ _ _ _ _ Hprobe Hdetect Hrun Hdone)
    as (_ & Hclips & _).
  destruct (onComplete_body_completed h vid results st stored Hstored)
    as (st' & videoInfo & Hbody).
  exists st', (snd (saveClips h vid 0 (pr_clips results) st [])), videoInfo.
  split; [exact Hbody |].
  destruct (saveClips_clips h vid 0 (pr_clips results) st []) as [Hidx _].
  rewrite Hidx, <- Hclips, length_map. reflexivity.
Qed.

Lemma scene_indices_contiguous_witness :
  exists st' clips videoInfo,
    onComplete_body Scenario.host_cuts 1
      (Scenario.results_of
         [Scenario.clip_of "1" 0 2000; Scenario.clip_of "3" 2300 7000;
          Scenario.clip_of "4" 7000 10000])
      Scenario.store
    = (st', Some (completed_status clips videoInfo))
    /\ List.map ci_sceneIndex clips = seqZ 0 3.
Proof.
  apply (scene_indices_contiguous Scenario.host_cuts Scenario.video Scenario.options
           Scenario.info [Js.Fin 0; Js.Fin 2000; Js.Fin 2300; Js.Fin 7000] Scenario.run_cuts _ 1 Scenario.store
           Scenario.video);
    vm_compute; reflexivity.
Defined.

(** C6.  The scenario of the design document.  The probed duration is
    10000 ms, the detected boundaries are 0, 2000, 2300, 7000 and no
    extraction fails.  The candidate durations are 2000, 300, 4700, 3000;
    the one candidate under 500 ms is discarded; the run completes with
    three clips over [0,2000), [2300,7000), [7000,10000), and the completed
    status numbers them 0, 1, 2. *)
Theorem scenario_three_clips h video options info vid st stored :
  getVideoInfo h (video_filePath video) = inr info ->
  mi_duration info = Js.Fin 10000 ->
  detectScenes h (video_filePath video) (effective_threshold options)
    = Resolved (List.map Js.Fin [0; 2000; 2300; 7000]) ->
  (forall input output startTime endTime,
      ffmpeg_clip h input output startTime endTime = None) ->
  (forall input output t, ffmpeg_frame h input output t = None) ->
  MemStorage.getVideo vid st = Some stored ->
  List.map candidate_duration
           (candidates (Js.Fin 10000) (List.map Js.Fin [0; 2000; 2300; 7000]))
    = List.map Js.Fin [2000; 300; 4700; 3000]
  /\ List.filter discarded
                 (candidates (Js.Fin 10000) (List.map Js.Fin [0; 2000; 2300; 7000]))
     = List.map finite_range [(2000, 2300)]
  /\ exists calls results st' clips videoInfo,
       processVideo h video options = calls
       /\ completion calls = Some results
       /\ List.map time_range (pr_clips results)
          = List.map finite_range [(0, 2000); (2300, 7000); (7000, 10000)]
       /\ onComplete_body h vid results st
          = (st', Some (completed_status clips videoInfo))
       /\ List.map ci_sceneIndex clips = [0; 1; 2]
       /\ List.map clip_range clips
          = List.map finite_range [(0, 2000); (2300, 7000); (7000, 10000)].
Proof.
  intros Hprobe Hduration Hdetect Hclip Hframe Hstored.
  split; [reflexivity | split; [reflexivity |]].
  destruct (processVideo_completes h video options info _ Hprobe Hdetect Hclip Hframe)
    as (calls & results & Hrun & Hdone).
  destruct (processVideo_completed _ _ _ _ _ _ _ Hprobe Hdetect Hrun Hdone)
    as (_ & Hranges & _).
  rewrite Hduration in Hranges.
  change (List.filter retained
            (candidates (Js.Fin 10000) (List.map Js.Fin [0; 2000; 2300; 7000])))
    with (List.map finite_range [(0, 2000); (2300, 7000); (7000, 10000)]) in Hranges.
  destruct (onComplete_body_completed h vid results st stored Hstored)
    as (st' & videoInfo & Hbody).
  destruct (saveClips_clips h vid 0 (pr_clips results) st []) as [Hidx Hclips].
  exists calls, results, st', (snd (saveClips h vid 0 (pr_clips results) st [])), videoInfo.
  repeat split; try assumption.
  - rewrite Hidx, <- (length_map time_range), Hranges. reflexivity.
  - rewrite Hclips, Hranges. reflexivity.
Qed.

Lemma scenario_three_clips_witness :
  List.map candidate_duration
           (candidates (Js.Fin 10000) (List.map Js.Fin [0; 2000; 2300; 7000]))
    = List.map Js.Fin [2000; 300; 4700; 3000]
  /\ List.filter discarded
                 (candidates (Js.Fin 10000) (List.map Js.Fin [0; 2000; 2300; 7000]))
     = List.map finite_range [(2000, 2300)]
  /\ exists calls results st' clips videoInfo,
       processVideo Scenario.host_cuts Scenario.video Scenario.options = calls
       /\ completion calls = Some results
       /\ List.map time_range (pr_clips results)
          = List.map finite_range [(0, 2000); (2300, 7000); (7000, 10000)]
       /\ onComplete_body Scenario.host_cuts 1 results Scenario.store
          = (st', Some (completed_status clips videoInfo))
       /\ List.map ci_sceneIndex clips = [0; 1; 2]
       /\ List.map clip_range clips
          = List.map finite_range [(0, 2000); (2300, 7000); (7000, 10000)].
Proof.
  apply (scenario_three_clips Scenario.host_cuts Scenario.video Scenario.options
           Scenario.info 1 Scenario.store Scenario.video);
    try (vm_compute; reflexivity); intros; reflexivity.
Defined.

(** ** A source without cuts *)

(** When the log reports no frame at all, the resolved array is [0] alone:
    there is one candidate, the whole video. *)
Lemma no_boundary_completes h video options info out err :
  getVideoInfo h (video_filePath video) = inr info ->
  ffmpeg_scene h (video_filePath video) (effective_threshold options) = ExecDone out err ->
  pushed_timestamps (Js.split_on newline err) = [] ->
  retained (Js.Fin 0, mi_duration info) = true ->
  (forall input output startTime endTime,
      ffmpeg_clip h input output startTime endTime = None) ->
  (forall input output t, ffmpeg_frame h input output t = None) ->
  exists calls results,
    processVideo h video options = calls
    /\ completion calls = Some results
    /\ List.map time_range (pr_clips results) = [(Js.Fin 0, mi_duration info)].
Proof.
  intros Hprobe Hscan Hpushed Hlong Hclip Hframe.
  assert (Hdetect : detectScenes h (video_filePath video) (effective_threshold options)
                    = Resolved [Js.Fin 0])
    by (unfold detectScenes; rewrite Hscan, Hpushed; reflexivity).
  destruct (processVideo_completes h video options info _ Hprobe Hdetect Hclip Hframe)
    as (calls & results & Hrun & Hdone).
  destruct (processVideo_completed _ _ _ _ _ _ _ Hprobe Hdetect Hrun Hdone)
    as (_ & Hranges & _).
  exists calls, results. repeat split; try assumption.
  rewrite Hranges. simpl. rewrite Hlong. reflexivity.
Qed.

(** C2 (what the code does).  On a 10 s source in whose log the scan reports
    no cut, [detectScenes] resolves with the single boundary 0, the guard on
    an empty array does not fire, and the run completes: its last call hands
    [onComplete] one clip that spans the whole video, and [onError] is never
    called. *)
Theorem no_cut_completes_with_whole_video :
  detectScenes Scenario.host_no_cut (video_filePath Scenario.video)
    (effective_threshold Scenario.options) = Resolved [Js.Fin 0]
  /\ processVideo Scenario.host_no_cut Scenario.video Scenario.options
     = Scenario.run_no_cut
  /\ completion Scenario.run_no_cut
     = Some (Scenario.results_of [Scenario.clip_of "1" 0 10000])
  /\ failure Scenario.run_no_cut = None.
Proof. repeat split; vm_compute; reflexivity. Qed.

(** ** The per-clip percentage in binary64 *)

Lemma elem_of_index_pairs bound i n :
  0 <= i < n -> n <= bound -> (i, n) ∈ index_pairs bound.
Proof.
  intros Hi Hn. unfold index_pairs.
  apply list_elem_of_bind. exists n. split; [| apply elem_of_seqZ; lia].
  apply list_elem_of_bind. exists i. split; [| apply elem_of_seqZ; lia].
  apply list_elem_of_singleton. reflexivity.
Qed.

(** For up to 128 boundaries, evaluating
    [Math.floor(((i + 1) / totalScenes) * 60)] with binary64 division and
    multiplication gives the integer quotient of [clipProgress]. *)
Lemma clipProgress_f64_agrees i n :
  0 <= i < n -> n <= 128 -> clipProgress_f64 i n = Some (clipProgress i n).
Proof.
  intros Hi Hn.
  assert (Hall : forallb clipProgress_agrees (index_pairs 128) = true)
    by (vm_compute; reflexivity).
  assert (Hin : In (i, n) (index_pairs 128))
    by (apply list_elem_of_In, elem_of_index_pairs; assumption).
  pose proof (proj1 (forallb_forall _ _) Hall (i, n) Hin) as Hagree.
  unfold clipProgress_agrees in Hagree. cbn [fst snd] in Hagree.
  destruct (clipProgress_f64 i n) as [q |]; [| discriminate].
  f_equal. apply Z.eqb_eq, Hagree.
Qed.

(** ** The status fan-out *)

Lemma broadcastStatus_length videoId status clients :
  length (broadcastStatus videoId status clients) = length clients.
Proof. induction clients as [| c cs IH]; simpl; congruence. Qed.

(** C10.  A published status reaches every member of [wss.clients] whose
    socket is open, whatever video its page is watching: the status, with
    the [videoId] key, is appended to what that socket has been sent.  A
    member whose socket is not open is left as it is.  The [videoId] of the
    payload is the identity published, the statuses that the routes build
    having no [videoId] key of their own. *)
Theorem broadcast_reaches_every_open_client videoId status (all : list WsClient)
    k client :
  all !! k = Some client ->
  broadcastStatus videoId status all !! k
    = Some (if readyState client =? 1
            then {| readyState := readyState client;
                    inbox := (inbox client ++ [payload_of videoId status])%list;
                    watching := watching client |}
            else client)
  /\ (ps_videoId status = None -> p_videoId (payload_of videoId status) = videoId).
Proof.
  intros Hk. split.
  - revert k Hk. induction all as [| c cs IH]; intros k Hk; [discriminate |].
    destruct k as [| k']; simpl in *.
    + injection Hk as ->. reflexivity.
    + apply IH, Hk.
  - unfold payload_of. simpl. intros ->. reflexivity.
Qed.

Lemma broadcast_reaches_every_open_client_witness :
  broadcastStatus 1 (processing_status 30 "Extracting clips...") Scenario.two_pages !! 0%nat
    = Some {| readyState := 1;
              inbox := [payload_of 1 (processing_status 30 "Extracting clips...")];
              watching := Some 2 |}
  /\ (ps_videoId (processing_status 30 "Extracting clips...") = None ->
      p_videoId (payload_of 1 (processing_status 30 "Extracting clips...")) = 1).
Proof.
  apply (broadcast_reaches_every_open_client 1
           (processing_status 30 "Extracting clips...") Scenario.two_pages 0
           {| readyState := 1; inbox := []; watching := Some 2 |}).
  reflexivity.
Defined.

(** The closing socket of [two_pages] is skipped. *)
Lemma broadcast_skips_closing_client :
  broadcastStatus 1 (processing_status 30 "Extracting clips...") Scenario.two_pages !! 1%nat
    = Scenario.two_pages !! 1%nat.
Proof. reflexivity. Qed.

(** The page's own filter: it takes the events of the video it watches and
    drops the others, which the server sends it all the same. *)
Lemma page_filters_by_videoId :
  page_accepts {| readyState := 1; inbox := []; watching := Some 2 |}
               (payload_of 1 (processing_status 30 "Extracting clips...")) = false
  /\ page_accepts {| readyState := 1; inbox := []; watching := Some 1 |}
                  (payload_of 1 (processing_status 30 "Extracting clips...")) = true.
Proof. split; reflexivity. Qed.

Lemma deliver_app m1 m2 c : deliver m2 (deliver m1 c) = deliver (m1 ++ m2)%list c.
Proof.
  unfold deliver. destruct (readyState c =? 1) eqn:Hopen; simpl; rewrite Hopen;
    [rewrite <- app_assoc |]; reflexivity.
Qed.

Lemma deliver_nil c : deliver [] c = c.
Proof.
  unfold deliver. destruct c as [state box page]. simpl.
  destruct (state =? 1); [rewrite app_nil_r |]; reflexivity.
Qed.

Lemma broadcastStatus_deliver videoId status cs :
  broadcastStatus videoId status cs = List.map (deliver [payload_of videoId status]) cs.
Proof. induction cs as [| c cs IH]; simpl; [| rewrite IH]; reflexivity. Qed.

Lemma map_deliver_app m1 m2 (cs : list WsClient) :
  List.map (deliver m2) (List.map (deliver m1) cs) = List.map (deliver (m1 ++ m2)%list) cs.
Proof. rewrite map_map. apply map_ext. intros c. apply deliver_app. Qed.

Lemma fire_all_app h videoId a b s :
  fire_all h videoId (a ++ b) s = fire_all h videoId b (fire_all h videoId a s).
Proof. revert s. induction a as [| c a IH]; intros s; simpl; [| rewrite IH]; reflexivity. Qed.

Lemma fire_all_progress h videoId events s :
  fire_all h videoId (List.map progress_call events) s
  = {| storage := storage s;
       clients := List.map (deliver (progress_payloads videoId events)) (clients s);
       runs := runs s |}.
Proof.
  revert s. induction events as [| [p stage] events IH]; intros s; simpl.
  - destruct s as [st cs rs]. simpl. f_equal.
    rewrite (map_ext _ id) by apply deliver_nil. symmetry. apply map_id.
  - rewrite IH. unfold onProgress, broadcast. simpl.
    rewrite broadcastStatus_deliver, map_deliver_app. reflexivity.
Qed.

(** ** Starting a run *)

Lemma processVideo_async_nonempty h video options :
  processVideo_async h video options <> [].
Proof.
  unfold processVideo_async.
  destruct (getVideoInfo h _) as [e | info]; [discriminate |].
  destruct (detectScenes h _ _) as [scenes | e]; [| discriminate].
  destruct (length scenes =? 0)%nat; [discriminate |].
  destruct (extractLoop _ _ _ _ _ _ _ _) as [calls [e | clips]]; discriminate.
Qed.

(** C1 (as the code has it).  The route looks at the store only: whenever
    the identity parses and its video is stored, the request to start is
    answered "Processing started", whatever runs of that identity are still
    active.  The stored status becomes "processing" and one more run of the
    identity is active. *)
Theorem start_is_accepted_whatever_runs h d idParam videoId s video :
  Js.parseInt idParam = Some videoId ->
  MemStorage.getVideo videoId (storage s) = Some video ->
  let later :=
    processVideo_async h video
      {| outputDir := clipsDir d; thumbnailDir := thumbnailsDir d; threshold := None |} in
  exists s',
    handle_process h d idParam s = (Message 200 "Processing started", s')
    /\ runs s'
       = (runs s ++ [{| run_videoId := videoId; fired := processVideo_sync;
                        pending := later |}])%list
    /\ active_runs videoId s'
       = (active_runs videoId s ++ [{| run_videoId := videoId; fired := processVideo_sync;
                                       pending := later |}])%list
    /\ option_map video_processingStatus (MemStorage.getVideo videoId (storage s'))
       = Some "processing".
Proof.
  intros Hid Hvideo later.
  pose proof (processVideo_async_nonempty h video
                {| outputDir := clipsDir d; thumbnailDir := thumbnailsDir d;
                   threshold := None |}) as Hne.
  fold later in Hne.
  unfold handle_process. rewrite Hid, Hvideo.
  unfold MemStorage.updateVideoStatus, MemStorage.updateVideo.
  unfold MemStorage.getVideo in Hvideo. rewrite Hvideo. cbn [ret].
  fold later.
  eexists. split; [reflexivity |].
  cbn [runs storage]. simpl.
  split; [reflexivity | split].
  - unfold active_runs. cbn [runs]. rewrite List.filter_app. f_equal.
    cbn [List.filter run_videoId]. rewrite Z.eqb_refl.
    unfold active. cbn [pending]. destruct later; [congruence | reflexivity].
  - unfold MemStorage.getVideo. cbn [MemStorage.videos].
    rewrite lookup_insert_eq. reflexivity.
Qed.

Lemma start_is_accepted_whatever_runs_witness :
  length (active_runs 1 Scenario.started) = 1%nat
  /\ exists s',
       handle_process Scenario.host_cuts Scenario.dirs "1" Scenario.started
       = (Message 200 "Processing started", s')
       /\ runs s'
          = (runs Scenario.started
             ++ [{| run_videoId := 1; fired := processVideo_sync;
                    pending := Scenario.later_cuts |}])%list
       /\ active_runs 1 s'
          = (active_runs 1 Scenario.started
             ++ [{| run_videoId := 1; fired := processVideo_sync;
                    pending := Scenario.later_cuts |}])%list
       /\ option_map video_processingStatus (MemStorage.getVideo 1 (storage s'))
          = Some "processing".
Proof.
  split; [vm_compute; reflexivity |].
  apply (start_is_accepted_whatever_runs Scenario.host_cuts Scenario.dirs "1" 1
           Scenario.started
           {| video_id := 1;
              video_filename := "a1b2.mp4";
              video_originalFilename := "holiday.mp4";
              video_filePath := "uploads/a1b2.mp4";
              video_fileSize := 1048576;
              video_duration := None;
              video_format := None;
              video_resolution := None;
              video_processingStatus := "processing" |});
    vm_compute; reflexivity.
Defined.

(** The only requests that are refused: an identity that is not a number,
    or one without a stored video.  Nothing changes then. *)
Lemma start_refused_without_video h d idParam s :
  (Js.parseInt idParam = None ->
   handle_process h d idParam s = (Message 400 "Invalid video ID", s))
  /\ (forall videoId,
        Js.parseInt idParam = Some videoId ->
        MemStorage.getVideo videoId (storage s) = None ->
        handle_process h d idParam s = (Message 404 "Video not found", s)).
Proof.
  unfold handle_process. split.
  - intros ->. reflexivity.
  - intros videoId -> ->. reflexivity.
Qed.

(** The second of two requests in a row, evaluated. *)
Lemma second_start_evaluated :
  handle_process Scenario.host_cuts Scenario.dirs "1" Scenario.started
  = (Message 200 "Processing started", Scenario.started_twice).
Proof. vm_compute. reflexivity. Qed.

(** Both runs are then active at once. *)
Lemma two_runs_active_at_once :
  apply_events Scenario.host_cuts Scenario.dirs
    [Scenario.upload; Connect (Some 1); Process "1"; Process "1"] initial
  = Scenario.started_twice
  /\ length (active_runs 1 Scenario.started_twice) = 2%nat.
Proof. split; vm_compute; reflexivity. Qed.

(** C1 as stated fails.  After an upload and a first request to process
    video 1, its run is active (it has reported 5 % and awaits [ffprobe]); a
    second request is answered "Processing started" all the same, and
    changes the server. *)
Lemma second_start_is_not_rejected :
  ~ (forall h d idParam videoId s,
       Js.parseInt idParam = Some videoId ->
       active_runs videoId s <> [] ->
       exists response,
         handle_process h d idParam s = (response, s)
         /\ response <> Message 200 "Processing started").
Proof.
  intros Hclaim.
  destruct (Hclaim Scenario.host_cuts Scenario.dirs "1" 1 Scenario.started)
    as (response & Hsame & Hrejected).
  - reflexivity.
  - vm_compute. discriminate.
  - rewrite second_start_evaluated in Hsame.
    apply Hrejected. symmetry. exact (f_equal fst Hsame).
Qed.

(** * Further properties of the code *)
(* ===================================================================== *)

(** ** MemStorage *)

Lemma store_wf_empty : store_wf MemStorage.empty.
Proof.
  unfold store_wf, MemStorage.empty. simpl.
  repeat split; try lia; try constructor.
  - rewrite lookup_empty in H. discriminate.
  - rewrite lookup_empty in H. discriminate.
  - rewrite lookup_empty in H. discriminate.
Qed.

Lemma createVideo_wf insertVideo st :
  store_wf st -> store_wf (snd (MemStorage.createVideo insertVideo st)).
Proof.
  intros (Hvideos & Hv & Hc & Hclips & Hsorted).
  unfold store_wf, MemStorage.createVideo. simpl.
  repeat split; try lia; try assumption.
  - destruct (decide (MemStorage.videoId st = id)) as [<- | Hne].
    + rewrite lookup_insert_eq in H. injection H as <-. reflexivity.
    + rewrite lookup_insert_ne in H by exact Hne. apply (Hvideos id v H).
  - destruct (decide (MemStorage.videoId st = id)) as [<- | Hne]; [lia |].
    rewrite lookup_insert_ne in H by exact Hne. apply (Hvideos id v H).
  - destruct (decide (MemStorage.videoId st = id)) as [<- | Hne]; [lia |].
    rewrite lookup_insert_ne in H by exact Hne.
    pose proof (Hvideos id v H). lia.
Qed.

(** X1.  In a store built by [MemStorage], [createVideo] hands out an id
    that no video had, the new video is found under that id with the status
    it was created with, and every other lookup is as before. *)
Theorem createVideo_then_getVideo insertVideo st :
  store_wf st ->
  let video := fst (MemStorage.createVideo insertVideo st) in
  let st' := snd (MemStorage.createVideo insertVideo st) in
  MemStorage.getVideo (video_id video) st = None
  /\ MemStorage.getVideo (video_id video) st' = Some video
  /\ video_processingStatus video = iv_processingStatus insertVideo
  /\ (forall id, id <> video_id video ->
                 MemStorage.getVideo id st' = MemStorage.getVideo id st)
  /\ MemStorage.clips st' = MemStorage.clips st.
Proof.
  intros (Hvideos & _). unfold MemStorage.createVideo, MemStorage.getVideo. simpl.
  repeat split.
  - destruct (MemStorage.videos st !! MemStorage.videoId st) as [v |] eqn:Hv;
      [| reflexivity].
    pose proof (Hvideos _ _ Hv). lia.
  - apply lookup_insert_eq.
  - intros id Hne. apply lookup_insert_ne. congruence.
Qed.

Lemma createVideo_then_getVideo_witness :
  MemStorage.getVideo 1 MemStorage.empty = None
  /\ MemStorage.getVideo 1 Scenario.store = Some Scenario.video
  /\ video_processingStatus Scenario.video = "pending"
  /\ (forall id, id <> 1 ->
                 MemStorage.getVideo id Scenario.store
                 = MemStorage.getVideo id MemStorage.empty)
  /\ MemStorage.clips Scenario.store = MemStorage.clips MemStorage.empty.
Proof.
  exact (createVideo_then_getVideo
           {| iv_filename := "a1b2.mp4"; iv_originalFilename := "holiday.mp4";
              iv_filePath := "uploads/a1b2.mp4"; iv_fileSize := 1048576;
              iv_processingStatus := "pending" |}
           MemStorage.empty store_wf_empty).
Defined.

Lemma updateVideo_wf id data st updated st' :
  store_wf st -> MemStorage.updateVideo id data st = inr (updated, st') -> store_wf st'.
Proof.
  intros (Hvideos & Hv & Hc & Hclips & Hsorted). unfold MemStorage.updateVideo.
  destruct (MemStorage.videos st !! id) as [video |] eqn:Hvideo; [| discriminate].
  intros [= <- <-]. unfold store_wf. simpl.
  repeat split; try lia; try assumption.
  - destruct (decide (id = id0)) as [<- | Hne].
    + rewrite lookup_insert_eq in H. injection H as <-. simpl.
      apply (Hvideos id video Hvideo).
    + rewrite lookup_insert_ne in H by exact Hne. apply (Hvideos id0 v H).
  - destruct (decide (id = id0)) as [<- | Hne].
    + apply (Hvideos id video Hvideo).
    + rewrite lookup_insert_ne in H by exact Hne. apply (Hvideos id0 v H).
  - destruct (decide (id = id0)) as [<- | Hne].
    + apply (Hvideos id video Hvideo).
    + rewrite lookup_insert_ne in H by exact Hne. apply (Hvideos id0 v H).
Qed.

(** X2.  [updateVideoStatus] on a stored video rewrites its status and
    nothing else: the video keeps its id, its file, its duration, format and
    resolution; the other videos, all the clips and the two id counters
    stay as they are.  On an id that is not stored it throws
    "Video with ID <id> not found". *)
Theorem updateVideoStatus_only_status id status st :
  match MemStorage.getVideo id st with
  | Some video =>
      exists updated st',
        MemStorage.updateVideoStatus id status st = inr (updated, st')
        /\ MemStorage.getVideo id st' = Some updated
        /\ video_processingStatus updated = status
        /\ same_file video updated
        /\ video_duration updated = video_duration video
        /\ video_format updated = video_format video
        /\ video_resolution updated = video_resolution video
        /\ (forall other, other <> id ->
                          MemStorage.getVideo other st' = MemStorage.getVideo other st)
        /\ MemStorage.clips st' = MemStorage.clips st
        /\ MemStorage.videoId st' = MemStorage.videoId st
        /\ MemStorage.clipId st' = MemStorage.clipId st
  | None =>
      MemStorage.updateVideoStatus id status st
      = inl ("Video with ID " +:+ pretty id +:+ " not found")
  end.
Proof.
  unfold MemStorage.updateVideoStatus, MemStorage.updateVideo, MemStorage.getVideo.
  destruct (MemStorage.videos st !! id) as [video |]; [| reflexivity].
  eexists _, _. split; [reflexivity |]. simpl.
  repeat split.
  - apply lookup_insert_eq.
  - intros other Hne. apply lookup_insert_ne. congruence.
Qed.

Lemma createClip_wf insertClip st :
  store_wf st -> store_wf (snd (MemStorage.createClip insertClip st)).
Proof.
  intros (Hvideos & Hv & Hc & Hclips & Hsorted).
  unfold store_wf, MemStorage.createClip. simpl.
  repeat split; try lia; try (apply (Hvideos id v H)).
  - apply Forall_app. split.
    + eapply Forall_impl; [exact Hclips |]. simpl. intros c Hcid. lia.
    + constructor; [simpl; lia | constructor].
  - rewrite map_app. simpl. apply StronglySorted_app_2.
    + intros x y Hx ->%list_elem_of_singleton.
      apply list_elem_of_fmap in Hx as (c & -> & Hin).
      rewrite Forall_forall in Hclips. apply Hclips in Hin. lia.
    + exact Hsorted.
    + repeat constructor.
Qed.

Lemma find_by_id_app id (l1 l2 : list Clip) :
  List.find (fun c => clip_id c =? id) (l1 ++ l2)
  = match List.find (fun c => clip_id c =? id) l1 with
    | Some c => Some c
    | None => List.find (fun c => clip_id c =? id) l2
    end.
Proof.
  induction l1 as [| a l1 IH]; simpl; [reflexivity |].
  destruct (clip_id a =? id); [reflexivity | exact IH].
Qed.

Lemma find_by_id_none id (l : list Clip) :
  Forall (fun c => clip_id c <> id) l -> List.find (fun c => clip_id c =? id) l = None.
Proof.
  induction 1 as [| a l Ha _ IH]; simpl; [reflexivity |].
  rewrite (proj2 (Z.eqb_neq _ _) Ha). exact IH.
Qed.

(** In a list ordered by id, a clip is found under its id. *)
Lemma find_by_id_member (l : list Clip) c :
  StronglySorted Z.lt (List.map clip_id l) -> c ∈ l ->
  List.find (fun x => clip_id x =? clip_id c) l = Some c.
Proof.
  induction l as [| a l IH]; intros Hsorted Hin; [inversion Hin |].
  simpl in *. apply StronglySorted_inv in Hsorted as [Hsorted Hlt].
  apply elem_of_cons in Hin as [-> | Hin].
  - rewrite Z.eqb_refl. reflexivity.
  - destruct (Z.eqb_spec (clip_id a) (clip_id c)) as [Heq | _]; [| auto].
    exfalso. rewrite Forall_forall in Hlt.
    assert (clip_id a < clip_id c); [| lia].
    apply Hlt, list_elem_of_fmap. eauto.
Qed.

(** X3.  In a store built by [MemStorage], [createClip] hands out an id
    that no clip had, the new clip is found under that id, and every clip
    stored before is still found under its own. *)
Theorem createClip_then_getClip insertClip st :
  store_wf st ->
  let clip := fst (MemStorage.createClip insertClip st) in
  let st' := snd (MemStorage.createClip insertClip st) in
  MemStorage.getClip (clip_id clip) st = None
  /\ MemStorage.getClip (clip_id clip) st' = Some clip
  /\ clip_sceneIndex clip = ic_sceneIndex insertClip
  /\ (forall id, id <> clip_id clip ->
                 MemStorage.getClip id st' = MemStorage.getClip id st)
  /\ (forall c, c ∈ MemStorage.clips st -> MemStorage.getClip (clip_id c) st' = Some c).
Proof.
  intros Hwf. pose proof (createClip_wf insertClip st Hwf) as Hwf'.
  destruct Hwf as (_ & _ & _ & Hclips & Hsorted).
  destruct Hwf' as (_ & _ & _ & _ & Hsorted').
  assert (Hfresh : List.find (fun c => clip_id c =? MemStorage.clipId st)
                             (MemStorage.clips st) = None).
  { apply find_by_id_none. eapply Forall_impl; [exact Hclips |]. simpl. intros c Hc. lia. }
  unfold MemStorage.createClip, MemStorage.getClip in *. simpl in *.
  repeat split.
  - exact Hfresh.
  - rewrite find_by_id_app, Hfresh. simpl. rewrite Z.eqb_refl. reflexivity.
  - intros id Hne. rewrite find_by_id_app.
    destruct (List.find (fun c => clip_id c =? id) (MemStorage.clips st));
      [reflexivity |].
    simpl. rewrite (proj2 (Z.eqb_neq _ _)) by congruence. reflexivity.
  - intros c Hin. apply find_by_id_member; [exact Hsorted' |].
    apply elem_of_app. auto.
Qed.

Lemma createClip_then_getClip_witness :
  let insertClip :=
    {| ic_videoId := 1; ic_filename := "a1b2_scene_1.mp4";
       ic_filePath := "uploads/clips/a1b2_scene_1.mp4";
       ic_thumbnailPath := "uploads/thumbnails/a1b2_scene_1.jpg";
       ic_startTime := Js.Fin 0; ic_endTime := Js.Fin 2000; ic_duration := Js.Fin 2000;
       ic_sceneIndex := 0 |} in
  let clip := fst (MemStorage.createClip insertClip Scenario.store) in
  let st' := snd (MemStorage.createClip insertClip Scenario.store) in
  MemStorage.getClip (clip_id clip) Scenario.store = None
  /\ MemStorage.getClip (clip_id clip) st' = Some clip
  /\ clip_sceneIndex clip = 0
  /\ (forall id, id <> clip_id clip ->
                 MemStorage.getClip id st' = MemStorage.getClip id Scenario.store)
  /\ (forall c, c ∈ MemStorage.clips Scenario.store ->
                MemStorage.getClip (clip_id c) st' = Some c).
Proof.
  intros insertClip.
  apply (createClip_then_getClip insertClip Scenario.store).
  apply (createVideo_wf _ MemStorage.empty store_wf_empty).
Defined.

Lemma insert_by_sceneIndex_perm c l :
  MemStorage.insert_by_sceneIndex c l ≡ₚ c :: l.
Proof.
  induction l as [| d rest IH]; simpl; [reflexivity |].
  destruct (clip_sceneIndex c <=? clip_sceneIndex d); [reflexivity |].
  rewrite IH. apply Permutation_swap.
Qed.

Lemma insert_by_sceneIndex_sorted c l :
  StronglySorted by_sceneIndex l ->
  StronglySorted by_sceneIndex (MemStorage.insert_by_sceneIndex c l).
Proof.
  induction l as [| d rest IH]; simpl; intros Hsorted.
  - repeat constructor.
  - apply StronglySorted_inv in Hsorted as [Hrest Hd].
    destruct (Z.leb_spec (clip_sceneIndex c) (clip_sceneIndex d)) as [Hle | Hgt].
    + constructor; [constructor; assumption |].
      constructor; [exact Hle |].
      eapply Forall_impl; [exact Hd |]. unfold by_sceneIndex. simpl. intros x Hx. lia.
    + constructor; [apply IH, Hrest |].
      rewrite insert_by_sceneIndex_perm. constructor; [| exact Hd].
      unfold by_sceneIndex. lia.
Qed.

Lemma sort_by_sceneIndex_perm l : MemStorage.sort_by_sceneIndex l ≡ₚ l.
Proof.
  induction l as [| c l IH]; simpl; [reflexivity |].
  rewrite insert_by_sceneIndex_perm, IH. reflexivity.
Qed.

Lemma sort_by_sceneIndex_sorted l :
  StronglySorted by_sceneIndex (MemStorage.sort_by_sceneIndex l).
Proof.
  induction l as [| c l IH]; simpl; [constructor |].
  apply insert_by_sceneIndex_sorted, IH.
Qed.

(** X4.  [getClipsByVideo] returns the clips of the video, all of them and
    no other, each as often as it is stored, in ascending order of scene
    index. *)
Theorem getClipsByVideo_sorted_selection vid st :
  StronglySorted by_sceneIndex (MemStorage.getClipsByVideo vid st)
  /\ MemStorage.getClipsByVideo vid st
     ≡ₚ List.filter (fun c => clip_videoId c =? vid) (MemStorage.clips st)
  /\ (forall c, c ∈ MemStorage.getClipsByVideo vid st
                <-> c ∈ MemStorage.clips st /\ clip_videoId c = vid).
Proof.
  unfold MemStorage.getClipsByVideo.
  split; [apply sort_by_sceneIndex_sorted |].
  split; [apply sort_by_sceneIndex_perm |].
  intros c. rewrite sort_by_sceneIndex_perm.
  rewrite !list_elem_of_In, List.filter_In, Z.eqb_eq. reflexivity.
Qed.

Lemma filter_insert_by_sceneIndex k c l :
  List.filter (fun x => clip_sceneIndex x =? k) (MemStorage.insert_by_sceneIndex c l)
  = List.filter (fun x => clip_sceneIndex x =? k) (c :: l).
Proof.
  induction l as [| d rest IH]; [reflexivity |].
  cbn [MemStorage.insert_by_sceneIndex].
  destruct (Z.leb_spec (clip_sceneIndex c) (clip_sceneIndex d)) as [Hle | Hgt];
    [reflexivity |].
  cbn [List.filter] in *. rewrite IH.
  destruct (Z.eqb_spec (clip_sceneIndex d) k) as [Hd | Hd];
    destruct (Z.eqb_spec (clip_sceneIndex c) k) as [Hc | Hc];
    try reflexivity.
  lia.
Qed.

(** X5.  The sort of [getClipsByVideo] is stable: the clips of a video that
    share a scene index (the clips of two runs on the same video) come out
    in the order in which they were stored. *)
Theorem getClipsByVideo_stable vid st k :
  List.filter (fun c => clip_sceneIndex c =? k) (MemStorage.getClipsByVideo vid st)
  = List.filter (fun c => clip_sceneIndex c =? k)
      (List.filter (fun c => clip_videoId c =? vid) (MemStorage.clips st)).
Proof.
  unfold MemStorage.getClipsByVideo.
  induction (List.filter (fun c => clip_videoId c =? vid) (MemStorage.clips st))
    as [| c l IH]; [reflexivity |].
  cbn [MemStorage.sort_by_sceneIndex foldr].
  rewrite filter_insert_by_sceneIndex. cbn [List.filter].
  fold (MemStorage.sort_by_sceneIndex l). rewrite IH. reflexivity.
Qed.

(** Clips stored in ascending order of scene index come out as stored. *)
Lemma sort_by_sceneIndex_sorted_id l :
  StronglySorted by_sceneIndex l -> MemStorage.sort_by_sceneIndex l = l.
Proof.
  induction l as [| c l IH]; intros Hsorted; [reflexivity |].
  apply StronglySorted_inv in Hsorted as [Hl Hc].
  simpl. fold (MemStorage.sort_by_sceneIndex l). rewrite (IH Hl).
  destruct l as [| d rest]; [reflexivity |].
  simpl. apply Forall_inv in Hc. unfold by_sceneIndex in Hc.
  rewrite (proj2 (Z.leb_le _ _) Hc). reflexivity.
Qed.

(** ** videoProcessor: thumbnails, clips and failures *)

(** X6.  The frame taken as thumbnail lies strictly inside its clip,
    at most one second after the clip's start. *)
Theorem thumbnail_inside_clip startTime duration :
  0 < duration ->
  (inject_Z startTime < thumbnailTime startTime duration)%Q
  /\ (thumbnailTime startTime duration < inject_Z (startTime + duration))%Q
  /\ (thumbnailTime startTime duration <= inject_Z startTime + inject_Z 1000)%Q.
Proof.
  intros Hd. unfold thumbnailTime.
  destruct (Qle_bool (1000 # 1) (duration # 2)) eqn:Hmin.
  - apply Qle_bool_iff in Hmin. unfold Qle in Hmin. simpl in Hmin.
    unfold Qlt, Qle, Qplus, inject_Z. simpl. lia.
  - assert (Hlt : ~ (1000 # 1 <= duration # 2)%Q)
      by (rewrite <- Qle_bool_iff, Hmin; discriminate).
    unfold Qle in Hlt. simpl in Hlt.
    unfold Qlt, Qle, Qplus, inject_Z. simpl. lia.
Qed.

Lemma thumbnail_inside_clip_witness :
  (inject_Z 2300 < thumbnailTime 2300 4700)%Q
  /\ (thumbnailTime 2300 4700 < inject_Z (2300 + 4700))%Q
  /\ (thumbnailTime 2300 4700 <= inject_Z 2300 + inject_Z 1000)%Q.
Proof. apply (thumbnail_inside_clip 2300 4700). lia. Defined.

Lemma progress_events_calls events :
  progress_events (List.map progress_call events) = events.
Proof.
  induction events as [| [p stage] events IH]; simpl; [reflexivity |].
  rewrite IH. reflexivity.
Qed.

(** The loop calls [onProgress] and nothing else. *)
Lemma extractLoop_only_progress h video options duration n scenes i acc :
  fst (extractLoop h video options duration n i scenes acc)
  = List.map progress_call
      (progress_events (fst (extractLoop h video options duration n i scenes acc))).
Proof.
  revert i acc. induction scenes as [| scene rest IH]; intros i acc; simpl;
    [reflexivity |].
  destruct (Js.ltb _ _); [apply IH |].
  destruct (extractClip _ _ _ _ _) as [e |]; [reflexivity |].
  destruct (generateThumbnail _ _ _ _) as [e |]; [reflexivity |].
  match goal with
  | |- context [extractLoop h video options duration n (i + 1) rest ?acc'] =>
      specialize (IH (i + 1) acc');
      destruct (extractLoop h video options duration n (i + 1) rest acc')
        as [calls outcome]
  end.
  simpl in *. rewrite <- IH. reflexivity.
Qed.

(** The loop fails with the message of the extraction that failed. *)
Lemma extractLoop_failure h video options duration n scenes i acc message :
  snd (extractLoop h video options duration n i scenes acc) = inl message ->
  (exists e, message = "Failed to extract clip: " +:+ e)
  \/ (exists e, message = "Failed to generate thumbnail: " +:+ e).
Proof.
  revert i acc. induction scenes as [| scene rest IH]; intros i acc; simpl;
    [discriminate |].
  destruct (Js.ltb _ _); [apply IH |].
  unfold extractClip, generateThumbnail.
  destruct (ffmpeg_clip _ _ _ _ _) as [e |]; simpl; [intros [= <-]; eauto |].
  destruct (ffmpeg_frame _ _ _ _) as [e |]; simpl; [intros [= <-]; eauto |].
  match goal with
  | |- context [extractLoop h video options duration n (i + 1) rest ?acc'] =>
      specialize (IH (i + 1) acc');
      destruct (extractLoop h video options duration n (i + 1) rest acc')
        as [calls outcome]
  end.
  simpl in *. exact IH.
Qed.



(** The three ways a run can go. *)
Lemma processVideo_cases h video options calls :
  processVideo h video options = calls ->
  (exists e,
      getVideoInfo h (video_filePath video) = inl e
      /\ calls = [OnProgress 5 "Analyzing video..."; OnError e])
  \/ (exists info e,
        getVideoInfo h (video_filePath video) = inr info
        /\ detectScenes h (video_filePath video) (effective_threshold options) = Rejected e
        /\ calls = [OnProgress 5 "Analyzing video..."; OnProgress 15 "Detecting scenes...";
                    OnError e])
  \/ (exists info scenes events final,
        getVideoInfo h (video_filePath video) = inr info
        /\ detectScenes h (video_filePath video) (effective_threshold options)
           = Resolved scenes
        /\ events `prefix_of` List.map (clip_event (Z.of_nat (length scenes)))
                    (retained_indices 0 (candidates (mi_duration info) scenes))
        /\ calls = ([OnProgress 5 "Analyzing video..."; OnProgress 15 "Detecting scenes...";
                     OnProgress 30 "Extracting clips..."]
                    ++ List.map progress_call events ++ final)%list
        /\ ((exists e, final = [OnError e]
                       /\ ((exists m, e = "Failed to extract clip: " +:+ m)
                           \/ (exists m, e = "Failed to generate thumbnail: " +:+ m)))
            \/ (exists clipResults,
                  events = List.map (clip_event (Z.of_nat (length scenes)))
                             (retained_indices 0 (candidates (mi_duration info) scenes))
                  /\ List.map time_range clipResults
                     = List.filter retained (candidates (mi_duration info) scenes)
                  /\ final = [OnProgress 100 "Processing complete";
                              OnComplete {| pr_clips := clipResults;
                                            pr_duration := mi_duration info;
                                            pr_format := mi_format info;
                                            pr_resolution := mi_resolution info |}]))).
Proof.
  unfold processVideo, processVideo_async, processVideo_sync.
  destruct (getVideoInfo h (video_filePath video)) as [e | info] eqn:Hprobe.
  { intros <-. left. eauto. }
  destruct (detectScenes h _ _) as [scenes | e] eqn:Hdetect.
  2: { intros <-. right. left. eauto. }
  pose proof (detectScenes_nonempty _ _ _ _ Hdetect) as Hne.
  destruct scenes as [| s0 rest]; [congruence |].
  set (scenes := s0 :: rest) in *.
  change (length scenes =? 0)%nat with false. cbv iota.
  pose proof (extractLoop_progress_prefix h video options (mi_duration info)
                (Z.of_nat (length scenes)) scenes 0 []) as Hpre.
  pose proof (extractLoop_complete h video options (mi_duration info)
                (Z.of_nat (length scenes)) scenes 0 []) as Hall.
  pose proof (extractLoop_only_progress h video options (mi_duration info)
                (Z.of_nat (length scenes)) scenes 0 []) as Honly.
  pose proof (extractLoop_failure h video options (mi_duration info)
                (Z.of_nat (length scenes)) scenes 0 []) as Hfail.
  destruct (extractLoop h video options _ _ 0 scenes []) as [loop_calls outcome].
  simpl in Hpre, Hall, Honly, Hfail. intros Hcalls. right. right.
  exists info, scenes, (progress_events loop_calls).
  destruct outcome as [e | clipResults]; subst calls.
  - exists [OnError e]. repeat split; try assumption.
    + simpl. rewrite <- Honly. reflexivity.
    + left. exists e. split; [reflexivity | apply Hfail; reflexivity].
  - destruct (Hall clipResults eq_refl) as (Hev & _ & Hclips).
    eexists. repeat split; try assumption.
    + simpl. rewrite <- Honly. reflexivity.
    + right. exists clipResults. repeat split; assumption.
Qed.

Lemma failure_snoc calls call :
  failure (calls ++ [call]) = match call with OnError m => Some m | _ => None end.
Proof. unfold failure. rewrite last_snoc. reflexivity. Qed.

Lemma processVideo_terminal h video options calls :
  processVideo h video options = calls ->
  exists final,
    calls = (List.map progress_call (progress_events calls) ++ [final])%list
    /\ ((exists results,
            final = OnComplete results
            /\ completion calls = Some results /\ failure calls = None)
        \/ (exists message,
              final = OnError message
              /\ failure calls = Some message /\ completion calls = None)).
Proof.
  intros [(e & _ & ->) | [(info & e & _ & _ & ->)
    | (info & scenes & events & final & _ & _ & _ & -> & Hfinal)]]%processVideo_cases.
  - exists (OnError e). split; [reflexivity |]. right. eauto.
  - exists (OnError e). split; [reflexivity |]. right. eauto.
  - destruct Hfinal as [(e & -> & _) | (clipResults & _ & _ & ->)].
    + exists (OnError e).
      assert (Hev : progress_events
                ([OnProgress 5 "Analyzing video..."; OnProgress 15 "Detecting scenes...";
                  OnProgress 30 "Extracting clips..."]
                 ++ List.map progress_call events ++ [OnError e])
              = ([(5, "Analyzing video..."); (15, "Detecting scenes...");
                  (30, "Extracting clips...")] ++ events)%list).
      { simpl. rewrite progress_events_app, progress_events_calls. simpl.
        rewrite app_nil_r. reflexivity. }
      rewrite Hev. split.
      * simpl. rewrite ?map_app, <- ?app_assoc. reflexivity.
      * right. exists e. rewrite !app_assoc, completion_snoc, failure_snoc. auto.
    + eexists (OnComplete _).
      assert (Hev : progress_events
                ([OnProgress 5 "Analyzing video..."; OnProgress 15 "Detecting scenes...";
                  OnProgress 30 "Extracting clips..."]
                 ++ List.map progress_call events
                 ++ [OnProgress 100 "Processing complete";
                     OnComplete {| pr_clips := clipResults;
                                   pr_duration := mi_duration info;
                                   pr_format := mi_format info;
                                   pr_resolution := mi_resolution info |}])
              = ([(5, "Analyzing video..."); (15, "Detecting scenes...");
                  (30, "Extracting clips...")] ++ events
                 ++ [(100, "Processing complete")])%list).
      { simpl. rewrite progress_events_app, progress_events_calls. reflexivity. }
      rewrite Hev. split.
      * simpl. rewrite ?map_app, <- ?app_assoc. reflexivity.
      * left. eexists. split; [reflexivity |].
        change [OnProgress 100 "Processing complete";
                OnComplete {| pr_clips := clipResults;
                              pr_duration := mi_duration info;
                              pr_format := mi_format info;
                              pr_resolution := mi_resolution info |}]
          with ([OnProgress 100 "Processing complete"]
                ++ [OnComplete {| pr_clips := clipResults;
                                  pr_duration := mi_duration info;
                                  pr_format := mi_format info;
                                  pr_resolution := mi_resolution info |}])%list.
        rewrite !app_assoc, completion_snoc, failure_snoc. auto.
Qed.

(** X7.  Every run makes exactly one terminal call, and makes it last:
    [onComplete] or [onError], never both and never neither; all the calls
    before it are [onProgress] calls. *)
Theorem run_ends_with_one_terminal_call h video options calls :
  processVideo h video options = calls ->
  exists final,
    calls = (List.map progress_call (progress_events calls) ++ [final])%list
    /\ ((exists results,
            final = OnComplete results
            /\ completion calls = Some results /\ failure calls = None)
        \/ (exists message,
              final = OnError message
              /\ failure calls = Some message /\ completion calls = None)).
Proof. apply processVideo_terminal. Qed.

Lemma run_ends_with_one_terminal_call_witness :
  exists final,
    Scenario.run_cuts
    = (List.map progress_call (progress_events Scenario.run_cuts) ++ [final])%list
    /\ ((exists results,
            final = OnComplete results
            /\ completion Scenario.run_cuts = Some results
            /\ failure Scenario.run_cuts = None)
        \/ (exists message,
              final = OnError message
              /\ failure Scenario.run_cuts = Some message
              /\ completion Scenario.run_cuts = None)).
Proof.
  apply (run_ends_with_one_terminal_call
           Scenario.host_cuts Scenario.video Scenario.options).
  vm_compute. reflexivity.
Defined.

Lemma candidates_starts {A} (duration : A) (scenes : list A) :
  List.map fst (candidates duration scenes) = scenes.
Proof. induction scenes as [| s rest IH]; simpl; congruence. Qed.

(** Over ascending boundaries, every candidate ends where no later one has
    started yet. *)
Lemma candidates_in_order (duration : Z) (scenes : list Z) :
  StronglySorted Z.le scenes -> StronglySorted before (candidates duration scenes).
Proof.
  induction scenes as [| s rest IH]; intros Hsorted; simpl; [constructor |].
  apply StronglySorted_inv in Hsorted as [Hrest Hs].
  constructor; [apply IH, Hrest |].
  destruct rest as [| next more]; [constructor |].
  apply StronglySorted_inv in Hrest as [_ Hnext].
  apply Forall_forall. intros c Hc. unfold before. cbn [snd].
  assert (Hfst : fst c ∈ next :: more).
  { rewrite <- (candidates_starts duration (next :: more)).
    apply list_elem_of_fmap. eauto. }
  apply elem_of_cons in Hfst as [-> | Hin]; [lia |].
  rewrite Forall_forall in Hnext. auto.
Qed.

Lemma StronglySorted_filter {A} (R : relation A) (keep : A -> bool) l :
  StronglySorted R l -> StronglySorted R (List.filter keep l).
Proof.
  induction 1 as [| x l _ IH Hx]; simpl; [constructor |].
  destruct (keep x); [| exact IH].
  constructor; [exact IH |].
  apply Forall_forall. intros y Hy%list_elem_of_In%List.filter_In.
  rewrite Forall_forall in Hx. apply Hx, list_elem_of_In, Hy.
Qed.

Lemma StronglySorted_fmap_inv {A B} (f : A -> B) (R : relation B) l :
  StronglySorted R (List.map f l) -> StronglySorted (fun a b => R (f a) (f b)) l.
Proof.
  induction l as [| x l IH]; simpl; intros Hs; [constructor |].
  apply StronglySorted_inv in Hs as [Hl Hx].
  constructor; [apply IH, Hl |].
  apply Forall_forall. intros y Hy. rewrite Forall_forall in Hx.
  apply Hx, list_elem_of_fmap. eauto.
Qed.

(** Finite numbers are integers. *)
Lemma finite_numbers (l : list Js.number) :
  Forall (fun t => Js.is_fin t = true) l -> exists zs, l = List.map Js.Fin zs.
Proof.
  induction 1 as [| x l Hx _ (zs & ->)]; [exists []; reflexivity |].
  destruct x as [z | |]; try discriminate. exists (z :: zs). reflexivity.
Qed.

Lemma candidates_finite (duration : Z) (scenes : list Z) :
  candidates (Js.Fin duration) (List.map Js.Fin scenes)
  = List.map finite_range (candidates duration scenes).
Proof.
  induction scenes as [| s rest IH]; [reflexivity |].
  cbn [List.map candidates]. rewrite IH. f_equal.
  destruct rest; reflexivity.
Qed.

Lemma retained_finite (c : Z * Z) :
  retained (finite_range c) = (500 <=? snd c - fst c).
Proof.
  unfold retained, discarded, candidate_duration, finite_range. simpl.
  destruct (Z.ltb_spec (snd c - fst c) 500), (Z.leb_spec 500 (snd c - fst c));
    try reflexivity; lia.
Qed.

Lemma filter_retained_finite (cs : list (Z * Z)) :
  List.filter retained (List.map finite_range cs)
  = List.map finite_range (List.filter (fun c => 500 <=? snd c - fst c) cs).
Proof.
  induction cs as [| c cs IH]; [reflexivity |].
  cbn [List.map List.filter]. rewrite retained_finite, IH.
  destruct (500 <=? snd c - fst c); reflexivity.
Qed.

(** The boundaries that [detectScenes] resolves with are not below zero, and
    in ascending order when none of them is [NaN]. *)
Lemma detectScenes_nonneg_sorted h filePath thr scenes :
  detectScenes h filePath thr = Resolved scenes ->
  Forall Js.nonneg scenes /\ (Js.NaN ∉ scenes -> StronglySorted Js.le scenes).
Proof.
  intros (out & err & _ & ->)%detectScenes_resolved.
  set (pushed := pushed_timestamps (Js.split_on newline err)). split.
  - rewrite sort_scenes_perm. constructor; [simpl; lia |].
    apply pushed_timestamps_nonneg.
  - intros Hnan.
    assert (Hnone : Js.NaN ∉ Js.Fin 0 :: pushed)
      by (rewrite <- (sort_scenes_perm h); exact Hnan).
    unfold sort_scenes. rewrite (proj2 (existsb_is_nan _) Hnone).
    apply sort_ascending_sorted, not_nan_elem, Hnone.
Qed.

(** X8.  The clips that a completed run hands to [onComplete] are the
    candidates whose duration is not under 500 ms, in the order of the
    boundaries.  When the probed duration and the detected boundaries are
    all finite numbers, these clips have finite ends, start at or after 0,
    last 500 ms at least, and follow one another without overlap, in the
    order of the video.  (A duration that is [NaN] is not under 500: see
    [nan_duration_keeps_last_clip].) *)
Theorem clips_long_enough_and_disjoint h video options info scenes calls results :
  getVideoInfo h (video_filePath video) = inr info ->
  detectScenes h (video_filePath video) (effective_threshold options) = Resolved scenes ->
  processVideo h video options = calls ->
  completion calls = Some results ->
  List.map time_range (pr_clips results)
  = List.filter (fun c => negb (Js.ltb (Js.sub (snd c) (fst c)) (Js.Fin 500)))
                (candidates (mi_duration info) scenes)
  /\ (Js.is_fin (mi_duration info) = true ->
      Forall (fun t => Js.is_fin t = true) scenes ->
      exists ranges,
        List.map time_range (pr_clips results) = List.map finite_range ranges
        /\ Forall (fun c => 0 <= fst c /\ fst c + 500 <= snd c) ranges
        /\ StronglySorted before ranges).
Proof.
  intros Hprobe Hdetect Hrun Hdone.
  destruct (processVideo_completed _ _ _ _ _ _ _ Hprobe Hdetect Hrun Hdone)
    as (_ & Hranges & _).
  split; [exact Hranges |].
  intros Hduration Hfinite.
  destruct (detectScenes_nonneg_sorted _ _ _ _ Hdetect) as [Hpos Hsorted].
  destruct (finite_numbers scenes Hfinite) as [zs ->].
  destruct (mi_duration info) as [d | |]; try discriminate.
  assert (Hzs : StronglySorted Z.le zs /\ Forall (fun t => 0 <= t) zs).
  { split.
    - apply (StronglySorted_fmap_inv Js.Fin Js.le), Hsorted.
      intros (z & Hz & _)%list_elem_of_fmap. discriminate.
    - apply Forall_forall. intros z Hz. rewrite Forall_forall in Hpos.
      apply (Hpos (Js.Fin z)), list_elem_of_fmap. eauto. }
  destruct Hzs as [Hzsorted Hzpos].
  rewrite candidates_finite, filter_retained_finite in Hranges.
  eexists. split; [exact Hranges |]. split.
  - apply Forall_forall.
    intros c [Hin Hkept]%list_elem_of_In%List.filter_In. split.
    + rewrite Forall_forall in Hzpos. apply Hzpos.
      rewrite <- (candidates_starts d zs).
      apply list_elem_of_fmap. exists c. split; [reflexivity |].
      apply list_elem_of_In, Hin.
    + apply Z.leb_le in Hkept. lia.
  - apply StronglySorted_filter, candidates_in_order, Hzsorted.
Qed.

Lemma clips_long_enough_and_disjoint_witness :
  List.map time_range
    [Scenario.clip_of "1" 0 2000; Scenario.clip_of "3" 2300 7000;
     Scenario.clip_of "4" 7000 10000]
  = List.filter (fun c => negb (Js.ltb (Js.sub (snd c) (fst c)) (Js.Fin 500)))
                (candidates (Js.Fin 10000)
                   [Js.Fin 0; Js.Fin 2000; Js.Fin 2300; Js.Fin 7000])
  /\ exists ranges,
       List.map time_range
         [Scenario.clip_of "1" 0 2000; Scenario.clip_of "3" 2300 7000;
          Scenario.clip_of "4" 7000 10000]
       = List.map finite_range ranges
       /\ Forall (fun c => 0 <= fst c /\ fst c + 500 <= snd c) ranges
       /\ StronglySorted before ranges.
Proof.
  destruct (clips_long_enough_and_disjoint Scenario.host_cuts Scenario.video
              Scenario.options Scenario.info
              [Js.Fin 0; Js.Fin 2000; Js.Fin 2300; Js.Fin 7000] Scenario.run_cuts
              (Scenario.results_of
                 [Scenario.clip_of "1" 0 2000; Scenario.clip_of "3" 2300 7000;
                  Scenario.clip_of "4" 7000 10000]))
    as [Hkept Hfinite]; try (vm_compute; reflexivity).
  split; [exact Hkept |].
  apply Hfinite; [reflexivity | repeat constructor].
Defined.

(** When [ffprobe] reports no duration ("N/A"), the probed duration is
    [NaN]; the last candidate then has a duration that is [NaN], which is
    not under 500, and is kept as a clip without an end. *)
Lemma nan_duration_keeps_last_clip :
  let h := Scenario.host "N/A" ["2"] in
  getVideoInfo h "uploads/a1b2.mp4"
  = inr {| mi_duration := Js.NaN; mi_format := "H264"; mi_resolution := "1280 × 720" |}
  /\ exists results,
       completion (processVideo h Scenario.video Scenario.options) = Some results
       /\ List.map time_range (pr_clips results)
          = [(Js.Fin 0, Js.Fin 2000); (Js.Fin 2000, Js.NaN)].
Proof.
  split; [vm_compute; reflexivity |].
  eexists. split; vm_compute; reflexivity.
Qed.


Lemma run_clip_fails_correct :
  processVideo Cases.host_clip_fails Scenario.video Scenario.options
  = Cases.run_clip_fails.
Proof. vm_compute. reflexivity. Qed.


Lemma schedule_percentages_bounds duration scenes :
  scenes <> [] ->
  Forall (fun p => 5 <= p <= 100) (List.map fst (schedule duration scenes)).
Proof.
  intros Hne. pose proof (schedule_percentages_sorted duration scenes Hne) as Hsorted.
  unfold schedule in *. rewrite !map_app in *. simpl in *.
  apply StronglySorted_inv in Hsorted as [Htail Hfirst].
  constructor; [lia |].
  apply Forall_forall. intros p Hp.
  split; [rewrite Forall_forall in Hfirst; apply Hfirst, Hp |].
  change (15 :: 30 :: (List.map fst (List.map (clip_event (Z.of_nat (length scenes)))
            (retained_indices 0 (candidates duration scenes))) ++ [100])%list)
    with (([15; 30] ++ List.map fst (List.map (clip_event (Z.of_nat (length scenes)))
            (retained_indices 0 (candidates duration scenes)))) ++ [100])%list
    in Htail, Hp.
  apply elem_of_app in Hp as [Hp | ->%list_elem_of_singleton]; [| lia].
  eapply (StronglySorted_app_1_elem_of Z.le); [exact Htail | exact Hp |].
  apply list_elem_of_singleton. reflexivity.
Qed.

(** Whatever the tools do, a run reports percentages between 5 and 100. *)
Lemma processVideo_percentages_bounds h video options :
  Forall (fun p => 5 <= p <= 100) (percentages (processVideo h video options)).
Proof.
  destruct (processVideo_progress_prefix h video options _ eq_refl)
    as (duration & scenes & Hne & [rest Hsched]).
  pose proof (schedule_percentages_bounds duration scenes Hne) as Hall.
  rewrite Hsched, map_app in Hall. apply Forall_app in Hall as [Hall _]. exact Hall.
Qed.

(** X10.  The percentages that a run reports stay between 5 and 100, within
    the bounds that the shared schema puts on [progress]; 100 is reported
    by a run that completes only, as its last percentage; and a run that
    fails has stopped at 90 or below. *)
Theorem progress_within_bounds h video options calls :
  processVideo h video options = calls ->
  Forall (fun p => 5 <= p <= 100) (percentages calls)
  /\ (In 100 (percentages calls) -> is_Some (completion calls))
  /\ (is_Some (completion calls) -> last (percentages calls) = Some 100)
  /\ (is_Some (failure calls) -> Forall (fun p => p <= 90) (percentages calls)).
Proof.
  intros Hrun.
  assert (Hbounds : Forall (fun p => 5 <= p <= 100) (percentages calls))
    by (rewrite <- Hrun; apply processVideo_percentages_bounds).
  split; [exact Hbounds |].
  destruct (processVideo_cases _ _ _ _ Hrun)
    as [(e & _ & ->) | [(info & e & _ & _ & ->)
       | (info & scenes & events & final & _ & Hdetect & Hpre & -> & Hfinal)]].
  - split; [simpl; lia |]. split; [intros [r Hr]; discriminate Hr |].
    intros _. cbn. repeat (constructor; [lia |]). constructor.
  - split; [simpl; lia |]. split; [intros [r Hr]; discriminate Hr |].
    intros _. cbn. repeat (constructor; [lia |]). constructor.
  - assert (Hle : Forall (fun p => p <= 90) (List.map fst events)).
    { destruct Hpre as [rest Hrest].
      assert (Hall : Forall (fun i => 0 <= i < Z.of_nat (length scenes))
                       (retained_indices 0 (candidates (mi_duration info) scenes))).
      { rewrite <- (candidates_length (mi_duration info) scenes).
        apply (retained_indices_range 0). }
      assert (Hboth : Forall (fun p => p <= 90) (List.map fst (events ++ rest))).
      { rewrite <- Hrest, map_map. apply Forall_fmap.
        eapply Forall_impl; [exact Hall |]. intros i Hi. simpl.
        apply clipProgress_bounds, Hi. }
      rewrite map_app in Hboth. apply Forall_app in Hboth as [Hboth _]. exact Hboth. }
    destruct Hfinal as [(e & -> & _) | (clipResults & _ & _ & ->)].
    + assert (Hpercent : percentages
                ([OnProgress 5 "Analyzing video..."; OnProgress 15 "Detecting scenes...";
                  OnProgress 30 "Extracting clips..."]
                 ++ List.map progress_call events ++ [OnError e])
              = ([5; 15; 30] ++ List.map fst events)%list).
      { unfold percentages. rewrite !progress_events_app, progress_events_calls.
        simpl. rewrite app_nil_r. reflexivity. }
      rewrite Hpercent.
      assert (Hall90 : Forall (fun p => p <= 90) ([5; 15; 30] ++ List.map fst events)%list).
      { apply Forall_app. split; [| exact Hle].
        repeat (constructor; [lia |]). constructor. }
      split; [| split].
      * intros H100. exfalso. rewrite Forall_forall in Hall90.
        apply list_elem_of_In, Hall90 in H100. lia.
      * intros [r Hr]. rewrite !app_assoc, completion_snoc in Hr. discriminate.
      * intros _. exact Hall90.
    + change [OnProgress 100 "Processing complete";
              OnComplete {| pr_clips := clipResults;
                            pr_duration := mi_duration info;
                            pr_format := mi_format info;
                            pr_resolution := mi_resolution info |}]
        with ([OnProgress 100 "Processing complete"]
              ++ [OnComplete {| pr_clips := clipResults;
                                pr_duration := mi_duration info;
                                pr_format := mi_format info;
                                pr_resolution := mi_resolution info |}])%list.
      split; [| split].
      * intros _. eexists. rewrite !app_assoc, completion_snoc. reflexivity.
      * intros _. unfold percentages.
        rewrite !progress_events_app, progress_events_calls. simpl.
        rewrite map_app. simpl. rewrite !app_comm_cons, last_snoc. reflexivity.
      * intros [m Hm]. rewrite !app_assoc, failure_snoc in Hm. discriminate.
Qed.

Lemma progress_within_bounds_witness :
  Forall (fun p => 5 <= p <= 100) (percentages Cases.run_clip_fails)
  /\ (In 100 (percentages Cases.run_clip_fails) ->
      is_Some (completion Cases.run_clip_fails))
  /\ (is_Some (completion Cases.run_clip_fails) ->
      last (percentages Cases.run_clip_fails) = Some 100)
  /\ (is_Some (failure Cases.run_clip_fails) ->
      Forall (fun p => p <= 90) (percentages Cases.run_clip_fails)).
Proof.
  apply (progress_within_bounds Cases.host_clip_fails Scenario.video Scenario.options).
  vm_compute. reflexivity.
Defined.

(** ** Scene detection: what is read from the log *)

(** X11.  What [detectScenes] reads from a log line as a timestamp is never
    empty, holds digits and dots only, stands in the line right after
    "pts_time:", and goes on as long as digits and dots follow. *)
Theorem match_pts_time_sound line cap :
  match_pts_time line = Some cap ->
  cap <> EmptyString
  /\ Forall (fun c => Js.is_digit c || Js.is_dot c = true) (list_ascii_of_string cap)
  /\ exists pre post,
       line = pre +:+ "pts_time:" +:+ cap +:+ post
       /\ match post with
          | String c _ => Js.is_digit c || Js.is_dot c = false
          | EmptyString => True
          end.
Proof.
  induction line as [| a rest IH]; [discriminate |].
  cbn [match_pts_time].
  destruct (Js.strip_prefix "pts_time:" (String a rest)) as [tl |] eqn:Hstrip.
  - destruct (capture tl) as [| c cap'] eqn:Hcap.
    + intros H. destruct (IH H) as (Hne & Hchars & pre & post & -> & Hpost).
      split; [exact Hne |]. split; [exact Hchars |].
      exists (String a pre), post. auto.
    + intros [= <-]. split; [discriminate |]. split.
      * rewrite <- Hcap. apply capture_chars.
      * destruct (capture_split tl) as (post & Htl & Hpost).
        exists EmptyString, post. split; [| exact Hpost].
        apply strip_prefix_app in Hstrip. rewrite Hstrip, <- Hcap.
        rewrite <- Htl. reflexivity.
  - intros H. destruct (IH H) as (Hne & Hchars & pre & post & -> & Hpost).
    split; [exact Hne |]. split; [exact Hchars |].
    exists (String a pre), post. auto.
Qed.

Lemma match_pts_time_sound_witness :
  "2.3" <> EmptyString
  /\ Forall (fun c => Js.is_digit c || Js.is_dot c = true) (list_ascii_of_string "2.3")
  /\ exists pre post,
       Scenario.showinfo "2.3" = pre +:+ "pts_time:" +:+ "2.3" +:+ post
       /\ match post with
          | String c _ => Js.is_digit c || Js.is_dot c = false
          | EmptyString => True
          end.
Proof. apply (match_pts_time_sound (Scenario.showinfo "2.3") "2.3"). reflexivity. Defined.

Lemma pushed_timestamps_length lines :
  length (pushed_timestamps lines)
  = length (List.filter (fun line => bool_decide (is_Some (match_pts_time line))) lines).
Proof.
  induction lines as [| line more IH]; simpl; [reflexivity |].
  destruct (match_pts_time line) as [cap |].
  - rewrite bool_decide_eq_true_2 by eauto. simpl. f_equal. exact IH.
  - rewrite bool_decide_eq_false_2 by (intros [x Hx]; discriminate). exact IH.
Qed.

(** X12.  [detectScenes] keeps every timestamp it reads: the boundaries it
    resolves with are the start of the video and one boundary for each log
    line that holds a timestamp, none merged and none dropped. *)
Theorem detectScenes_one_boundary_per_line h filePath thr out err scenes :
  ffmpeg_scene h filePath thr = ExecDone out err ->
  detectScenes h filePath thr = Resolved scenes ->
  length scenes
  = S (length (List.filter (fun line => bool_decide (is_Some (match_pts_time line)))
                           (Js.split_on newline err)))
  /\ scenes ≡ₚ Js.Fin 0 :: pushed_timestamps (Js.split_on newline err).
Proof.
  intros Hscan. unfold detectScenes. rewrite Hscan.
  intros [= <-]. split.
  - rewrite sort_scenes_perm. simpl. f_equal. apply pushed_timestamps_length.
  - apply sort_scenes_perm.
Qed.

Lemma detectScenes_one_boundary_per_line_witness :
  length [Js.Fin 0; Js.Fin 2000; Js.Fin 2000]
  = S (length (List.filter (fun line => bool_decide (is_Some (match_pts_time line)))
                 (Js.split_on newline (Scenario.log_of ["2.0001"; "2.0004"]))))
  /\ [Js.Fin 0; Js.Fin 2000; Js.Fin 2000]
     ≡ₚ Js.Fin 0 :: pushed_timestamps
                      (Js.split_on newline (Scenario.log_of ["2.0001"; "2.0004"])).
Proof.
  apply (detectScenes_one_boundary_per_line Scenario.host_twins "uploads/a1b2.mp4"
           SCENE_THRESHOLD "" (Scenario.log_of ["2.0001"; "2.0004"])
           [Js.Fin 0; Js.Fin 2000; Js.Fin 2000]);
    vm_compute; reflexivity.
Defined.

(** ** Routes: what the callbacks do to the server *)

(** X13.  Progress calls do not touch the store or the list of runs; every
    open socket is sent their events in the order of the calls, on top of
    what it had been sent, and the other sockets are sent nothing. *)
Theorem progress_delivered_in_order h videoId events s :
  storage (fire_all h videoId (List.map progress_call events) s) = storage s
  /\ runs (fire_all h videoId (List.map progress_call events) s) = runs s
  /\ forall k client,
       clients s !! k = Some client ->
       clients (fire_all h videoId (List.map progress_call events) s) !! k
       = Some (if readyState client =? 1
               then {| readyState := readyState client;
                       inbox := (inbox client
                                 ++ List.map (fun e => payload_of videoId
                                                 (processing_status (fst e) (snd e)))
                                             events)%list;
                       watching := watching client |}
               else client).
Proof.
  rewrite fire_all_progress. simpl. repeat split.
  intros k client Hk.
  change (List.map (deliver (progress_payloads videoId events)) (clients s))
    with (deliver (progress_payloads videoId events) <$> clients s).
  rewrite list_lookup_fmap, Hk. reflexivity.
Qed.

Ltac split_all := repeat match goal with |- _ /\ _ => split end.

(** What the loop of [onComplete] leaves in the store. *)
Lemma saveClips_store h vid i results st acc :
  exists new,
    MemStorage.clips (fst (saveClips h vid i results st acc))
    = (MemStorage.clips st ++ new)%list
    /\ snd (saveClips h vid i results st acc) = (acc ++ List.map clipInfo_of new)%list
    /\ length new = length results
    /\ Forall (fun c => clip_videoId c = vid /\ i <= clip_sceneIndex c) new
    /\ StronglySorted by_sceneIndex new
    /\ List.map (fun c => (clip_startTime c, clip_endTime c)) new
       = List.map time_range results
    /\ MemStorage.videoId (fst (saveClips h vid i results st acc)) = MemStorage.videoId st
    /\ (store_wf st -> store_wf (fst (saveClips h vid i results st acc))).
Proof.
  revert i st acc. induction results as [| clip rest IH]; intros i st acc.
  - exists []. simpl. rewrite !app_nil_r.
    split_all; auto; first [apply SSorted_nil | apply Forall_nil].
  - cbn [saveClips].
    set (clipData := {| ic_videoId := vid;
                        ic_filename := path_basename h (cr_filePath clip);
                        ic_filePath := cr_filePath clip;
                        ic_thumbnailPath := cr_thumbnailPath clip;
                        ic_startTime := cr_startTime clip;
                        ic_endTime := cr_endTime clip;
                        ic_duration := Js.sub (cr_endTime clip) (cr_startTime clip);
                        ic_sceneIndex := i |}).
    pose proof (createClip_wf clipData st) as Hwf1.
    destruct (MemStorage.createClip clipData st) as [saved st1] eqn:Hcreate.
    assert (Hsaved : MemStorage.clips st1 = (MemStorage.clips st ++ [saved])%list
                     /\ clip_videoId saved = vid /\ clip_sceneIndex saved = i
                     /\ clip_startTime saved = cr_startTime clip
                     /\ clip_endTime saved = cr_endTime clip
                     /\ MemStorage.videoId st1 = MemStorage.videoId st).
    { unfold MemStorage.createClip in Hcreate. injection Hcreate as <- <-.
      simpl. split_all; reflexivity. }
    destruct Hsaved as (Hclips1 & Hvid & Hidx & Hstart & Hend & Hcounter).
    destruct (IH (i + 1) st1 (acc ++ [clipInfo_of saved])%list)
      as (new & Hclips & Hinfos & Hlen & Hall & Hsorted & Hranges & Hc & Hwf).
    exists (saved :: new). simpl in *.
    rewrite Hclips, Hclips1, Hinfos, <- !app_assoc. simpl.
    split_all; auto.
    + constructor; [split; [auto | lia] |].
      eapply Forall_impl; [exact Hall |]. simpl. intros c [? ?]. split; [auto | lia].
    + constructor; [exact Hsorted |].
      eapply Forall_impl; [exact Hall |]. unfold by_sceneIndex. simpl.
      intros c [_ ?]. lia.
    + unfold time_range at 1. rewrite Hstart, Hend, Hranges. reflexivity.
    + congruence.
Qed.

Lemma saveClips_lookup h vid i results st acc id :
  MemStorage.videos (fst (saveClips h vid i results st acc)) !! id
  = MemStorage.videos st !! id.
Proof. rewrite saveClips_videos. reflexivity. Qed.

(** [onComplete] on a stored video, in full. *)
Lemma onComplete_body_stored h vid results st stored :
  MemStorage.getVideo vid st = Some stored ->
  exists new st',
    onComplete_body h vid results st
    = (st', Some (completed_status (List.map clipInfo_of new)
                    (with_sceneCount
                       {| vi_id := video_id stored;
                          vi_filename := video_filename stored;
                          vi_originalFilename := video_originalFilename stored;
                          vi_fileSize := video_fileSize stored;
                          vi_duration := Some (formatDuration (pr_duration results));
                          vi_format := Some (pr_format results);
                          vi_resolution := Some (pr_resolution results);
                          vi_processingStatus := "completed";
                          vi_sceneCount := None |}
                       (Z.of_nat (length new)))))
    /\ MemStorage.clips st' = (MemStorage.clips st ++ new)%list
    /\ length new = length (pr_clips results)
    /\ Forall (fun c => clip_videoId c = vid /\ 0 <= clip_sceneIndex c) new
    /\ StronglySorted by_sceneIndex new
    /\ List.map (fun c => (clip_startTime c, clip_endTime c)) new
       = List.map time_range (pr_clips results)
    /\ MemStorage.videos st'
       = <[vid := MemStorage.apply_patch stored (completed_patch results)]> (MemStorage.videos st)
    /\ MemStorage.videoId st' = MemStorage.videoId st
    /\ (store_wf st -> store_wf st').
Proof.
  unfold MemStorage.getVideo, onComplete_body. intros Hstored.
  destruct (saveClips_store h vid 0 (pr_clips results) st [])
    as (new & Hclips & Hinfos & Hlen & Hall & Hsorted & Hranges & Hcounter & Hwf).
  pose proof (saveClips_videos h vid 0 (pr_clips results) st []) as Hvideos.
  destruct (saveClips h vid 0 (pr_clips results) st []) as [st1 clips].
  simpl in *. subst clips.
  pose proof (updateVideo_wf vid (completed_patch results) st1) as Hwf2.
  unfold MemStorage.updateVideo in *. rewrite Hvideos, Hstored in *.
  cbn [ret] in *. unfold MemStorage.getVideoInfo. cbn [MemStorage.videos].
  rewrite lookup_insert_eq. cbn [ret].
  eexists new, _. split.
  - unfold completed_patch. rewrite length_map. reflexivity.
  - cbn [MemStorage.clips MemStorage.videos MemStorage.videoId].
    split_all; auto.
    intros Hst. eapply Hwf2; [apply Hwf, Hst | reflexivity].
Qed.

Lemma processVideo_completed_calls h video options calls results :
  processVideo h video options = calls ->
  completion calls = Some results ->
  calls = (List.map progress_call (progress_events calls) ++ [OnComplete results])%list.
Proof.
  intros Hrun Hdone.
  destruct (processVideo_terminal _ _ _ _ Hrun)
    as (final & Hcalls & [(r & -> & Hr & _) | (m & -> & _ & Hnone)]); congruence.
Qed.

Lemma processVideo_failed_calls h video options calls message :
  processVideo h video options = calls ->
  failure calls = Some message ->
  calls = (List.map progress_call (progress_events calls) ++ [OnError message])%list.
Proof.
  intros Hrun Hfailed.
  destruct (processVideo_terminal _ _ _ _ Hrun)
    as (final & Hcalls & [(r & -> & _ & Hnone) | (m & -> & Hm & _)]); congruence.
Qed.

(** X14.  When a run on a stored video completes and all its callbacks have
    fired, the store holds one new clip of that video for each clip of the
    result, after the clips it held; the video has the status "completed"
    and its formatted duration, format and resolution; the other videos are
    as before; and every open socket has been sent the progress events in
    order, then one completed event with the new clips. *)
Theorem completed_run_end_state h video options calls results vid s stored :
  processVideo h video options = calls ->
  completion calls = Some results ->
  MemStorage.getVideo vid (storage s) = Some stored ->
  exists new videoInfo,
    MemStorage.clips (storage (fire_all h vid calls s))
      = (MemStorage.clips (storage s) ++ new)%list
    /\ length new = length (pr_clips results)
    /\ Forall (fun c => clip_videoId c = vid) new
    /\ List.map (fun c => (clip_startTime c, clip_endTime c)) new
       = List.map time_range (pr_clips results)
    /\ MemStorage.getVideo vid (storage (fire_all h vid calls s))
       = Some (MemStorage.apply_patch stored (completed_patch results))
    /\ (forall other, other <> vid ->
          MemStorage.getVideo other (storage (fire_all h vid calls s))
          = MemStorage.getVideo other (storage s))
    /\ clients (fire_all h vid calls s)
       = List.map (deliver (progress_payloads vid (progress_events calls)
                            ++ [payload_of vid
                                  (completed_status (List.map clipInfo_of new) videoInfo)]))
                  (clients s)
    /\ vi_processingStatus videoInfo = "completed"
    /\ vi_sceneCount videoInfo = Some (Z.of_nat (length new))
    /\ runs (fire_all h vid calls s) = runs s.
Proof.
  intros Hrun Hdone Hstored.
  pose proof (processVideo_completed_calls _ _ _ _ _ Hrun Hdone) as Hcalls.
  clear Hrun Hdone. set (events := progress_events calls) in *. clearbody events.
  subst calls.
  rewrite fire_all_app, fire_all_progress. cbn [fire_all fire]. unfold onComplete.
  cbn [storage].
  destruct (onComplete_body_stored h vid results (storage s) stored Hstored)
    as (new & st' & -> & Hclips & Hlen & Hall & _ & Hranges & Hvideos & _).
  eexists new, _. unfold broadcast, with_storage. cbn [storage clients runs].
  rewrite broadcastStatus_deliver, map_deliver_app.
  unfold MemStorage.getVideo. rewrite Hvideos.
  split_all; try reflexivity; try assumption.
  - eapply Forall_impl; [exact Hall |]. simpl. tauto.
  - apply lookup_insert_eq.
  - intros other Hne. apply lookup_insert_ne. congruence.
Qed.

Lemma completed_run_end_state_witness :
  exists new videoInfo,
    MemStorage.clips (storage (fire_all Scenario.host_cuts 1 Scenario.run_cuts
                                 (Scenario.after [Scenario.upload; Connect (Some 1)])))
      = (MemStorage.clips (storage (Scenario.after [Scenario.upload; Connect (Some 1)]))
         ++ new)%list
    /\ length new = 3%nat
    /\ Forall (fun c => clip_videoId c = 1) new
    /\ List.map (fun c => (clip_startTime c, clip_endTime c)) new
       = List.map finite_range [(0, 2000); (2300, 7000); (7000, 10000)]
    /\ MemStorage.getVideo 1
         (storage (fire_all Scenario.host_cuts 1 Scenario.run_cuts
                     (Scenario.after [Scenario.upload; Connect (Some 1)])))
       = Some (MemStorage.apply_patch Scenario.video
                 (completed_patch
                    (Scenario.results_of
                       [Scenario.clip_of "1" 0 2000; Scenario.clip_of "3" 2300 7000;
                        Scenario.clip_of "4" 7000 10000])))
    /\ (forall other, other <> 1 ->
          MemStorage.getVideo other
            (storage (fire_all Scenario.host_cuts 1 Scenario.run_cuts
                        (Scenario.after [Scenario.upload; Connect (Some 1)])))
          = MemStorage.getVideo other
              (storage (Scenario.after [Scenario.upload; Connect (Some 1)])))
    /\ clients (fire_all Scenario.host_cuts 1 Scenario.run_cuts
                  (Scenario.after [Scenario.upload; Connect (Some 1)]))
       = List.map (deliver (progress_payloads 1 (progress_events Scenario.run_cuts)
                            ++ [payload_of 1
                                  (completed_status (List.map clipInfo_of new) videoInfo)]))
                  (clients (Scenario.after [Scenario.upload; Connect (Some 1)]))
    /\ vi_processingStatus videoInfo = "completed"
    /\ vi_sceneCount videoInfo = Some (Z.of_nat (length new))
    /\ runs (fire_all Scenario.host_cuts 1 Scenario.run_cuts
               (Scenario.after [Scenario.upload; Connect (Some 1)]))
       = runs (Scenario.after [Scenario.upload; Connect (Some 1)]).
Proof.
  apply (completed_run_end_state Scenario.host_cuts Scenario.video Scenario.options
           Scenario.run_cuts
           (Scenario.results_of
              [Scenario.clip_of "1" 0 2000; Scenario.clip_of "3" 2300 7000;
               Scenario.clip_of "4" 7000 10000])
           1 (Scenario.after [Scenario.upload; Connect (Some 1)]) Scenario.video);
    vm_compute; reflexivity.
Defined.

(** X15.  When a run on a stored video fails and all its callbacks have
    fired, no clip has been stored, whatever had been extracted before the
    failure; the video has the status "error"; and every open socket has
    been sent the progress events in order, then one error event with the
    message of the failure and no clips. *)
Theorem failed_run_end_state h video options calls message vid s stored :
  processVideo h video options = calls ->
  failure calls = Some message ->
  MemStorage.getVideo vid (storage s) = Some stored ->
  MemStorage.clips (storage (fire_all h vid calls s)) = MemStorage.clips (storage s)
  /\ MemStorage.getVideo vid (storage (fire_all h vid calls s))
     = Some (MemStorage.apply_patch stored (status_patch "error"))
  /\ (forall other, other <> vid ->
        MemStorage.getVideo other (storage (fire_all h vid calls s))
        = MemStorage.getVideo other (storage s))
  /\ clients (fire_all h vid calls s)
     = List.map (deliver (progress_payloads vid (progress_events calls)
                          ++ [payload_of vid (error_status message)]))
                (clients s)
  /\ p_clips (payload_of vid (error_status message)) = None
  /\ runs (fire_all h vid calls s) = runs s.
Proof.
  intros Hrun Hfailed Hstored.
  pose proof (processVideo_failed_calls _ _ _ _ _ Hrun Hfailed) as Hcalls.
  clear Hrun Hfailed. set (events := progress_events calls) in *. clearbody events.
  subst calls.
  rewrite fire_all_app, fire_all_progress. cbn [fire_all fire]. unfold onError.
  cbn [storage]. unfold MemStorage.updateVideoStatus, MemStorage.updateVideo.
  unfold MemStorage.getVideo in *. rewrite Hstored. cbn [ret].
  unfold broadcast, with_storage. cbn [storage clients runs MemStorage.clips
                                        MemStorage.videos].
  rewrite broadcastStatus_deliver, map_deliver_app.
  split_all; try reflexivity.
  - apply lookup_insert_eq.
  - intros other Hne. apply lookup_insert_ne. congruence.
Qed.

Lemma failed_run_end_state_witness :
  let s := Scenario.after [Scenario.upload; Connect (Some 1)] in
  let message := "Failed to extract clip: Command failed: ffmpeg" in
  MemStorage.clips (storage (fire_all Cases.host_clip_fails 1 Cases.run_clip_fails s))
    = MemStorage.clips (storage s)
  /\ MemStorage.getVideo 1 (storage (fire_all Cases.host_clip_fails 1 Cases.run_clip_fails s))
     = Some (MemStorage.apply_patch Scenario.video (status_patch "error"))
  /\ (forall other, other <> 1 ->
        MemStorage.getVideo other
          (storage (fire_all Cases.host_clip_fails 1 Cases.run_clip_fails s))
        = MemStorage.getVideo other (storage s))
  /\ clients (fire_all Cases.host_clip_fails 1 Cases.run_clip_fails s)
     = List.map (deliver (progress_payloads 1 (progress_events Cases.run_clip_fails)
                          ++ [payload_of 1 (error_status message)]))
                (clients s)
  /\ p_clips (payload_of 1 (error_status message)) = None
  /\ runs (fire_all Cases.host_clip_fails 1 Cases.run_clip_fails s) = runs s.
Proof.
  intros s message.
  apply (failed_run_end_state Cases.host_clip_fails Scenario.video Scenario.options
           Cases.run_clip_fails message 1 s Scenario.video);
    vm_compute; reflexivity.
Defined.

(** ** Ids in URLs: printing and [parseInt] *)

Lemma pretty_N_char_digit d :
  (d < 10)%N ->
  Js.is_digit (pretty_N_char d) = true /\ Js.digit_value (pretty_N_char d) = Z.of_N d.
Proof.
  intros Hd.
  assert (Hcases : (d = 0 \/ d = 1 \/ d = 2 \/ d = 3 \/ d = 4 \/ d = 5 \/ d = 6
                    \/ d = 7 \/ d = 8 \/ d = 9)%N) by lia.
  repeat (destruct Hcases as [-> | Hcases]; [split; reflexivity |]).
  subst d. split; reflexivity.
Qed.

Lemma skip_spaces_digit c rest :
  Js.is_digit c = true -> Js.skip_spaces (String c rest) = String c rest.
Proof.
  destruct c as [[] [] [] [] [] [] [] []]; intros H; try discriminate H;
    destruct rest as [| d [| e rest3]]; reflexivity.
Qed.

Lemma skip_spaces_minus rest :
  Js.skip_spaces (String "-" rest) = String "-" rest.
Proof. destruct rest as [| d [| e rest3]]; reflexivity. Qed.

Lemma span_digits_pretty x s :
  Js.span_digits (pretty_N_go x s)
  = (pretty_N_go x (fst (Js.span_digits s)), snd (Js.span_digits s)).
Proof.
  revert s. induction (N.lt_wf_0 x) as [x _ IH]; intros s.
  destruct (decide (x = 0)%N) as [-> | Hx].
  - rewrite !pretty_N_go_0. destruct (Js.span_digits s). reflexivity.
  - rewrite !pretty_N_go_step by lia.
    rewrite IH by (apply N.div_lt; lia).
    cbn [Js.span_digits].
    destruct (pretty_N_char_digit (x `mod` 10)%N) as [-> _];
      [apply N.mod_lt; lia |].
    destruct (Js.span_digits s) as [ds tl]. cbn [fst snd].
    rewrite (pretty_N_go_step x ds) by lia. reflexivity.
Qed.

Lemma digits_to_Z_pretty x s :
  exists k, 0 <= k /\ forall acc,
    Js.digits_to_Z_aux acc (pretty_N_go x s)
    = Js.digits_to_Z_aux (acc * 10 ^ k + Z.of_N x) s.
Proof.
  revert s. induction (N.lt_wf_0 x) as [x _ IH]; intros s.
  destruct (decide (x = 0)%N) as [-> | Hx].
  - exists 0. split; [lia |]. intros acc. rewrite pretty_N_go_0.
    replace (acc * 10 ^ 0 + Z.of_N 0) with acc by (rewrite Z.pow_0_r; simpl; lia).
    reflexivity.
  - assert (Hlt : (x `div` 10 < x)%N) by (apply N.div_lt; lia).
    destruct (IH (x `div` 10)%N Hlt (String (pretty_N_char (x `mod` 10)) s))
      as (k & Hk & Hval).
    exists (k + 1). split; [lia |]. intros acc.
    rewrite pretty_N_go_step by lia. rewrite Hval. cbn [Js.digits_to_Z_aux].
    destruct (pretty_N_char_digit (x `mod` 10)%N) as [_ ->];
      [apply N.mod_lt; lia |].
    f_equal. rewrite Z.pow_add_r by lia.
    rewrite N2Z.inj_div, N2Z.inj_mod.
    assert (Z.of_N x = 10 * (Z.of_N x / 10) + Z.of_N x mod 10)
      by (apply Z.div_mod; lia).
    change (Z.of_N 10) with 10. lia.
Qed.

Lemma pretty_N_go_head x :
  (0 < x)%N ->
  forall s, exists c rest, pretty_N_go x s = String c rest /\ Js.is_digit c = true.
Proof.
  induction (N.lt_wf_0 x) as [x _ IH]; intros Hx s.
  rewrite pretty_N_go_step by lia.
  destruct (decide (x `div` 10 = 0)%N) as [-> | Hq].
  - rewrite pretty_N_go_0. eexists _, _. split; [reflexivity |].
    apply pretty_N_char_digit, N.mod_lt. lia.
  - apply IH; [apply N.div_lt; lia | apply N.neq_0_lt_0, Hq].
Qed.

(** The decimal text of an integer, as [String(n)] and template strings
    print it, is read back by [parseInt] as that integer. *)
Lemma parseInt_pretty (z : Z) : Js.parseInt (pretty z) = Some z.
Proof.
  assert (Hpos : forall p,
            exists c rest,
              pretty_N_go (N.pos p) EmptyString = String c rest
              /\ Js.is_digit c = true
              /\ Js.span_digits (String c rest) = (String c rest, EmptyString)
              /\ Js.digits_to_Z (String c rest) = Z.pos p).
  { intros p.
    assert (Hp : (0 < N.pos p)%N) by reflexivity.
    destruct (pretty_N_go_head (N.pos p) Hp EmptyString) as (c & rest & Hgo & Hc).
    exists c, rest. split; [exact Hgo |]. split; [exact Hc |].
    rewrite <- Hgo. split.
    - rewrite span_digits_pretty. reflexivity.
    - destruct (digits_to_Z_pretty (N.pos p) EmptyString) as (k & _ & Hval).
      unfold Js.digits_to_Z. rewrite Hval. simpl. lia. }
  destruct z as [| p | p].
  - reflexivity.
  - destruct (Hpos p) as (c & rest & Hgo & Hc & Hspan & Hval).
    change (pretty (Z.pos p)) with (pretty_N_go (N.pos p) EmptyString).
    rewrite Hgo. unfold Js.parseInt. rewrite (skip_spaces_digit c rest Hc).
    assert (Hbody : match String c rest with
                    | String "-"%char r => (true, r)
                    | String "+"%char r => (false, r)
                    | _ => (false, String c rest)
                    end = (false, String c rest)).
    { destruct c as [[] [] [] [] [] [] [] []]; try reflexivity; discriminate. }
    rewrite Hbody, Hspan. cbn [fst]. rewrite Hval. reflexivity.
  - destruct (Hpos p) as (c & rest & Hgo & Hc & Hspan & Hval).
    change (pretty (Z.neg p)) with ("-" +:+ pretty_N_go (N.pos p) EmptyString).
    rewrite Hgo. unfold Js.parseInt.
    change ("-" +:+ String c rest) with (String "-" (String c rest)).
    rewrite skip_spaces_minus.
    cbv iota beta. rewrite Hspan. cbn [fst]. rewrite Hval. reflexivity.
Qed.

(** ** The states the server reaches *)

Lemma run_ok_mono h d st st' r :
  (forall id, is_Some (MemStorage.videos st !! id) ->
              is_Some (MemStorage.videos st' !! id)) ->
  run_ok h d st r -> run_ok h d st' r.
Proof. intros Hmono (Hstored & Hrun). split; [apply Hmono, Hstored | exact Hrun]. Qed.

Lemma server_ok_step h d s s' :
  server_ok h d s ->
  store_wf (storage s') ->
  (forall id, is_Some (MemStorage.videos (storage s) !! id) ->
              is_Some (MemStorage.videos (storage s') !! id)) ->
  (exists new vid,
      MemStorage.clips (storage s') = (MemStorage.clips (storage s) ++ new)%list
      /\ Forall (fun c => clip_videoId c = vid) new
      /\ is_Some (MemStorage.videos (storage s') !! vid)) ->
  runs s' = runs s ->
  server_ok h d s'.
Proof.
  intros (_ & Hruns & Hclips) Hwf Hmono (new & vid & Hnew & Hall & Hvid) Hsame.
  split; [exact Hwf |]. split.
  - rewrite Hsame. eapply Forall_impl; [exact Hruns |].
    intros r. apply run_ok_mono, Hmono.
  - rewrite Hnew. apply Forall_app. split.
    + eapply Forall_impl; [exact Hclips |]. intros c. apply Hmono.
    + eapply Forall_impl; [exact Hall |]. simpl. intros c ->. exact Hvid.
Qed.

Lemma insert_keeps_stored (m : gmap Z Video) k v id :
  is_Some (m !! id) -> is_Some (<[k := v]> m !! id).
Proof. intros H. apply lookup_insert_is_Some'. right. exact H. Qed.

Lemma updateVideo_ok h d s id data updated st' :
  server_ok h d s ->
  MemStorage.updateVideo id data (storage s) = inr (updated, st') ->
  server_ok h d (with_storage st' s).
Proof.
  intros Hok Hupdate. pose proof Hok as (Hwf & _).
  apply (server_ok_step h d s); [exact Hok | | | | reflexivity].
  - apply (updateVideo_wf _ _ _ _ _ Hwf Hupdate).
  - unfold MemStorage.updateVideo in Hupdate.
    destruct (MemStorage.videos (storage s) !! id); [| discriminate].
    injection Hupdate as <- <-. simpl. intros ?. apply insert_keeps_stored.
  - unfold MemStorage.updateVideo in Hupdate.
    destruct (MemStorage.videos (storage s) !! id); [| discriminate].
    injection Hupdate as <- <-. simpl.
    exists [], id. rewrite app_nil_r. split; [reflexivity |].
    split; [constructor |]. rewrite lookup_insert_eq. eauto.
Qed.

Lemma broadcast_ok h d vid status s :
  server_ok h d s -> server_ok h d (broadcast vid status s).
Proof. intros H. exact H. Qed.

Lemma fire_ok h d vid call s :
  server_ok h d s ->
  is_Some (MemStorage.videos (storage s) !! vid) ->
  server_ok h d (fire h vid call s)
  /\ runs (fire h vid call s) = runs s
  /\ (forall id, is_Some (MemStorage.videos (storage s) !! id) ->
                 is_Some (MemStorage.videos (storage (fire h vid call s)) !! id)).
Proof.
  intros Hok [stored Hstored]. destruct call as [p stage | results | message]; simpl.
  - split; [exact Hok |]. split; [reflexivity |]. auto.
  - unfold onComplete.
    destruct (onComplete_body_stored h vid results (storage s) stored Hstored)
      as (new & st' & -> & Hclips & _ & Hall & _ & _ & Hvideos & _ & Hwf).
    assert (Hmono : forall id, is_Some (MemStorage.videos (storage s) !! id) ->
                               is_Some (MemStorage.videos st' !! id)).
    { intros id. rewrite Hvideos. apply insert_keeps_stored. }
    split; [| split; [reflexivity | exact Hmono]].
    apply (broadcast_ok h d), (server_ok_step h d s);
      [exact Hok | apply Hwf, Hok | exact Hmono | | reflexivity].
    exists new, vid. split; [exact Hclips |]. split.
    + eapply Forall_impl; [exact Hall |]. simpl. tauto.
    + simpl. rewrite Hvideos, lookup_insert_eq. eauto.
  - unfold onError.
    destruct (MemStorage.updateVideoStatus vid "error" (storage s))
      as [e | [updated st']] eqn:Hupdate.
    + split; [exact Hok |]. split; [reflexivity |]. auto.
    + split; [| split; [reflexivity |]].
      * apply (broadcast_ok h d).
        exact (updateVideo_ok h d s vid _ updated st' Hok Hupdate).
      * unfold MemStorage.updateVideoStatus, MemStorage.updateVideo in Hupdate.
        rewrite Hstored in Hupdate. injection Hupdate as <- <-. simpl.
        intros ?. apply insert_keeps_stored.
Qed.

Lemma advance_ok h d k s : server_ok h d s -> server_ok h d (advance h k s).
Proof.
  intros Hok. unfold advance.
  destruct (runs s !! k) as [r |] eqn:Hk; [| exact Hok].
  destruct (pending r) as [| call more] eqn:Hpending; [exact Hok |].
  pose proof Hok as (_ & Hruns & _).
  pose proof (proj1 (Forall_lookup _ _) Hruns k r Hk) as (Hstored & video & Hid & Hrun).
  destruct (fire_ok h d (run_videoId r) call s Hok Hstored)
    as ((Hwf & Hruns' & Hclips') & Hsame & Hmono).
  split; [exact Hwf |]. split; [| exact Hclips'].
  cbn [storage runs]. apply Forall_insert; [exact Hruns' |].
  split; [apply Hmono, Hstored |]. exists video. cbn [run_videoId fired pending].
  split; [exact Hid |]. rewrite Hrun, Hpending, <- app_assoc. reflexivity.
Qed.

Lemma handle_process_ok h d idParam s :
  server_ok h d s -> server_ok h d (snd (handle_process h d idParam s)).
Proof.
  intros Hok. unfold handle_process.
  destruct (Js.parseInt idParam) as [vid |]; [| exact Hok].
  destruct (MemStorage.getVideo vid (storage s)) as [video |] eqn:Hvideo;
    [| exact Hok].
  destruct (MemStorage.updateVideoStatus vid "processing" (storage s))
    as [e | [updated st']] eqn:Hupdate; [exact Hok |].
  cbn [snd].
  pose proof (updateVideo_ok h d s vid _ updated st' Hok Hupdate) as (Hwf & Hruns & Hclips).
  pose proof Hok as ((Hvideos & _) & _).
  split; [exact Hwf |]. split; [| exact Hclips].
  cbn [storage runs fire_all fire processVideo_sync onProgress broadcast with_storage] in *.
  apply Forall_app. split; [exact Hruns |]. constructor; [| constructor].
  split; cbn [run_videoId fired pending].
  - unfold MemStorage.updateVideoStatus, MemStorage.updateVideo in Hupdate.
    unfold MemStorage.getVideo in Hvideo. rewrite Hvideo in Hupdate.
    injection Hupdate as <- <-. simpl. rewrite lookup_insert_eq. eauto.
  - exists video. split; [apply (Hvideos vid video Hvideo) |].
    reflexivity.
Qed.

Lemma apply_event_ok h d e s :
  server_ok h d s -> server_ok h d (apply_event h d e s).
Proof.
  intros Hok.
  destruct e as [filename originalname path size | w | k | idParam | k];
    cbn [apply_event].
  - apply (server_ok_step h d s); [exact Hok | | | | reflexivity].
    + exact (createVideo_wf
               {| iv_filename := filename; iv_originalFilename := originalname;
                  iv_filePath := path; iv_fileSize := size;
                  iv_processingStatus := "pending" |} (storage s) (proj1 Hok)).
    + simpl. intros ?. apply insert_keeps_stored.
    + simpl. exists [], (MemStorage.videoId (storage s)). rewrite app_nil_r.
      split; [reflexivity |]. split; [constructor |]. rewrite lookup_insert_eq. eauto.
  - exact Hok.
  - exact Hok.
  - apply handle_process_ok, Hok.
  - apply advance_ok, Hok.
Qed.

Lemma apply_events_ok h d es s :
  server_ok h d s -> server_ok h d (apply_events h d es s).
Proof.
  revert s. induction es as [| e es IH]; intros s Hok; simpl; [exact Hok |].
  apply IH, apply_event_ok, Hok.
Qed.

Lemma initial_ok h d : server_ok h d initial.
Proof.
  split; [apply store_wf_empty |]. split; constructor.
Qed.

Lemma reachable_ok h d es s : apply_events h d es initial = s -> server_ok h d s.
Proof. intros <-. apply apply_events_ok, initial_ok. Qed.

(** X16.  In every state the server reaches from its start by uploads,
    socket connections and closes, start requests and callbacks, every video
    is stored under its own id, every stored clip is found under its own id
    and belongs to a stored video, and every run replays a call of
    [processVideo] on a video whose id is stored. *)
Theorem reachable_state_consistent h d es s :
  apply_events h d es initial = s ->
  (forall id v, MemStorage.getVideo id (storage s) = Some v -> video_id v = id)
  /\ (forall k c,
        MemStorage.clips (storage s) !! k = Some c ->
        MemStorage.getClip (clip_id c) (storage s) = Some c
        /\ is_Some (MemStorage.getVideo (clip_videoId c) (storage s)))
  /\ (forall k r,
        runs s !! k = Some r ->
        is_Some (MemStorage.getVideo (run_videoId r) (storage s))
        /\ exists video,
             video_id video = run_videoId r
             /\ processVideo h video (route_options d) = (fired r ++ pending r)%list).
Proof.
  intros ((Hvideos & _ & _ & _ & Hsorted) & Hruns & Hclips)%reachable_ok.
  split; [| split].
  - intros id v Hv. apply (Hvideos id v Hv).
  - intros k c Hk. split.
    + apply find_by_id_member; [exact Hsorted |]. eapply list_elem_of_lookup_2, Hk.
    + apply (proj1 (Forall_lookup _ _) Hclips k c Hk).
  - intros k r Hk. apply (proj1 (Forall_lookup _ _) Hruns k r Hk).
Qed.

Lemma reachable_state_consistent_witness :
  (forall id v, MemStorage.getVideo id (storage Cases.finished) = Some v -> video_id v = id)
  /\ (forall k c,
        MemStorage.clips (storage Cases.finished) !! k = Some c ->
        MemStorage.getClip (clip_id c) (storage Cases.finished) = Some c
        /\ is_Some (MemStorage.getVideo (clip_videoId c) (storage Cases.finished)))
  /\ (forall k r,
        runs Cases.finished !! k = Some r ->
        is_Some (MemStorage.getVideo (run_videoId r) (storage Cases.finished))
        /\ exists video,
             video_id video = run_videoId r
             /\ processVideo Scenario.host_cuts video (route_options Scenario.dirs)
                = (fired r ++ pending r)%list).
Proof.
  apply (reachable_state_consistent Scenario.host_cuts Scenario.dirs Cases.whole_run
           Cases.finished).
  vm_compute. reflexivity.
Defined.

(** X17.  In a reachable state, the thumbnail and download routes asked for
    the id of a stored clip (as printed in the clip's [url] and
    [thumbnailUrl]) serve that clip's own files whenever they are on disk:
    the answers "Invalid clip ID", "Clip not found" and "Video not found"
    do not occur. *)
Theorem clip_routes_serve_stored_clip h d es s disk k c :
  apply_events h d es initial = s ->
  MemStorage.clips (storage s) !! k = Some c ->
  handle_thumbnail disk (pretty (clip_id c)) s
  = (if existsSync disk (clip_thumbnailPath c) then SendFile (clip_thumbnailPath c)
     else Refuse 404 "Thumbnail not found")
  /\ exists video,
       MemStorage.getVideo (clip_videoId c) (storage s) = Some video
       /\ handle_download h disk (pretty (clip_id c)) s
          = (if existsSync disk (clip_filePath c)
             then Download (clip_filePath c) (downloadName h disk video c)
             else Refuse 404 "Clip file not found").
Proof.
  intros ((_ & _ & _ & _ & Hsorted) & _ & Hclips)%reachable_ok Hk.
  assert (Hfound : MemStorage.getClip (clip_id c) (storage s) = Some c).
  { apply find_by_id_member; [exact Hsorted |]. eapply list_elem_of_lookup_2, Hk. }
  destruct (proj1 (Forall_lookup _ _) Hclips k c Hk) as [video Hvideo].
  unfold handle_thumbnail, handle_download.
  rewrite parseInt_pretty, Hfound. split; [reflexivity |].
  exists video. split; [exact Hvideo |].
  unfold MemStorage.getVideo. rewrite Hvideo. reflexivity.
Qed.

Lemma clip_routes_serve_stored_clip_witness :
  handle_thumbnail Cases.disk "2" Cases.finished
  = SendFile "uploads/thumbnails/a1b2_scene_3.jpg"
  /\ exists video,
       MemStorage.getVideo 1 (storage Cases.finished) = Some video
       /\ handle_download Scenario.host_cuts Cases.disk "2" Cases.finished
          = Download "uploads/clips/a1b2_scene_3.mp4"
              (downloadName Scenario.host_cuts Cases.disk video
                 (Cases.stored_clip 2 1 "3" 2300 7000)).
Proof.
  apply (clip_routes_serve_stored_clip Scenario.host_cuts Scenario.dirs Cases.whole_run
           Cases.finished Cases.disk 1%nat (Cases.stored_clip 2 1 "3" 2300 7000));
    vm_compute; reflexivity.
Defined.

Lemma filter_by_video_none vid (l : list Clip) :
  Forall (fun c => clip_videoId c <> vid) l ->
  List.filter (fun c => clip_videoId c =? vid) l = [].
Proof.
  induction 1 as [| c l Hc _ IH]; simpl; [reflexivity |].
  rewrite (proj2 (Z.eqb_neq _ _) Hc). exact IH.
Qed.

Lemma filter_by_video_all vid (l : list Clip) :
  Forall (fun c => clip_videoId c = vid) l ->
  List.filter (fun c => clip_videoId c =? vid) l = l.
Proof.
  induction 1 as [| c l Hc _ IH]; simpl; [reflexivity |].
  rewrite (proj2 (Z.eqb_eq _ _) Hc), IH. reflexivity.
Qed.

(** X18.  In a reachable state, an upload is answered with an id that no
    video had, and the status route asked for that id then reports
    "pending", progress 0, no clips and a scene count of 0; sockets and
    runs are untouched. *)
Theorem upload_then_status h d es s f :
  apply_events h d es initial = s ->
  exists id s',
    handle_upload (Some f) s = (inr (id, file_filename f, file_originalname f), s')
    /\ MemStorage.getVideo id (storage s) = None
    /\ handle_status (pretty id) s'
       = StatusBody
           {| sr_status := "pending";
              sr_progress := 0;
              sr_clips := [];
              sr_videoInfo :=
                {| vi_id := id;
                   vi_filename := file_filename f;
                   vi_originalFilename := file_originalname f;
                   vi_fileSize := file_size f;
                   vi_duration := None;
                   vi_format := None;
                   vi_resolution := None;
                   vi_processingStatus := "pending";
                   vi_sceneCount := Some 0 |} |}
    /\ clients s' = clients s
    /\ runs s' = runs s.
Proof.
  intros ((Hvideos & _) & _ & Hclips)%reachable_ok.
  assert (Hfresh : MemStorage.videos (storage s) !! MemStorage.videoId (storage s) = None).
  { destruct (MemStorage.videos (storage s) !! MemStorage.videoId (storage s))
      as [v |] eqn:Hv; [| reflexivity].
    pose proof (Hvideos _ _ Hv). lia. }
  eexists _, _. unfold handle_upload. cbn [MemStorage.createVideo].
  split; [reflexivity |]. split; [exact Hfresh |].
  split; [| split; reflexivity].
  unfold handle_status. rewrite parseInt_pretty.
  unfold MemStorage.getVideo, MemStorage.getVideoInfo, MemStorage.getClipsByVideo.
  cbn [with_storage storage MemStorage.videos MemStorage.clips video_id].
  rewrite lookup_insert_eq. cbn [ret].
  rewrite filter_by_video_none; [reflexivity |].
  eapply Forall_impl; [exact Hclips |]. simpl. intros c [v Hv] Heq.
  rewrite Heq, Hfresh in Hv. discriminate.
Qed.

Lemma upload_then_status_witness :
  exists id s',
    handle_upload (Some {| file_filename := "c3d4.mp4"; file_originalname := "party.mp4";
                           file_path := "uploads/c3d4.mp4"; file_size := 2048 |})
      Cases.finished
    = (inr (id, "c3d4.mp4", "party.mp4"), s')
    /\ MemStorage.getVideo id (storage Cases.finished) = None
    /\ handle_status (pretty id) s'
       = StatusBody
           {| sr_status := "pending";
              sr_progress := 0;
              sr_clips := [];
              sr_videoInfo :=
                {| vi_id := id;
                   vi_filename := "c3d4.mp4";
                   vi_originalFilename := "party.mp4";
                   vi_fileSize := 2048;
                   vi_duration := None;
                   vi_format := None;
                   vi_resolution := None;
                   vi_processingStatus := "pending";
                   vi_sceneCount := Some 0 |} |}
    /\ clients s' = clients Cases.finished
    /\ runs s' = runs Cases.finished.
Proof.
  apply (upload_then_status Scenario.host_cuts Scenario.dirs Cases.whole_run Cases.finished
           {| file_filename := "c3d4.mp4"; file_originalname := "party.mp4";
              file_path := "uploads/c3d4.mp4"; file_size := 2048 |}).
  vm_compute. reflexivity.
Defined.

(** ** Asking for the status *)

(** C9 (as the code has it).  The status route answers from the store and
    nothing else: the stored processing status; as progress 100 when that
    status is "completed" and 0 otherwise; the stored clips of the video in
    the order of their scene indices; the stored video info with the number
    of those clips.  The answer has no stage and no error text.  Sockets
    and runs have no part in it, and the progress events of a run, of this
    video or of another, leave it as it was.  Right after a request to
    start a run of the video, the answer is "processing" with progress 0
    and the clips and video info stored before.  And in a state that the
    server reaches, the progress of the answer is never the percentage that
    a run has reported last, unless that percentage is 100. *)
Theorem status_reports_the_store idParam videoId s video :
  Js.parseInt idParam = Some videoId ->
  MemStorage.getVideo videoId (storage s) = Some video ->
  let clips := MemStorage.getClipsByVideo videoId (storage s) in
  handle_status idParam s
  = StatusBody
      {| sr_status := video_processingStatus video;
         sr_progress :=
           if String.eqb (video_processingStatus video) "completed" then 100 else 0;
         sr_clips := List.map clipInfo_of clips;
         sr_videoInfo :=
           {| vi_id := video_id video;
              vi_filename := video_filename video;
              vi_originalFilename := video_originalFilename video;
              vi_fileSize := video_fileSize video;
              vi_duration := video_duration video;
              vi_format := video_format video;
              vi_resolution := video_resolution video;
              vi_processingStatus := video_processingStatus video;
              vi_sceneCount := Some (Z.of_nat (length clips)) |} |}
  /\ (forall s', storage s' = storage s -> handle_status idParam s' = handle_status idParam s)
  /\ (forall h running events,
        handle_status idParam (fire_all h running (List.map progress_call events) s)
        = handle_status idParam s)
  /\ (forall h d,
        handle_status idParam (snd (handle_process h d idParam s))
        = StatusBody
            {| sr_status := "processing";
               sr_progress := 0;
               sr_clips := List.map clipInfo_of clips;
               sr_videoInfo :=
                 {| vi_id := video_id video;
                    vi_filename := video_filename video;
                    vi_originalFilename := video_originalFilename video;
                    vi_fileSize := video_fileSize video;
                    vi_duration := video_duration video;
                    vi_format := video_format video;
                    vi_resolution := video_resolution video;
                    vi_processingStatus := "processing";
                    vi_sceneCount := Some (Z.of_nat (length clips)) |} |})
  /\ (forall h d es r p,
        apply_events h d es initial = s ->
        r ∈ runs s ->
        current_progress r = Some p ->
        p <> 100 ->
        exists body, handle_status idParam s = StatusBody body /\ sr_progress body <> p).
Proof.
  intros Hid Hvideo clips.
  assert (Hanswer :
    handle_status idParam s
    = StatusBody
        {| sr_status := video_processingStatus video;
           sr_progress :=
             if String.eqb (video_processingStatus video) "completed" then 100 else 0;
           sr_clips := List.map clipInfo_of clips;
           sr_videoInfo :=
             {| vi_id := video_id video;
                vi_filename := video_filename video;
                vi_originalFilename := video_originalFilename video;
                vi_fileSize := video_fileSize video;
                vi_duration := video_duration video;
                vi_format := video_format video;
                vi_resolution := video_resolution video;
                vi_processingStatus := video_processingStatus video;
                vi_sceneCount := Some (Z.of_nat (length clips)) |} |}).
  { unfold handle_status. rewrite Hid, Hvideo.
    unfold MemStorage.getVideoInfo. unfold MemStorage.getVideo in Hvideo.
    rewrite Hvideo. reflexivity. }
  split; [exact Hanswer |]. split; [| split; [| split]].
  - intros s' Hsame. unfold handle_status. rewrite Hsame. reflexivity.
  - intros h running events. rewrite fire_all_progress. reflexivity.
  - intros h d. unfold handle_process. rewrite Hid, Hvideo.
    unfold MemStorage.updateVideoStatus, MemStorage.updateVideo.
    unfold MemStorage.getVideo in Hvideo. rewrite Hvideo. cbn [ret snd].
    unfold handle_status. rewrite Hid. cbn [storage].
    unfold MemStorage.getVideo, MemStorage.getVideoInfo. simpl.
    rewrite lookup_insert_eq. reflexivity.
  - intros h d es r p (_ & Hruns & _)%reachable_ok Hr Hlast Hnot.
    eexists. split; [exact Hanswer |]. cbn [sr_progress].
    rewrite Forall_forall in Hruns.
    destruct (Hruns r Hr) as (_ & replayed & _ & Hrun).
    pose proof (processVideo_percentages_bounds h replayed (route_options d)) as Hall.
    rewrite Hrun in Hall. unfold percentages in Hall.
    rewrite progress_events_app, map_app in Hall. apply Forall_app in Hall as [Hfired _].
    apply last_Some_elem_of in Hlast. rewrite Forall_forall in Hfired.
    apply Hfired in Hlast.
    destruct (String.eqb _ _); lia.
Qed.

(** The server two callbacks into the run of video 1. *)
Lemma extracting_evaluated :
  apply_events Scenario.host_cuts Scenario.dirs
    [Scenario.upload; Connect (Some 1); Process "1"; Advance 0; Advance 0] initial
  = Scenario.extracting
  /\ List.map current_progress (runs Scenario.extracting) = [Some 30]
  /\ List.map current_stage (runs Scenario.extracting) = [Some "Extracting clips..."]
  /\ List.map (fun c => last (inbox c)) (clients Scenario.extracting)
     = [Some (payload_of 1 (processing_status 30 "Extracting clips..."))].
Proof. repeat split; vm_compute; reflexivity. Qed.

Lemma status_reports_the_store_witness :
  handle_status "1" Scenario.extracting
  = StatusBody
      {| sr_status := "processing";
         sr_progress := 0;
         sr_clips := [];
         sr_videoInfo :=
           {| vi_id := 1;
              vi_filename := "a1b2.mp4";
              vi_originalFilename := "holiday.mp4";
              vi_fileSize := 1048576;
              vi_duration := None;
              vi_format := None;
              vi_resolution := None;
              vi_processingStatus := "processing";
              vi_sceneCount := Some 0 |} |}
  /\ (forall s', storage s' = storage Scenario.extracting ->
                 handle_status "1" s' = handle_status "1" Scenario.extracting)
  /\ (forall h running events,
        handle_status "1"
          (fire_all h running (List.map progress_call events) Scenario.extracting)
        = handle_status "1" Scenario.extracting)
  /\ (forall h d,
        handle_status "1" (snd (handle_process h d "1" Scenario.extracting))
        = StatusBody
            {| sr_status := "processing";
               sr_progress := 0;
               sr_clips := [];
               sr_videoInfo :=
                 {| vi_id := 1;
                    vi_filename := "a1b2.mp4";
                    vi_originalFilename := "holiday.mp4";
                    vi_fileSize := 1048576;
                    vi_duration := None;
                    vi_format := None;
                    vi_resolution := None;
                    vi_processingStatus := "processing";
                    vi_sceneCount := Some 0 |} |})
  /\ (forall h d es r p,
        apply_events h d es initial = Scenario.extracting ->
        r ∈ runs Scenario.extracting ->
        current_progress r = Some p ->
        p <> 100 ->
        exists body,
          handle_status "1" Scenario.extracting = StatusBody body
          /\ sr_progress body <> p).
Proof.
  apply (status_reports_the_store "1" 1 Scenario.extracting
           {| video_id := 1;
              video_filename := "a1b2.mp4";
              video_originalFilename := "holiday.mp4";
              video_filePath := "uploads/a1b2.mp4";
              video_fileSize := 1048576;
              video_duration := None;
              video_format := None;
              video_resolution := None;
              video_processingStatus := "processing" |});
    vm_compute; reflexivity.
Defined.

(** A run can be active while the route answers "completed" and 100: of two
    overlapping runs of video 1, the first has completed and the second has
    only made its first call. *)
Lemma status_completed_while_run_active :
  let s := Scenario.after
             [Scenario.upload; Connect (Some 1); Process "1"; Process "1";
              Advance 0; Advance 0; Advance 0; Advance 0; Advance 0; Advance 0;
              Advance 0] in
  List.map active (runs s) = [false; true]
  /\ exists body,
       handle_status "1" s = StatusBody body
       /\ sr_status body = "completed" /\ sr_progress body = 100
       /\ length (sr_clips body) = 3%nat.
Proof.
  split; [vm_compute; reflexivity |].
  eexists. split; [vm_compute; reflexivity |]. repeat split.
Qed.

(** C9 as stated fails.  While the run of video 1 is at the start of
    extraction (its last progress event, sent to the open page, says 30 %
    and "Extracting clips..."), the status route answers with progress 0. *)
Lemma status_progress_is_not_current :
  ~ (forall idParam videoId s r,
       Js.parseInt idParam = Some videoId ->
       In r (runs s) ->
       run_videoId r = videoId ->
       active r = true ->
       exists body,
         handle_status idParam s = StatusBody body
         /\ Some (sr_progress body) = current_progress r).
Proof.
  intros Hclaim.
  destruct (Hclaim "1" 1 Scenario.extracting
              {| run_videoId := 1;
                 fired := [OnProgress 5 "Analyzing video...";
                           OnProgress 15 "Detecting scenes...";
                           OnProgress 30 "Extracting clips..."];
                 pending := List.skipn 3 Scenario.run_cuts |})
    as (body & Hbody & Hprogress).
  - reflexivity.
  - vm_compute. left. reflexivity.
  - reflexivity.
  - reflexivity.
  - vm_compute in Hbody. injection Hbody as <-.
    vm_compute in Hprogress. discriminate.
Qed.

(** ** The status route after a run *)

Lemma getClipsByVideo_app vid st new :
  Forall (fun c => clip_videoId c = vid) new ->
  forall st',
    MemStorage.clips st' = (MemStorage.clips st ++ new)%list ->
    MemStorage.getClipsByVideo vid st'
    = MemStorage.sort_by_sceneIndex
        (List.filter (fun c => clip_videoId c =? vid) (MemStorage.clips st) ++ new)
    /\ forall other, other <> vid ->
         MemStorage.getClipsByVideo other st' = MemStorage.getClipsByVideo other st.
Proof.
  intros Hall st' Hclips. unfold MemStorage.getClipsByVideo.
  rewrite Hclips. split.
  - rewrite List.filter_app, (filter_by_video_all vid new Hall). reflexivity.
  - intros other Hne.
    rewrite List.filter_app, (filter_by_video_none other new), app_nil_r;
      [reflexivity |].
    eapply Forall_impl; [exact Hall |]. simpl. congruence.
Qed.

(** X19.  When a run completes on a stored video that had no clips, the
    status route then answers exactly what the completed event carried:
    status "completed", progress 100, the same clips in the same order and
    the same video info. *)
Theorem status_agrees_with_completed_event h video options calls results vid s stored :
  processVideo h video options = calls ->
  completion calls = Some results ->
  MemStorage.getVideo vid (storage s) = Some stored ->
  MemStorage.getClipsByVideo vid (storage s) = [] ->
  exists clips videoInfo,
    clients (fire_all h vid calls s)
    = List.map (deliver (progress_payloads vid (progress_events calls)
                         ++ [payload_of vid (completed_status clips videoInfo)]))
               (clients s)
    /\ handle_status (pretty vid) (fire_all h vid calls s)
       = StatusBody {| sr_status := "completed"; sr_progress := 100;
                       sr_clips := clips; sr_videoInfo := videoInfo |}.
Proof.
  intros Hrun Hdone Hstored Hnone.
  pose proof (processVideo_completed_calls _ _ _ _ _ Hrun Hdone) as Hcalls.
  clear Hrun Hdone. set (events := progress_events calls) in *. clearbody events.
  subst calls.
  rewrite fire_all_app, fire_all_progress. cbn [fire_all fire]. unfold onComplete.
  cbn [storage].
  destruct (onComplete_body_stored h vid results (storage s) stored Hstored)
    as (new & st' & -> & Hclips & _ & Hall & Hsorted & _ & Hvideos & _).
  eexists _, _. unfold broadcast, with_storage. cbn [storage clients runs].
  rewrite broadcastStatus_deliver, map_deliver_app. split; [reflexivity |].
  assert (Hvid : Forall (fun c => clip_videoId c = vid) new).
  { eapply Forall_impl; [exact Hall |]. simpl. tauto. }
  assert (Hold : List.filter (fun c => clip_videoId c =? vid)
                   (MemStorage.clips (storage s)) = []).
  { apply Permutation_nil. rewrite <- Hnone.
    apply sort_by_sceneIndex_perm. }
  destruct (getClipsByVideo_app vid (storage s) new Hvid st' Hclips) as [Hmine _].
  rewrite Hold in Hmine. cbn [app] in Hmine.
  rewrite (sort_by_sceneIndex_sorted_id new Hsorted) in Hmine.
  unfold handle_status. rewrite parseInt_pretty.
  unfold MemStorage.getVideo, MemStorage.getVideoInfo. cbn [storage].
  rewrite Hmine, Hvideos, lookup_insert_eq. cbn [ret]. reflexivity.
Qed.

Lemma status_agrees_with_completed_event_witness :
  exists clips videoInfo,
    clients (fire_all Scenario.host_cuts 1 Scenario.run_cuts
               (Scenario.after [Scenario.upload; Connect (Some 1)]))
    = List.map (deliver (progress_payloads 1 (progress_events Scenario.run_cuts)
                         ++ [payload_of 1 (completed_status clips videoInfo)]))
               (clients (Scenario.after [Scenario.upload; Connect (Some 1)]))
    /\ handle_status "1" (fire_all Scenario.host_cuts 1 Scenario.run_cuts
                            (Scenario.after [Scenario.upload; Connect (Some 1)]))
       = StatusBody {| sr_status := "completed"; sr_progress := 100;
                       sr_clips := clips; sr_videoInfo := videoInfo |}.
Proof.
  apply (status_agrees_with_completed_event Scenario.host_cuts Scenario.video
           Scenario.options Scenario.run_cuts
           (Scenario.results_of
              [Scenario.clip_of "1" 0 2000; Scenario.clip_of "3" 2300 7000;
               Scenario.clip_of "4" 7000 10000])
           1 (Scenario.after [Scenario.upload; Connect (Some 1)]) Scenario.video);
    vm_compute; reflexivity.
Defined.

(** X20.  A completed run never removes or replaces the clips of earlier
    runs: afterwards the status route lists, for the video of the run, the
    clips it listed before and the new ones together, and counts them all
    in [sceneCount]; for any other video it lists what it listed before. *)
Theorem completed_run_keeps_earlier_clips h video options calls results vid s stored :
  processVideo h video options = calls ->
  completion calls = Some results ->
  MemStorage.getVideo vid (storage s) = Some stored ->
  (exists body,
      handle_status (pretty vid) (fire_all h vid calls s) = StatusBody body
      /\ length (sr_clips body)
         = (length (MemStorage.getClipsByVideo vid (storage s))
            + length (pr_clips results))%nat
      /\ vi_sceneCount (sr_videoInfo body) = Some (Z.of_nat (length (sr_clips body)))
      /\ forall c, c ∈ MemStorage.getClipsByVideo vid (storage s) ->
                   clipInfo_of c ∈ sr_clips body)
  /\ forall other, other <> vid ->
       MemStorage.getClipsByVideo other (storage (fire_all h vid calls s))
       = MemStorage.getClipsByVideo other (storage s).
Proof.
  intros Hrun Hdone Hstored.
  pose proof (processVideo_completed_calls _ _ _ _ _ Hrun Hdone) as Hcalls.
  clear Hrun Hdone. set (events := progress_events calls) in *. clearbody events.
  subst calls.
  rewrite fire_all_app, fire_all_progress. cbn [fire_all fire]. unfold onComplete.
  cbn [storage].
  destruct (onComplete_body_stored h vid results (storage s) stored Hstored)
    as (new & st' & -> & Hclips & Hlen & Hall & _ & _ & Hvideos & _).
  unfold broadcast, with_storage. cbn [storage clients runs].
  assert (Hvid : Forall (fun c => clip_videoId c = vid) new).
  { eapply Forall_impl; [exact Hall |]. simpl. tauto. }
  destruct (getClipsByVideo_app vid (storage s) new Hvid st' Hclips) as [Hmine Hothers].
  split; [| exact Hothers].
  unfold handle_status. rewrite parseInt_pretty.
  unfold MemStorage.getVideo, MemStorage.getVideoInfo. cbn [storage].
  rewrite Hvideos, lookup_insert_eq. cbn [ret].
  eexists. split; [reflexivity |]. cbn [sr_clips sr_videoInfo with_sceneCount vi_sceneCount].
  rewrite !length_map. split; [| split; [reflexivity |]].
  - rewrite Hmine, (Permutation_length (sort_by_sceneIndex_perm _)), length_app.
    unfold MemStorage.getClipsByVideo.
    rewrite (Permutation_length (sort_by_sceneIndex_perm _)), Hlen. reflexivity.
  - intros c Hc. apply list_elem_of_fmap. exists c. split; [reflexivity |].
    rewrite Hmine, sort_by_sceneIndex_perm. apply elem_of_app. left.
    unfold MemStorage.getClipsByVideo in Hc.
    rewrite sort_by_sceneIndex_perm in Hc. exact Hc.
Qed.

Lemma completed_run_keeps_earlier_clips_witness :
  (exists body,
      handle_status "1" (fire_all Scenario.host_cuts 1 Scenario.run_cuts Cases.finished)
      = StatusBody body
      /\ length (sr_clips body) = 6%nat
      /\ vi_sceneCount (sr_videoInfo body) = Some (Z.of_nat (length (sr_clips body)))
      /\ forall c, c ∈ MemStorage.getClipsByVideo 1 (storage Cases.finished) ->
                   clipInfo_of c ∈ sr_clips body)
  /\ forall other, other <> 1 ->
       MemStorage.getClipsByVideo other
         (storage (fire_all Scenario.host_cuts 1 Scenario.run_cuts Cases.finished))
       = MemStorage.getClipsByVideo other (storage Cases.finished).
Proof.
  apply (completed_run_keeps_earlier_clips Scenario.host_cuts Scenario.video
           Scenario.options Scenario.run_cuts
           (Scenario.results_of
              [Scenario.clip_of "1" 0 2000; Scenario.clip_of "3" 2300 7000;
               Scenario.clip_of "4" 7000 10000])
           1 Cases.finished
           (MemStorage.apply_patch Scenario.video
              (completed_patch
                 (Scenario.results_of
                    [Scenario.clip_of "1" 0 2000; Scenario.clip_of "3" 2300 7000;
                     Scenario.clip_of "4" 7000 10000]))));
    vm_compute; reflexivity.
Defined.

(** ** Durations, as the server and the page print them *)

(** X21.  Below one hour the server's [formatDuration] and the page's print
    a duration alike; from one hour on the server adds an hours field while
    the page lets the minutes run past 59. *)
Theorem formatDuration_server_and_page ms :
  (0 <= ms < 3600000 -> Routes.formatDuration (Js.Fin ms) = Page.formatDuration ms)
  /\ (3600000 <= ms ->
      Routes.formatDuration (Js.Fin ms)
      = Js.pad2 (ms / 3600000) +:+ ":" +:+ Page.formatDuration (ms mod 3600000)
      /\ Page.formatDuration ms
         = Js.pad2 (ms / 60000) +:+ ":" +:+ Js.pad2 (ms / 1000 mod 60)).
Proof.
  unfold Routes.formatDuration, Page.formatDuration. cbv zeta.
  cbn [Js.floor_div Js.rem Js.ltb]. unfold Js.pad2_number, Js.pad2.
  cbn [Js.to_string]. split.
  - intros Hms.
    assert (Hts : 0 <= ms / 1000 < 3600)
      by (split; [apply Z.div_pos; lia | apply Z.div_lt_upper_bound; lia]).
    rewrite (Z.div_small (ms / 1000) 3600) by lia.
    change (0 <? 0) with false. cbv iota.
    rewrite (Z.rem_small (ms / 1000) 3600) by lia. reflexivity.
  - intros Hms.
    assert (Hts : 3600 <= ms / 1000) by (apply Z.div_le_lower_bound; lia).
    assert (Hhours : 0 < ms / 1000 / 3600)
      by (apply Z.div_str_pos; lia).
    rewrite (proj2 (Z.ltb_lt _ _) Hhours).
    rewrite !Z.rem_mod_nonneg by lia.
    assert (Hmod : ms mod 3600000 / 1000 = (ms / 1000) mod 3600).
    { rewrite (Z.mod_eq ms 3600000), (Z.mod_eq (ms / 1000) 3600) by lia.
      rewrite Z.div_div by lia. change (1000 * 3600) with 3600000.
      replace (ms - 3600000 * (ms / 3600000))
        with (ms + (- (3600 * (ms / 3600000))) * 1000) by lia.
      rewrite Z.div_add by lia. lia. }
    rewrite Hmod.
    pose proof (Z.mod_pos_bound (ms / 1000) 3600 ltac:(lia)) as Hbound.
    rewrite (Z.rem_mod_nonneg ((ms / 1000) mod 3600) 60) by lia.
    assert (Hsec : (ms / 1000) mod 3600 mod 60 = (ms / 1000) mod 60).
    { symmetry. rewrite (Z.div_mod (ms / 1000) 3600) at 1 by lia.
      replace (3600 * (ms / 1000 / 3600) + (ms / 1000) mod 3600)
        with ((ms / 1000) mod 3600 + (60 * (ms / 1000 / 3600)) * 60) by lia.
      apply Z.mod_add. lia. }
    rewrite !Z.div_div by lia. change (1000 * 3600) with 3600000.
    change (1000 * 60) with 60000.
    rewrite Hsec. split; reflexivity.
Qed.

Lemma formatDuration_server_and_page_witness :
  Routes.formatDuration (Js.Fin 125000) = Page.formatDuration 125000
  /\ Routes.formatDuration (Js.Fin 3725000)
     = Js.pad2 (3725000 / 3600000) +:+ ":" +:+ Page.formatDuration (3725000 mod 3600000)
  /\ Page.formatDuration 3725000
     = Js.pad2 (3725000 / 60000) +:+ ":" +:+ Js.pad2 (3725000 / 1000 mod 60).
Proof.
  split.
  - apply (proj1 (formatDuration_server_and_page 125000)). lia.
  - apply (proj2 (formatDuration_server_and_page 3725000)). lia.
Defined.

(** ** The page that watches a video *)

Lemma receive_app page l1 l2 st :
  Page.receive page (l1 ++ l2) st = Page.receive page l2 (Page.receive page l1 st).
Proof. unfold Page.receive. apply fold_left_app. Qed.

Lemma page_accepts_own page vid status :
  ps_videoId status = None -> watching page = Some vid -> vid <> 0 ->
  page_accepts page (payload_of vid status) = true.
Proof.
  intros Hnone Hpage Hvid. unfold page_accepts, payload_of. simpl.
  rewrite Hnone, Hpage, Z.eqb_refl, (proj2 (Z.eqb_neq _ _) Hvid). reflexivity.
Qed.

Lemma page_accepts_other page vid status :
  ps_videoId status = None -> watching page <> Some vid ->
  page_accepts page (payload_of vid status) = false.
Proof.
  intros Hnone Hpage. unfold page_accepts, payload_of. simpl. rewrite Hnone.
  destruct (watching page) as [u |]; [| reflexivity].
  destruct (Z.eqb_spec vid u) as [-> | _]; [congruence |].
  apply andb_false_r.
Qed.

Lemma onmessage_other page data st :
  page_accepts page data = false -> Page.onmessage page data st = st.
Proof. unfold Page.onmessage. intros ->. reflexivity. Qed.

Lemma receive_other page vid statuses st :
  Forall (fun status => ps_videoId status = None) statuses ->
  watching page <> Some vid ->
  Page.receive page (List.map (payload_of vid) statuses) st = st.
Proof.
  intros Hall Hpage. unfold Page.receive. revert st.
  induction Hall as [| status statuses Hnone _ IH]; intros st; [reflexivity |].
  cbn [List.map fold_left].
  rewrite onmessage_other by (apply page_accepts_other; assumption). apply IH.
Qed.

Lemma last_default_irrelevant {A} (l : list A) d d' :
  l <> [] -> List.last l d = List.last l d'.
Proof.
  induction l as [| a l IH]; [congruence |]. intros _.
  destruct l as [| b l]; [reflexivity |].
  change (List.last (b :: l) d = List.last (b :: l) d'). apply IH. discriminate.
Qed.

(** What the progress events of its video leave on a page. *)
Lemma receive_progress page vid events st :
  watching page = Some vid -> vid <> 0 ->
  Forall (fun e => snd e <> "") events ->
  Page.receive page (progress_payloads vid events) st
  = match events with
    | [] => st
    | _ :: _ =>
        {| Page.pg_status := "processing";
           Page.pg_progress := List.last (List.map fst events) (Page.pg_progress st);
           Page.pg_stage := List.last (List.map snd events) (Page.pg_stage st);
           Page.pg_error := None;
           Page.pg_clips := Page.pg_clips st;
           Page.pg_videoInfo := Page.pg_videoInfo st |}
    end.
Proof.
  intros Hpage Hvid Hall. revert st.
  induction Hall as [| [p stage] events Hstage _ IH]; intros st; [reflexivity |].
  cbn [progress_payloads List.map Page.receive fold_left fst snd].
  fold (Page.receive page (progress_payloads vid events)).
  unfold progress_payloads in IH. unfold Page.receive in *. rewrite IH.
  unfold Page.onmessage.
  rewrite (page_accepts_own page vid (processing_status p stage) eq_refl Hpage Hvid).
  simpl in Hstage. destruct stage as [| c rest]; [congruence |].
  destruct events as [| e events]; [reflexivity |].
  cbn [Page.pg_progress Page.pg_stage Page.pg_clips Page.pg_videoInfo payload_of
       processing_status ps_progress ps_stage ps_clips ps_videoInfo ps_error ps_status
       p_progress p_stage p_clips p_videoInfo p_error p_status Page.or_else].
  f_equal.
  - transitivity (List.last (List.map fst (e :: events)) (Page.pg_progress st));
      [apply last_default_irrelevant; discriminate | reflexivity].
  - transitivity (List.last (List.map snd (e :: events)) (Page.pg_stage st));
      [apply last_default_irrelevant; discriminate | reflexivity].
Qed.

Lemma schedule_stages_nonempty duration scenes :
  Forall (fun e => snd e <> "") (schedule duration scenes).
Proof.
  unfold schedule. repeat (constructor; [discriminate |]).
  apply Forall_app. split.
  - apply Forall_forall. intros e (i & -> & _)%list_elem_of_fmap. discriminate.
  - repeat constructor. discriminate.
Qed.

Lemma processVideo_stages_nonempty h video options calls :
  processVideo h video options = calls ->
  Forall (fun e => snd e <> "") (progress_events calls).
Proof.
  intros (duration & scenes & _ & [rest Hrest])%processVideo_progress_prefix.
  pose proof (schedule_stages_nonempty duration scenes) as Hall.
  rewrite Hrest in Hall. apply Forall_app in Hall. apply Hall.
Qed.

Lemma processVideo_completed_last h video options calls results :
  processVideo h video options = calls ->
  completion calls = Some results ->
  exists events, progress_events calls = (events ++ [(100, "Processing complete")])%list.
Proof.
  intros Hrun Hdone.
  destruct (processVideo_cases _ _ _ _ Hrun)
    as [(e & _ & ->) | [(info & e & _ & _ & ->)
    | (info & scenes & events & final & _ & _ & _ & -> & Hfinal)]].
  - discriminate Hdone.
  - discriminate Hdone.
  - destruct Hfinal as [(e & -> & _) | (clipResults & _ & _ & ->)].
    + rewrite !app_assoc, completion_snoc in Hdone. discriminate.
    + exists ([(5, "Analyzing video..."); (15, "Detecting scenes...");
               (30, "Extracting clips...")] ++ events)%list.
      rewrite !progress_events_app, progress_events_calls. reflexivity.
Qed.

Lemma progress_payloads_statuses vid events :
  progress_payloads vid events
  = List.map (payload_of vid)
      (List.map (fun e => processing_status (fst e) (snd e)) events).
Proof. unfold progress_payloads. rewrite map_map. reflexivity. Qed.

Lemma receive_progress_only page vid events st :
  Page.pg_clips (Page.receive page (progress_payloads vid events) st) = Page.pg_clips st
  /\ Page.pg_videoInfo (Page.receive page (progress_payloads vid events) st)
     = Page.pg_videoInfo st.
Proof.
  revert st. induction events as [| e events IH]; intros st; [split; reflexivity |].
  cbn [progress_payloads List.map Page.receive fold_left].
  fold (Page.receive page (progress_payloads vid events)).
  unfold progress_payloads, Page.receive in *.
  destruct (IH (Page.onmessage page (payload_of vid (processing_status (fst e) (snd e))) st))
    as [-> ->].
  unfold Page.onmessage. destruct (page_accepts page _); split; reflexivity.
Qed.

Lemma receive_other_run page vid events final st :
  ps_videoId final = None -> watching page <> Some vid ->
  Page.receive page (progress_payloads vid events ++ [payload_of vid final]) st = st.
Proof.
  intros Hfinal Hpage.
  rewrite receive_app, progress_payloads_statuses, receive_other; [| | exact Hpage].
  - apply (receive_other page vid [final]); [repeat constructor; exact Hfinal | exact Hpage].
  - apply Forall_forall. intros status (e & -> & _)%list_elem_of_fmap. reflexivity.
Qed.

(** X22.  When a run on a stored video completes, the messages it sends
    leave a page that watches the video with the status "completed",
    progress 100, the stage "Processing complete", no error, the video
    info of the event and its clips as JSON carries them (the clips the
    page had when the run produced none); a page that watches another
    video, or none, is left as it was. *)
Theorem page_after_completed_run h video options calls results vid s stored :
  processVideo h video options = calls ->
  completion calls = Some results ->
  MemStorage.getVideo vid (storage s) = Some stored ->
  vid <> 0 ->
  exists clips videoInfo messages,
    clients (fire_all h vid calls s) = List.map (deliver messages) (clients s)
    /\ length clips = length (pr_clips results)
    /\ (forall page st,
          watching page = Some vid ->
          Page.receive page messages st
          = {| Page.pg_status := "completed";
               Page.pg_progress := 100;
               Page.pg_stage := "Processing complete";
               Page.pg_error := None;
               Page.pg_clips := match clips with
                                | [] => Page.pg_clips st
                                | _ :: _ => List.map Page.received clips
                                end;
               Page.pg_videoInfo := Some videoInfo |})
    /\ (forall page st,
          watching page <> Some vid -> Page.receive page messages st = st).
Proof.
  intros Hrun Hdone Hstored Hvid.
  destruct (processVideo_completed_last _ _ _ _ _ Hrun Hdone) as [events Hevents].
  pose proof (processVideo_completed_calls _ _ _ _ _ Hrun Hdone) as Hcalls.
  clear Hrun Hdone. rewrite Hevents in Hcalls. clear Hevents. subst calls.
  rewrite fire_all_app, fire_all_progress. cbn [fire_all fire]. unfold onComplete.
  cbn [storage].
  destruct (onComplete_body_stored h vid results (storage s) stored Hstored)
    as (new & st' & -> & _ & Hlen & _).
  eexists (List.map clipInfo_of new), _, _.
  unfold broadcast, with_storage. cbn [storage clients runs].
  rewrite broadcastStatus_deliver, map_deliver_app.
  split; [reflexivity |]. split; [rewrite length_map; exact Hlen |]. split.
  - intros page st Hpage. unfold progress_payloads. rewrite map_app.
    rewrite !receive_app. cbn [List.map Page.receive fold_left fst snd].
    fold (progress_payloads vid events).
    destruct (receive_progress_only page vid events st) as [Hclips Hinfo].
    set (before := Page.receive page (progress_payloads vid events) st) in *.
    unfold Page.onmessage.
    rewrite !page_accepts_own by (reflexivity || assumption).
    cbn. rewrite Hclips. destruct new; reflexivity.
  - intros page st Hpage.
    apply receive_other_run; [reflexivity | exact Hpage].
Qed.

Lemma page_after_completed_run_witness :
  exists clips videoInfo messages,
    clients (fire_all Scenario.host_cuts 1 Scenario.run_cuts
               (Scenario.after [Scenario.upload; Connect (Some 1)]))
    = List.map (deliver messages)
               (clients (Scenario.after [Scenario.upload; Connect (Some 1)]))
    /\ length clips = 3%nat
    /\ (forall page st,
          watching page = Some 1 ->
          Page.receive page messages st
          = {| Page.pg_status := "completed";
               Page.pg_progress := 100;
               Page.pg_stage := "Processing complete";
               Page.pg_error := None;
               Page.pg_clips := match clips with
                                | [] => Page.pg_clips st
                                | _ :: _ => List.map Page.received clips
                                end;
               Page.pg_videoInfo := Some videoInfo |})
    /\ (forall page st,
          watching page <> Some 1 -> Page.receive page messages st = st).
Proof.
  apply (page_after_completed_run Scenario.host_cuts Scenario.video Scenario.options
           Scenario.run_cuts
           (Scenario.results_of
              [Scenario.clip_of "1" 0 2000; Scenario.clip_of "3" 2300 7000;
               Scenario.clip_of "4" 7000 10000])
           1 (Scenario.after [Scenario.upload; Connect (Some 1)]) Scenario.video);
    [vm_compute; reflexivity .. | lia].
Defined.

(** X23.  When a run on a stored video fails, the messages it sends leave a
    page that watches the video with the status "error" and the message of
    the failure, while the progress and the stage stay those of the last
    progress event and the clips and video info those the page had; a page
    that watches another video, or none, is left as it was. *)
Theorem page_after_failed_run h video options calls message vid s stored :
  processVideo h video options = calls ->
  failure calls = Some message ->
  MemStorage.getVideo vid (storage s) = Some stored ->
  vid <> 0 ->
  exists messages,
    clients (fire_all h vid calls s) = List.map (deliver messages) (clients s)
    /\ (forall page st,
          watching page = Some vid ->
          Page.receive page messages st
          = {| Page.pg_status := "error";
               Page.pg_progress := List.last (percentages calls) (Page.pg_progress st);
               Page.pg_stage := List.last (stages calls) (Page.pg_stage st);
               Page.pg_error := Some message;
               Page.pg_clips := Page.pg_clips st;
               Page.pg_videoInfo := Page.pg_videoInfo st |})
    /\ (forall page st,
          watching page <> Some vid -> Page.receive page messages st = st).
Proof.
  intros Hrun Hfailed Hstored Hvid.
  pose proof (processVideo_stages_nonempty _ _ _ _ Hrun) as Hstages.
  pose proof (processVideo_failed_calls _ _ _ _ _ Hrun Hfailed) as Hcalls.
  unfold percentages, stages.
  clear Hrun Hfailed. set (events := progress_events calls) in *. clearbody events.
  subst calls.
  rewrite fire_all_app, fire_all_progress. cbn [fire_all fire]. unfold onError.
  cbn [storage]. unfold MemStorage.updateVideoStatus, MemStorage.updateVideo.
  unfold MemStorage.getVideo in *. rewrite Hstored. cbn [ret].
  unfold broadcast, with_storage. cbn [storage clients runs].
  rewrite broadcastStatus_deliver, map_deliver_app.
  eexists. split; [reflexivity |]. split.
  - intros page st Hpage. rewrite receive_app.
    rewrite (receive_progress page vid events st Hpage Hvid Hstages).
    cbn [Page.receive fold_left]. unfold Page.onmessage.
    rewrite page_accepts_own by (reflexivity || assumption).
    destruct events as [| e events]; [destruct st |]; reflexivity.
  - intros page st Hpage.
    apply receive_other_run; [reflexivity | exact Hpage].
Qed.

Lemma page_after_failed_run_witness :
  exists messages,
    clients (fire_all Cases.host_clip_fails 1 Cases.run_clip_fails
               (Scenario.after [Scenario.upload; Connect (Some 1)]))
    = List.map (deliver messages)
               (clients (Scenario.after [Scenario.upload; Connect (Some 1)]))
    /\ (forall page st,
          watching page = Some 1 ->
          Page.receive page messages st
          = {| Page.pg_status := "error";
               Page.pg_progress := 45;
               Page.pg_stage := "Extracting clip 1 of 4...";
               Page.pg_error := Some "Failed to extract clip: Command failed: ffmpeg";
               Page.pg_clips := Page.pg_clips st;
               Page.pg_videoInfo := Page.pg_videoInfo st |})
    /\ (forall page st,
          watching page <> Some 1 -> Page.receive page messages st = st).
Proof.
  apply (page_after_failed_run Cases.host_clip_fails Scenario.video Scenario.options
           Cases.run_clip_fails "Failed to extract clip: Command failed: ffmpeg"
           1 (Scenario.after [Scenario.upload; Connect (Some 1)]) Scenario.video);
    [vm_compute; reflexivity .. | lia].
Defined.

(** ** The archive of a video's clips *)

Lemma getClipsByVideo_member vid st c :
  c ∈ MemStorage.getClipsByVideo vid st ->
  c ∈ MemStorage.clips st /\ clip_videoId c = vid.
Proof.
  unfold MemStorage.getClipsByVideo. rewrite sort_by_sceneIndex_perm.
  intros [Hin Hvid%Z.eqb_eq]%list_elem_of_In%List.filter_In.
  split; [apply list_elem_of_In, Hin | exact Hvid].
Qed.

(** X24.  In a reachable state, the archive route asked for a stored video
    that has clips names the attachment after the video and adds one entry
    per clip of the video, in scene order; each entry has the file and the
    name under which the download route serves that clip on its own. *)
Theorem archive_agrees_with_downloads h d es s disk vid video :
  apply_events h d es initial = s ->
  MemStorage.getVideo vid (storage s) = Some video ->
  MemStorage.getClipsByVideo vid (storage s) <> [] ->
  handle_download_clips h disk (pretty vid) s
  = inr (path_parse_name h (video_originalFilename video) +:+ "_scenes.zip",
         List.map (fun c => (clip_filePath c, downloadName h disk video c))
                  (MemStorage.getClipsByVideo vid (storage s)))
  /\ StronglySorted by_sceneIndex (MemStorage.getClipsByVideo vid (storage s))
  /\ Forall (fun c =>
               handle_download h disk (pretty (clip_id c)) s
               = if existsSync disk (clip_filePath c)
                 then Download (clip_filePath c) (downloadName h disk video c)
                 else Refuse 404 "Clip file not found")
            (MemStorage.getClipsByVideo vid (storage s)).
Proof.
  intros ((_ & _ & _ & _ & Hsorted) & _ & _)%reachable_ok Hvideo Hsome.
  split; [| split].
  - unfold handle_download_clips. rewrite parseInt_pretty, Hvideo.
    destruct (MemStorage.getClipsByVideo vid (storage s)); [congruence | reflexivity].
  - apply sort_by_sceneIndex_sorted.
  - apply Forall_forall. intros c [Hin Hvid]%getClipsByVideo_member.
    unfold handle_download.
    rewrite parseInt_pretty. unfold MemStorage.getClip.
    rewrite (find_by_id_member _ c Hsorted Hin), Hvid, Hvideo. reflexivity.
Qed.

Lemma archive_agrees_with_downloads_witness :
  handle_download_clips Scenario.host_cuts Cases.disk "1" Cases.finished
  = inr ("holiday_scenes.zip",
         [("uploads/clips/a1b2_scene_1.mp4", "holiday_scene_1.mp4");
          ("uploads/clips/a1b2_scene_3.mp4", "holiday_scene_2.mp4");
          ("uploads/clips/a1b2_scene_4.mp4", "holiday_scene_3.mp4")])
  /\ StronglySorted by_sceneIndex (MemStorage.getClipsByVideo 1 (storage Cases.finished))
  /\ Forall (fun c =>
               handle_download Scenario.host_cuts Cases.disk (pretty (clip_id c))
                 Cases.finished
               = if existsSync Cases.disk (clip_filePath c)
                 then Download (clip_filePath c)
                        (downloadName Scenario.host_cuts Cases.disk
                           (MemStorage.apply_patch Scenario.video
                              (completed_patch
                                 (Scenario.results_of
                                    [Scenario.clip_of "1" 0 2000;
                                     Scenario.clip_of "3" 2300 7000;
                                     Scenario.clip_of "4" 7000 10000])))
                           c)
                 else Refuse 404 "Clip file not found")
            (MemStorage.getClipsByVideo 1 (storage Cases.finished)).
Proof.
  apply (archive_agrees_with_downloads Scenario.host_cuts Scenario.dirs Cases.whole_run
           Cases.finished Cases.disk 1
           (MemStorage.apply_patch Scenario.video
              (completed_patch
                 (Scenario.results_of
                    [Scenario.clip_of "1" 0 2000; Scenario.clip_of "3" 2300 7000;
                     Scenario.clip_of "4" 7000 10000]))));
    [vm_compute; reflexivity .. | vm_compute; discriminate].
Defined.
